(** * LOT Platform: the borrow / return reservation engine

    A shallow embedding of the Cloudflare Worker handlers that create,
    return and sweep borrow records, together with the availability,
    subscription and trust-score helpers they call.

    - D1 tables are lists of rows: [SELECT ... WHERE] is [filter],
      [.first()] is the head of the filtered list, [UPDATE ... WHERE]
      maps over the matching rows and [INSERT] appends a row whose id is
      one more than the largest id in the table.
    - Every [await env.DB...] / [await env.KV...] is one atomic statement
      on the shared store.  A handler is a [Task]: a tree of such
      statements.  [run] executes a task alone; [interleave] executes
      several tasks under a schedule, one statement at a time.
    - Ids, levels, counts and clock readings are whole numbers and are
      modelled by [Z].  A number that a request supplies unchecked is a
      [JsNumber]: a whole number, or any other binary64 value.  A numeric
      column that receives such a number holds a rational ([Q]).
      [Date.now()] readings and the random UUID are inputs of a handler
      ([Ambient]). *)

From Stdlib Require Import ZArith QArith List String Ascii Bool Lia DecimalString.
From Stdlib Require Import SpecFloat.
Import ListNotations.
Local Open Scope Z_scope.

(** ** JavaScript numbers *)

(** A number is a binary64 value.  A whole number is kept as an integer
    and computed with exactly: the handlers add and multiply whole
    numbers only far below 2^53, where binary64 is exact.  [double]
    carries any other value in the representation of [SpecFloat]: a
    fraction [m * 2^e] (for a binary64 number, with [m] below 2^53), a
    zero, an infinity or NaN. *)
Inductive JsNumber : Type :=
| whole (z : Z)
| double (f : spec_float).

Definition prec : Z := 53.
Definition emax : Z := 1024.

Definition to_double (n : JsNumber) : spec_float :=
  match n with
  | whole z => binary_normalize prec emax z 0 false
  | double f => f
  end.

(** [a * b] and [a + b]: exact on whole numbers, otherwise the binary64
    operation, rounded to nearest. *)
Definition js_mul (a b : JsNumber) : JsNumber :=
  match a, b with
  | whole x, whole y => whole (x * y)
  | _, _ => double (SFmul prec emax (to_double a) (to_double b))
  end.

Definition js_add (a b : JsNumber) : JsNumber :=
  match a, b with
  | whole x, whole y => whole (x + y)
  | _, _ => double (SFadd prec emax (to_double a) (to_double b))
  end.

(** The value of a number on the extended real line. *)
Inductive Extended : Type :=
| NotANumber
| MinusInfinity
| Finite (q : Q)
| PlusInfinity.

(** [m * 2^e], in lowest terms. *)
Definition dyadic (m e : Z) : Q :=
  if 0 <=? e then inject_Z (m * 2 ^ e)
  else Qred (m # Pos.pow 2 (Z.to_pos (- e))).

Definition extended (n : JsNumber) : Extended :=
  match n with
  | whole z => Finite (inject_Z z)
  | double (S754_zero _) => Finite (inject_Z 0)
  | double (S754_finite s m e) =>
      Finite (dyadic (if s then Zneg m else Zpos m) e)
  | double (S754_infinity s) => if s then MinusInfinity else PlusInfinity
  | double S754_nan => NotANumber
  end.

Definition Qltb (x y : Q) : bool := Qnum x * QDen y <? Qnum y * QDen x.

(** [a < b]: false as soon as one side is NaN. *)
Definition js_ltb (a b : JsNumber) : bool :=
  match extended a, extended b with
  | Finite x, Finite y => Qltb x y
  | MinusInfinity, Finite _ => true
  | MinusInfinity, PlusInfinity => true
  | Finite _, PlusInfinity => true
  | _, _ => false
  end.

(** [a > b]. *)
Definition js_gtb (a b : JsNumber) : bool := js_ltb b a.

(** A number bound to a D1 statement: the parameters travel as JSON,
    where NaN and the infinities are [null]; a finite number arrives with
    its value. *)
Definition bound (n : JsNumber) : option Q :=
  match extended n with
  | Finite q => Some q
  | _ => None
  end.

(** ** schema.sql *)

(** [borrow_records.status]: 'active', 'returned', 'overdue'. *)
Inductive Status : Type := active | returned | overdue.

Definition Status_eqb (a b : Status) : bool :=
  match a, b with
  | active, active | returned, returned | overdue, overdue => true
  | _, _ => false
  end.

Record User : Type := mkUser {
  u_id : Z;
  u_level : Z;
  u_trust_score : Z
}.

Record Item : Type := mkItem {
  it_id : Z;
  it_name : string;
  it_risk_level : string;
  it_min_level_required : Z;
  it_available : Z
}.

Record Subscription : Type := mkSubscription {
  sub_user_id : Z;
  sub_plan : string;
  sub_max_items : Z;
  sub_max_risk_level : string;
  sub_expires_at : option Z
}.

Record BorrowRecord : Type := mkBorrow {
  br_id : Z;
  br_user_id : Z;
  br_item_id : Z;
  br_borrowed_at : Z;
  br_due_at : Q;
  br_returned_at : option Z;
  br_condition_notes : option string;
  br_qr_code : string;
  br_status : Status
}.

(** The persistent store: the four D1 tables the engine touches and the
    availability entries of the KV namespace (key
    [item_availability:<itemId>], value 'true' or 'false'). *)
Record State : Type := mkState {
  users : list User;
  items : list Item;
  subscriptions : list Subscription;
  borrow_records : list BorrowRecord;
  kv : list (Z * bool)
}.

Definition set_items (st : State) (l : list Item) : State :=
  mkState (users st) l (subscriptions st) (borrow_records st) (kv st).

Definition set_users (st : State) (l : list User) : State :=
  mkState l (items st) (subscriptions st) (borrow_records st) (kv st).

Definition set_borrow_records (st : State) (l : list BorrowRecord) : State :=
  mkState (users st) (items st) (subscriptions st) l (kv st).

Definition set_kv (st : State) (l : list (Z * bool)) : State :=
  mkState (users st) (items st) (subscriptions st) (borrow_records st) l.

Definition set_status (b : BorrowRecord) (s : Status) : BorrowRecord :=
  mkBorrow (br_id b) (br_user_id b) (br_item_id b) (br_borrowed_at b)
    (br_due_at b) (br_returned_at b) (br_condition_notes b) (br_qr_code b) s.

Definition set_available (it : Item) (a : Z) : Item :=
  mkItem (it_id it) (it_name it) (it_risk_level it)
    (it_min_level_required it) a.

Definition set_trust_score (u : User) (t : Z) : User :=
  mkUser (u_id u) (u_level u) t.

(** ** SQL statements on a table *)

(** [stmt.first()]: the first row of the result, or null. *)
Definition first {A : Type} (rows : list A) : option A := hd_error rows.

(** [UPDATE t SET ... WHERE p]. *)
Definition update_where {A : Type} (p : A -> bool) (f : A -> A)
    (rows : list A) : list A :=
  map (fun r => if p r then f r else r) rows.

(** [meta.changes] of an [UPDATE ... WHERE p]: the number of rows matched. *)
Definition changes {A : Type} (p : A -> bool) (rows : list A) : nat :=
  List.length (filter p rows).

(** [meta.last_row_id] of an insert into an [AUTOINCREMENT] table. *)
Definition next_id (ids : list Z) : Z := fold_right Z.max 0 ids + 1.

(** ** Handlers as trees of awaited statements *)

Inductive Task (A : Type) : Type :=
| Return (a : A)
| Await {X : Type} (stmt : State -> X * State) (k : X -> Task A).

Arguments Return {A} a.
Arguments Await {A X} stmt k.

Fixpoint bind {A B : Type} (m : Task A) (f : A -> Task B) : Task B :=
  match m with
  | Return a => f a
  | Await stmt k => Await stmt (fun x => bind (k x) f)
  end.

Notation "x <- m ;; k" := (bind m (fun x => k))
  (at level 61, m at next level, right associativity).
Notation "' p <- m ;; k" := (bind m (fun p => k))
  (at level 61, p pattern, m at next level, right associativity).

(** A read-only statement. *)
Definition query {X : Type} (q : State -> X) : Task X :=
  Await (fun st => (q st, st)) Return.

(** A writing statement whose result the handler ignores. *)
Definition exec (u : State -> State) : Task unit :=
  Await (fun st => (tt, u st)) Return.

(** A writing statement with a result ([meta]). *)
Definition exec_meta {X : Type} (u : State -> X * State) : Task X :=
  Await u Return.

(** The handler runs alone: no other request touches the store. *)
Fixpoint run {A : Type} (m : Task A) (st : State) : A * State :=
  match m with
  | Return a => (a, st)
  | Await stmt k => let (x, st') := stmt st in run (k x) st'
  end.

(** One awaited statement of a task. *)
Definition step {A : Type} (m : Task A) (st : State) : Task A * State :=
  match m with
  | Return a => (Return a, st)
  | Await stmt k => let (x, st') := stmt st in (k x, st')
  end.

Fixpoint step_nth {A : Type} (n : nat) (pool : list (Task A)) (st : State)
    : list (Task A) * State :=
  match pool with
  | [] => ([], st)
  | m :: pool' =>
      match n with
      | O => let (m', st') := step m st in (m' :: pool', st')
      | S n' => let (pool'', st') := step_nth n' pool' st in (m :: pool'', st')
      end
  end.

(** Concurrent requests: [schedule] names, statement by statement, the
    request whose next awaited statement reaches the store. *)
Fixpoint interleave {A : Type} (schedule : list nat) (pool : list (Task A))
    (st : State) : list (Task A) * State :=
  match schedule with
  | [] => (pool, st)
  | n :: schedule' =>
      let (pool', st') := step_nth n pool st in
      interleave schedule' pool' st'
  end.

Definition finished {A : Type} (m : Task A) : option A :=
  match m with
  | Return a => Some a
  | Await _ _ => None
  end.

(** ** Responses *)

(** The texts passed to [error(message, status)]; [render] gives the
    string the source builds. *)
Inductive Message : Type :=
| Unauthorized
| InvalidJSONBody
| ItemIdRequired
| DurationOutOfRange
| ItemNotFound
| ItemNotAvailable
| ItemRequiresLevel (min_level_required user_level : Z)
| SubscriptionExpired
| MaximumItems (maxItems : Z)
| RiskNotAllowed (maxRiskLevel itemRiskLevel : string)
| SubscriptionDoesNotAllow
| InvalidBorrowId
| BorrowNotFound
| AlreadyReturned.

Definition show (z : Z) : string := NilZero.string_of_int (Z.to_int z).

Definition render (m : Message) : string :=
  match m with
  | Unauthorized => "Unauthorized"
  | InvalidJSONBody => "Invalid JSON body"
  | ItemIdRequired => "item_id is required"
  | DurationOutOfRange => "duration_days must be between 1 and 30"
  | ItemNotFound => "Item not found"
  | ItemNotAvailable => "Item is not available for borrowing"
  | ItemRequiresLevel m l =>
      "Item requires level " ++ show m ++ ", you have level " ++ show l
  | SubscriptionExpired => "Subscription expired"
  | MaximumItems n => "Maximum " ++ show n ++ " items allowed for your plan"
  | RiskNotAllowed p i =>
      "Your plan (" ++ p ++ ") doesn't allow " ++ i ++ "-risk items"
  | SubscriptionDoesNotAllow => "Subscription does not allow this borrow"
  | InvalidBorrowId => "Invalid borrow ID"
  | BorrowNotFound => "Borrow record not found"
  | AlreadyReturned => "Item already returned"
  end%string.

(** What a handler lets escape: the [TypeError] of destructuring [null]
    and the error of a D1 statement that fails a constraint. *)
Inductive Exception : Type :=
| TypeError
| D1Error.

(** [json(data, status)] and [error(message, status)] of index.ts;
    [thrown e] is a handler that throws [e], which [fetch] catches and
    answers with [error(err.message, 500)]. *)
Inductive Response (A : Type) : Type :=
| json (data : A) (status : Z)
| error (message : Message) (status : Z)
| thrown (e : Exception).

Arguments json {A} data status.
Arguments error {A} message status.
Arguments thrown {A} e.

Definition status_code {A : Type} (r : Response A) : Z :=
  match r with
  | json _ s => s
  | error _ s => s
  | thrown _ => 500
  end.

(** A response that is not the [json] of a success: an [error] with a
    status from 400 on, or an exception. *)
Definition failure {A : Type} (r : Response A) : Prop :=
  match r with
  | json _ _ => False
  | error _ c => 400 <= c
  | thrown _ => True
  end.

(** [await request.json()]: a malformed body throws a [SyntaxError]; the
    body [null] parses, and destructuring it throws a [TypeError]; any
    other JSON value is read through its properties. *)
Inductive Body (A : Type) : Type :=
| malformed
| json_null
| parsed (properties : A).

Arguments malformed {A}.
Arguments json_null {A}.
Arguments parsed {A} properties.

(** ** services/availability.ts *)

Definition item_rows (itemId : Z) (st : State) : list Item :=
  filter (fun it => it_id it =? itemId) (items st).

(** [SELECT id FROM borrow_records WHERE item_id = ? AND status = ?]. *)
Definition borrows_of_item (itemId : Z) (s : Status) (st : State)
    : list BorrowRecord :=
  filter (fun b => (br_item_id b =? itemId) && Status_eqb (br_status b) s)
    (borrow_records st).

Definition isItemAvailable (itemId : Z) : Task bool :=
  item <- query (fun st => first (item_rows itemId st)) ;;
  match item with
  | None => Return false
  | Some it =>
      if it_available it =? 0 then Return false
      else
        activeBorrow <-
          query (fun st => first (borrows_of_item itemId active st)) ;;
        Return (match activeBorrow with None => true | Some _ => false end)
  end.

Definition kv_delete (itemId : Z) (st : State) : State :=
  set_kv st (filter (fun e => negb (fst e =? itemId)) (kv st)).

Definition invalidateAvailabilityCache (itemId : Z) : Task unit :=
  exec (kv_delete itemId).

(** ** routes/subscriptions.ts *)

(** [riskLevels.indexOf(x)] for [riskLevels = ['low', 'medium', 'high']]. *)
Definition riskLevels : list string := ["low"; "medium"; "high"]%string.

Fixpoint indexOf_from (i : Z) (l : list string) (x : string) : Z :=
  match l with
  | [] => -1
  | y :: l' => if String.eqb y x then i else indexOf_from (i + 1) l' x
  end.

Definition indexOf (l : list string) (x : string) : Z := indexOf_from 0 l x.

Definition subscription_rows (userId : Z) (st : State) : list Subscription :=
  filter (fun s => sub_user_id s =? userId) (subscriptions st).

(** [SELECT id FROM borrow_records WHERE user_id = ? AND status = 'active']. *)
Definition activeBorrows (userId : Z) (st : State) : list BorrowRecord :=
  filter (fun b => (br_user_id b =? userId) && Status_eqb (br_status b) active)
    (borrow_records st).

(** [subscription?.expires_at && subscription.expires_at < Date.now() / 1000],
    with [Date.now()] in milliseconds: an integer [e] is below
    [now_ms / 1000] exactly when [e * 1000 < now_ms]. *)
Definition isExpired (subscription : option Subscription) (now_ms : Z) : bool :=
  match subscription with
  | None => false
  | Some s =>
      match sub_expires_at s with
      | None => false
      | Some e => negb (e =? 0) && (e * 1000 <? now_ms)
      end
  end.

Definition canUserBorrowItem (now_ms : Z) (userId : Z) (itemRiskLevel : string)
    : Task (bool * option Message) :=
  subscription <- query (fun st => first (subscription_rows userId st)) ;;
  let maxItems :=
    match subscription with Some s => sub_max_items s | None => 1 end in
  let maxRiskLevel :=
    match subscription with
    | Some s => sub_max_risk_level s
    | None => "low"%string
    end in
  if isExpired subscription now_ms then
    Return (false, Some SubscriptionExpired)
  else
    active_rows <- query (activeBorrows userId) ;;
    if Z.of_nat (List.length active_rows) >=? maxItems then
      Return (false, Some (MaximumItems maxItems))
    else
      let userMaxRiskIndex := indexOf riskLevels maxRiskLevel in
      let itemRiskIndex := indexOf riskLevels itemRiskLevel in
      if itemRiskIndex >? userMaxRiskIndex then
        Return (false, Some (RiskNotAllowed maxRiskLevel itemRiskLevel))
      else Return (true, None).

(** ** routes/borrows.ts *)

(** What a request reads besides the store: the [Date.now()] reading
    inside [canUserBorrowItem], the later [Date.now()] reading of the
    handler (both in milliseconds), SQLite's [unixepoch()] at the insert
    (the column default of [borrowed_at], in seconds) and
    [crypto.randomUUID()]. *)
Record Ambient : Type := mkAmbient {
  sub_now_ms : Z;
  now_ms : Z;
  db_unixepoch : Z;
  randomUUID : string
}.

(** The JSON body [{ item_id?: number; duration_days?: number }].
    [item_id] is [None] when it is absent or not a number.
    [duration_days] is [None] when it is absent and then takes the
    default 7; a value that is present is not type-checked and is used
    through [<], [>] and [*] only, which read it as the number it denotes
    (a number as itself, a text or one-element array that denotes a
    number as that number, [true] as 1, [null], [false] and [[]] as 0,
    any other value as NaN). *)
Record CreateBorrowBody : Type := mkCreateBorrowBody {
  item_id : option Z;
  duration_days : option JsNumber
}.

(** [request.userId] is set by [requireAuth]. *)
Record CreateBorrowRequest : Type := mkCreateBorrowRequest {
  userId : option Z;
  create_body : Body CreateBorrowBody
}.

Record Created : Type := mkCreated {
  borrow_id : Z;
  created_qr_code : string;
  created_due_at : JsNumber;
  item_name : string
}.

(** [!x] is false exactly for a number other than 0. *)
Definition truthy (x : option Z) : option Z :=
  match x with
  | Some n => if n =? 0 then None else Some n
  | None => None
  end.

Definition upper_ascii (c : ascii) : ascii :=
  let n := nat_of_ascii c in
  if ((97 <=? n) && (n <=? 122))%nat then ascii_of_nat (n - 32) else c.

Fixpoint toUpperCase (s : string) : string :=
  match s with
  | EmptyString => EmptyString
  | String c s' => String (upper_ascii c) (toUpperCase s')
  end.

Definition user_rows (uid : Z) (st : State) : list User :=
  filter (fun u => u_id u =? uid) (users st).

(** [INSERT INTO borrow_records (user_id, item_id, due_at, qr_code, status)
    VALUES (?, ?, ?, ?, 'active')]: [borrowed_at] takes its default
    [unixepoch()], the other columns are null.  [due_at] is declared
    [NOT NULL]: with [null] bound to it the statement fails and inserts
    nothing. *)
Definition insert_borrow (uid iid : Z) (dueAt : option Q) (qrCode : string)
    (db_now : Z) (st : State) : option Z * State :=
  match dueAt with
  | None => (None, st)
  | Some due =>
      let new_id := next_id (map br_id (borrow_records st)) in
      (Some new_id,
       set_borrow_records st
         (borrow_records st ++
          [mkBorrow new_id uid iid db_now due None None qrCode active]))
  end.

(** [UPDATE items SET available = ? WHERE id = ?]. *)
Definition mark_item (iid a : Z) (st : State) : State :=
  set_items st
    (update_where (fun it => it_id it =? iid) (fun it => set_available it a)
       (items st)).

Definition createBorrow (request : CreateBorrowRequest) (amb : Ambient)
    : Task (Response Created) :=
  match truthy (userId request) with
  | None => Return (error Unauthorized 401)
  | Some uid =>
  match create_body request with
  | malformed => Return (error InvalidJSONBody 400)
  | json_null => Return (thrown TypeError)
  | parsed body =>
  let days :=
    match duration_days body with Some d => d | None => whole 7 end in
  match truthy (item_id body) with
  | None => Return (error ItemIdRequired 400)
  | Some iid =>
  if js_ltb days (whole 1) || js_gtb days (whole 30)
  then Return (error DurationOutOfRange 400)
  else
    (* Check item exists *)
    item <- query (fun st => first (item_rows iid st)) ;;
    match item with
    | None => Return (error ItemNotFound 404)
    | Some item =>
    (* Check item availability *)
    available <- isItemAvailable iid ;;
    if negb available then Return (error ItemNotAvailable 409)
    else
      (* Check user level *)
      user <- query (fun st => first (user_rows uid st)) ;;
      if match user with
         | None => true
         | Some u => u_level u <? it_min_level_required item
         end
      then
        Return (error
          (ItemRequiresLevel (it_min_level_required item)
             (match user with Some u => u_level u | None => 0 end)) 403)
      else
        (* Check subscription limits *)
        '(allowed, reason) <-
          canUserBorrowItem (sub_now_ms amb) uid (it_risk_level item) ;;
        if negb allowed then
          Return (error
            (match reason with
             | Some r => r
             | None => SubscriptionDoesNotAllow
             end) 403)
        else
          let qrCode :=
            ("LOT-" ++ toUpperCase (substring 0 8 (randomUUID amb)))%string in
          let now := now_ms amb / 1000 in
          let dueAt :=
            js_add (whole now)
              (js_mul (js_mul (js_mul days (whole 24)) (whole 60)) (whole 60)) in
          (* Create borrow record *)
          inserted <-
            exec_meta
              (insert_borrow uid iid (bound dueAt) qrCode (db_unixepoch amb)) ;;
          match inserted with
          | None => Return (thrown D1Error)
          | Some last_row_id =>
              (* Mark item as unavailable *)
              _ <- exec (mark_item iid 0) ;;
              (* Invalidate availability cache *)
              _ <- invalidateAvailabilityCache iid ;;
              Return
                (json (mkCreated last_row_id qrCode dueAt (it_name item)) 201)
          end
    end
  end
  end
  end.

Definition days_of (body : CreateBorrowBody) : JsNumber :=
  match duration_days body with Some d => d | None => whole 7 end.

(** [duration_days < 1 || duration_days > 30]. *)
Definition out_of_range (days : JsNumber) : bool :=
  js_ltb days (whole 1) || js_gtb days (whole 30).

(** [now + duration_days * 24 * 60 * 60]. *)
Definition due_of (amb : Ambient) (days : JsNumber) : JsNumber :=
  js_add (whole (now_ms amb / 1000))
    (js_mul (js_mul (js_mul days (whole 24)) (whole 60)) (whole 60)).

Definition qr_of (amb : Ambient) : string :=
  ("LOT-" ++ toUpperCase (substring 0 8 (randomUUID amb)))%string.

(** The JSON body [{ condition_notes?: string; condition?: 'good' | 'damaged' }]. *)
Record ReturnBody : Type := mkReturnBody {
  condition_notes : option string;
  condition : option string
}.

(** The text of [request.params.id], as the two places that read it see
    it.  [Number(id)] decides the 400.  The statements bind the text
    itself and SQLite compares it with the INTEGER column [id]: a text
    that SQLite reads as the whole number [n] selects the row of id [n]
    ('16'), any other text selects no row ('0x10', in which [Number]
    reads 16). *)
Inductive IdText : Type :=
| row_id (n : Z)
| no_row_id.

(** [params_id] is [None] when the text is missing, empty or not a
    number for [Number]. *)
Record ReturnRequest : Type := mkReturnRequest {
  params_id : option IdText;
  return_body : Body ReturnBody
}.

Definition borrow_rows (bid : Z) (st : State) : list BorrowRecord :=
  filter (fun b => br_id b =? bid) (borrow_records st).

(** [SELECT ... FROM borrow_records WHERE id = ?] with the text bound. *)
Definition borrow_rows_by (id : IdText) (st : State) : list BorrowRecord :=
  match id with
  | row_id bid => borrow_rows bid st
  | no_row_id => []
  end.

(** [condition_notes || null]. *)
Definition notes_or_null (n : option string) : option string :=
  match n with
  | Some EmptyString => None
  | other => other
  end.

(** [UPDATE borrow_records SET returned_at = ?, status = 'returned',
    condition_notes = ? WHERE id = ?]. *)
Definition mark_returned (bid now : Z) (notes : option string) (st : State)
    : State :=
  set_borrow_records st
    (update_where (fun b => br_id b =? bid)
       (fun b => mkBorrow (br_id b) (br_user_id b) (br_item_id b)
                   (br_borrowed_at b) (br_due_at b) (Some now) notes
                   (br_qr_code b) returned)
       (borrow_records st)).

(** The same statement with the text bound. *)
Definition mark_returned_by (id : IdText) (now : Z) (notes : option string)
    (st : State) : State :=
  match id with
  | row_id bid => mark_returned bid now notes st
  | no_row_id => st
  end.

(** [UPDATE users SET trust_score = trust_score - 10 WHERE id = ?]. *)
Definition trust_damaged (uid : Z) (st : State) : State :=
  set_users st
    (update_where (fun u => u_id u =? uid)
       (fun u => set_trust_score u (u_trust_score u - 10)) (users st)).

(** [UPDATE users SET trust_score = trust_score + 2
    WHERE id = ? AND trust_score < 200]. *)
Definition trust_good (uid : Z) (st : State) : State :=
  set_users st
    (update_where (fun u => (u_id u =? uid) && (u_trust_score u <? 200))
       (fun u => set_trust_score u (u_trust_score u + 2)) (users st)).

Definition returnItem (request : ReturnRequest) (now_ms : Z)
    : Task (Response string) :=
  match params_id request with
  | None => Return (error InvalidBorrowId 400)
  | Some id =>
  match return_body request with
  | malformed => Return (error InvalidJSONBody 400)
  | json_null => Return (thrown TypeError)
  | parsed body =>
  let cond :=
    match condition body with Some c => c | None => "good"%string end in
  (* Get borrow record *)
  borrow <- query (fun st => first (borrow_rows_by id st)) ;;
  match borrow with
  | None => Return (error BorrowNotFound 404)
  | Some borrow =>
  if Status_eqb (br_status borrow) returned then
    Return (error AlreadyReturned 400)
  else
    let now := now_ms / 1000 in
    (* Update borrow record *)
    _ <- exec (mark_returned_by id now (notes_or_null (condition_notes body))) ;;
    (* Mark item as available again *)
    _ <- exec (mark_item (br_item_id borrow) 1) ;;
    (* Invalidate availability cache *)
    _ <- invalidateAvailabilityCache (br_item_id borrow) ;;
    (* Handle condition-based trust score update *)
    _ <- (if String.eqb cond "damaged"
          then exec (trust_damaged (br_user_id borrow))
          else exec (trust_good (br_user_id borrow))) ;;
    Return (json cond 200)
  end
  end
  end.

(** The rows the sweep transitions: [status = 'active' AND due_at < ?]. *)
Definition is_due (now : Z) (b : BorrowRecord) : bool :=
  Status_eqb (br_status b) active && Qltb (br_due_at b) (inject_Z now).

(** [UPDATE borrow_records SET status = 'overdue'
    WHERE status = 'active' AND due_at < ?], with its [meta.changes]. *)
Definition mark_overdue (now : Z) (st : State) : nat * State :=
  (changes (is_due now) (borrow_records st),
   set_borrow_records st
     (update_where (is_due now) (fun b => set_status b overdue)
        (borrow_records st))).

Fixpoint insert_by_due (b : BorrowRecord * string)
    (l : list (BorrowRecord * string)) : list (BorrowRecord * string) :=
  match l with
  | [] => [b]
  | c :: l' =>
      if Qltb (br_due_at (fst b)) (br_due_at (fst c)) then b :: c :: l'
      else c :: insert_by_due b l'
  end.

(** [SELECT br.*, i.name as item_name, ... FROM borrow_records br
    JOIN items i ON br.item_id = i.id JOIN users u ON br.user_id = u.id
    WHERE br.status = 'overdue' ORDER BY br.due_at ASC]. *)
Definition overdue_rows (st : State) : list (BorrowRecord * string) :=
  fold_right insert_by_due []
    (flat_map
       (fun b =>
          flat_map
            (fun it => map (fun _ => (b, it_name it)) (user_rows (br_user_id b) st))
            (item_rows (br_item_id b) st))
       (filter (fun b => Status_eqb (br_status b) overdue) (borrow_records st))).

Definition getOverdueBorrows (now_ms : Z)
    : Task (Response (list (BorrowRecord * string))) :=
  let now := now_ms / 1000 in
  (* First, update overdue status *)
  _ <- exec_meta (mark_overdue now) ;;
  (* Then fetch overdue records *)
  results <- query overdue_rows ;;
  Return (json results 200).

(** ** services/progression.ts *)

(** [UPDATE users SET trust_score = MAX(0, MIN(200, trust_score + ?))
    WHERE id = ?]. *)
Definition clamp_trust (uid delta : Z) (st : State) : State :=
  set_users st
    (update_where (fun u => u_id u =? uid)
       (fun u => set_trust_score u (Z.max 0 (Z.min 200 (u_trust_score u + delta))))
       (users st)).

Definition updateTrustScore (uid delta : Z) : Task Z :=
  _ <- exec (clamp_trust uid delta) ;;
  user <- query (fun st => first (user_rows uid st)) ;;
  Return (match user with Some u => u_trust_score u | None => 100 end).

(** ** The engine's invariants *)

(** A reservation holds its item while it is 'active' or 'overdue'. *)
Definition is_holder (b : BorrowRecord) : bool :=
  match br_status b with
  | returned => false
  | active | overdue => true
  end.

Definition holders (iid : Z) (st : State) : list BorrowRecord :=
  filter (fun b => (br_item_id b =? iid) && is_holder b) (borrow_records st).

(** At most one reservation per item has status 'active' or 'overdue'. *)
Definition at_most_one_holder (st : State) : Prop :=
  forall iid, (List.length (holders iid st) <= 1)%nat.

(** The availability flag of an item: set when the item row exists and
    its [available] column is not 0. *)
Definition flag_set (iid : Z) (st : State) : bool :=
  match first (item_rows iid st) with
  | Some it => negb (it_available it =? 0)
  | None => false
  end.

(** Availability-flag consistency, in the direction the engine relies on:
    an item that has a holder is flagged unavailable.  (The data model
    states [available = false] iff a holder exists; this is its "if".) *)
Definition held_items_flagged (st : State) : Prop :=
  forall iid, holders iid st <> [] -> flag_set iid st = false.

(** The invariant of the data model in full: an item row is flagged
    unavailable if and only if the item has a holder. *)
Definition flag_consistent (st : State) : Prop :=
  forall it, In it (items st) ->
    (it_available it = 0 <-> holders (it_id it) st <> []).

(** The core operations, each executed alone. *)
Inductive Operation : Type :=
| Reserve (request : CreateBorrowRequest) (amb : Ambient)
| GiveBack (request : ReturnRequest) (now_ms : Z)
| Sweep (now_ms : Z).

Definition apply_op (op : Operation) (st : State) : State :=
  match op with
  | Reserve request amb => snd (run (createBorrow request amb) st)
  | GiveBack request now => snd (run (returnItem request now) st)
  | Sweep now => snd (run (getOverdueBorrows now) st)
  end.

Inductive reachable (st0 : State) : State -> Prop :=
| reachable_init : reachable st0 st0
| reachable_step (st : State) (op : Operation) :
    reachable st0 st -> reachable st0 (apply_op op st).

(** Trust scores stay within [0, 200]. *)
Definition trust_in_range (st : State) : Prop :=
  Forall (fun u => 0 <= u_trust_score u <= 200) (users st).

(** ** The eligibility checks *)

Inductive Reason : Type :=
| LimitExceeded
| RiskTierNotPermitted
| InsufficientLevel
| SubscriptionExpiredReason.

Inductive Decision : Type :=
| Allowed
| Denied (r : Reason).

(** The outcome of each single check on a request. *)
Record Checks : Type := mkChecks {
  limit_exceeded : bool;
  risk_not_permitted : bool;
  insufficient_level : bool;
  subscription_expired : bool
}.

Fixpoint first_failing (l : list (bool * Reason)) : Decision :=
  match l with
  | [] => Allowed
  | (fails, r) :: l' => if fails then Denied r else first_failing l'
  end.

(** The order of section 4.2 of the specification: limit, risk tier,
    level, expiry. *)
Definition canReserve_spec_order (c : Checks) : Decision :=
  first_failing
    [(limit_exceeded c, LimitExceeded);
     (risk_not_permitted c, RiskTierNotPermitted);
     (insufficient_level c, InsufficientLevel);
     (subscription_expired c, SubscriptionExpiredReason)].

(** The order of the handler: level (createBorrow), then expiry, limit
    and risk tier (canUserBorrowItem). *)
Definition canReserve_code_order (c : Checks) : Decision :=
  first_failing
    [(insufficient_level c, InsufficientLevel);
     (subscription_expired c, SubscriptionExpiredReason);
     (limit_exceeded c, LimitExceeded);
     (risk_not_permitted c, RiskTierNotPermitted)].

Definition plan_max_items (subscription : option Subscription) : Z :=
  match subscription with Some s => sub_max_items s | None => 1 end.

Definition plan_max_risk (subscription : option Subscription) : string :=
  match subscription with
  | Some s => sub_max_risk_level s
  | None => "low"%string
  end.

(** The four checks as the store and the clock decide them for user
    [uid] (row [u]) and item [item]. *)
Definition checks_of (st : State) (amb : Ambient) (uid : Z) (u : User)
    (item : Item) : Checks :=
  let subscription := first (subscription_rows uid st) in
  mkChecks
    (Z.of_nat (List.length (activeBorrows uid st)) >=? plan_max_items subscription)
    (indexOf riskLevels (it_risk_level item) >?
     indexOf riskLevels (plan_max_risk subscription))
    (u_level u <? it_min_level_required item)
    (isExpired subscription (sub_now_ms amb)).

Definition reason_of_message (m : Message) : option Reason :=
  match m with
  | ItemRequiresLevel _ _ => Some InsufficientLevel
  | SubscriptionExpired => Some SubscriptionExpiredReason
  | MaximumItems _ => Some LimitExceeded
  | RiskNotAllowed _ _ => Some RiskTierNotPermitted
  | _ => None
  end.

(** The eligibility decision a response of [createBorrow] carries: a 201
    is [Allowed], a 403 with an eligibility message is [Denied]. *)
Definition decision_of (r : Response Created) : option Decision :=
  match r with
  | json _ _ => Some Allowed
  | error m _ =>
      match reason_of_message m with
      | Some reason => Some (Denied reason)
      | None => None
      end
  | thrown _ => None
  end.

(** A request that reaches the eligibility checks and can be stored:
    authenticated, well-formed, with a duration that passes the range
    check and gives a finite due time, for an existing and available
    item. *)
Definition reaches_eligibility (st : State) (request : CreateBorrowRequest)
    (amb : Ambient) (uid iid : Z) (u : User) (item : Item) : Prop :=
  truthy (userId request) = Some uid /\
  (exists body,
     create_body request = parsed body /\
     truthy (item_id body) = Some iid /\
     out_of_range (days_of body) = false /\
     bound (due_of amb (days_of body)) <> None) /\
  first (item_rows iid st) = Some item /\
  fst (run (isItemAvailable iid) st) = true /\
  first (user_rows uid st) = Some u.

(** The claim of section 4.2 about the handler. *)
Definition spec_order_claim : Prop :=
  forall st request amb uid iid u item,
    reaches_eligibility st request amb uid iid u item ->
    decision_of (fst (run (createBorrow request amb) st)) =
    Some (canReserve_spec_order (checks_of st amb uid u item)).

(** The verdict of [canUserBorrowItem] as a function of the store. *)
Definition subscription_verdict (st : State) (now_ms uid : Z)
    (itemRiskLevel : string) : bool * option Message :=
  let subscription := first (subscription_rows uid st) in
  if isExpired subscription now_ms then (false, Some SubscriptionExpired)
  else if Z.of_nat (List.length (activeBorrows uid st)) >=?
          plan_max_items subscription
  then (false, Some (MaximumItems (plan_max_items subscription)))
  else if indexOf riskLevels itemRiskLevel >?
          indexOf riskLevels (plan_max_risk subscription)
  then (false,
        Some (RiskNotAllowed (plan_max_risk subscription) itemRiskLevel))
  else (true, None).

(** The store after a successful [createBorrow]: the inserted row, the
    cleared flag and the dropped cache entry. *)
Definition reserved_state (uid iid : Z) (dueAt : Q) (qrCode : string)
    (db_now : Z) (st : State) : State :=
  kv_delete iid
    (mark_item iid 0 (snd (insert_borrow uid iid (Some dueAt) qrCode db_now st))).

Definition condition_of (body : ReturnBody) : string :=
  match condition body with Some c => c | None => "good"%string end.

(** The store after a successful [returnItem] of [borrow]. *)
Definition returned_state (bid now_ms : Z) (body : ReturnBody)
    (borrow : BorrowRecord) (st : State) : State :=
  (if String.eqb (condition_of body) "damaged"
   then trust_damaged (br_user_id borrow)
   else trust_good (br_user_id borrow))
    (kv_delete (br_item_id borrow)
       (mark_item (br_item_id borrow) 1
          (mark_returned bid (now_ms / 1000)
             (notes_or_null (condition_notes body)) st))).

(** ** Sample data: two users on the implicit BASIC plan and three of the
    seeded items *)

Definition alice : User := mkUser 1 1 100.
Definition bob : User := mkUser 2 1 100.

Definition lego : Item := mkItem 1 "LEGO Mindstorms EV3" "low" 1 1.
Definition esp32 : Item := mkItem 2 "ESP32 DevKit V1" "low" 1 1.
Definition drone : Item := mkItem 5 "DJI Mini 3" "high" 4 1.

Definition seeded : State := mkState [alice; bob] [lego; esp32; drone] [] [] [].

Definition reserve_request (uid iid days : Z) : CreateBorrowRequest :=
  mkCreateBorrowRequest (Some uid)
    (parsed (mkCreateBorrowBody (Some iid) (Some (whole days)))).

(** All clocks read the same instant [t] (in milliseconds). *)
Definition at_ms (t : Z) : Ambient :=
  mkAmbient t t (t / 1000) "3f2a9c1e-77aa-4b1c-9d2e-000000000000".

(** Alice holds the LEGO kit, reserved at second 1000 for 7 days. *)
Definition lego_held : State :=
  Eval vm_compute in snd (run (createBorrow (reserve_request 1 1 7) (at_ms 1000000)) seeded).

(** What the sweep at second [now] does to one row, in the words of its
    [WHERE] clause. *)
Definition sweep_transition (now : Z) (b b' : BorrowRecord) : Prop :=
  (br_status b = active /\ (br_due_at b < inject_Z now)%Q ->
   b' = set_status b overdue) /\
  (br_status b <> active \/ (inject_Z now <= br_due_at b)%Q -> b' = b).

Definition return_request (bid : Z) (cond : string) : ReturnRequest :=
  mkReturnRequest (Some (row_id bid)) (parsed (mkReturnBody None (Some cond))).

(** Alice holds the LEGO kit with a trust score of 199, resp. 5. *)
Definition almost_excellent : State := set_users lego_held [mkUser 1 1 199; bob].
Definition almost_untrusted : State := set_users lego_held [mkUser 1 1 5; bob].

(** The sweep runs at second 700000, after the LEGO kit fell due. *)
Definition lego_overdue : State :=
  Eval vm_compute in snd (run (getOverdueBorrows 700000000) lego_held).

(** Alice's reservation of the LEGO kit is 'overdue' and the kit's flag
    has been set again: [UPDATE items SET available = 1 WHERE id = 1],
    the statement an administrator's [updateItem] with
    [{ available: 1 }] runs. *)
Definition overdue_but_flagged : State :=
  Eval vm_compute in mark_item 1 1 lego_overdue.

(** The rows a sweep at second [now'] finds after a sweep at second
    [now]: 'active' with [now <= due_at < now']. *)
Definition fell_due_between (now now' : Z) (b : BorrowRecord) : bool :=
  Status_eqb (br_status b) active &&
  (negb (Qltb (br_due_at b) (inject_Z now)) &&
   Qltb (br_due_at b) (inject_Z now')).

(** The handler's clock reads second 1000 (millisecond 1000999) and the
    database's [unixepoch()] at the insert reads second 1001. *)
Definition across_a_second : Ambient :=
  mkAmbient 1000999 1000999 1001 "3f2a9c1e-77aa-4b1c-9d2e-000000000000".

(** Alice, at level 1 and with the LEGO kit already hers (the BASIC limit
    of one item is reached), and the level-4 drone. *)
Definition spec_order_request : CreateBorrowRequest := reserve_request 1 5 7.

(** ** Two concurrent reserves of the LEGO kit *)

Definition racing_pool : list (Task (Response Created)) :=
  [createBorrow (reserve_request 1 1 7) (at_ms 1000000);
   createBorrow (reserve_request 2 1 7) (at_ms 1000000)].

(** Alice's request completes before Bob's starts. *)
Definition serial_schedule : list nat :=
  [0; 0; 0; 0; 0; 0; 0; 0; 0; 1; 1; 1]%nat.

(** Both requests pass the availability check (three statements each:
    the item row, the flag, the 'active' row) before either inserts. *)
Definition racing_schedule : list nat :=
  [0; 0; 0; 1; 1; 1; 0; 0; 0; 0; 0; 0; 1; 1; 1; 1; 1; 1]%nat.

Definition responses {A : Type} (pool : list (Task A)) : list (option A) :=
  map finished pool.

Definition created_status (r : option (Response Created)) : option Z :=
  option_map status_code r.

(** * The handlers around the engine *)

From Stdlib Require Import Sorted.

(** A response whose error text is the string of the source; [raised e]
    is a handler that throws [e], answered by [fetch] with a 500. *)
Inductive Reply (A : Type) : Type :=
| ok (data : A) (status : Z)
| fail (message : string) (status : Z)
| raised (e : Exception).

Arguments ok {A} data status.
Arguments fail {A} message status.
Arguments raised {A} e.

Definition reply_status {A : Type} (r : Reply A) : Z :=
  match r with
  | ok _ s => s
  | fail _ s => s
  | raised _ => 500
  end.

(** ** routes/borrows.ts: confirmHandover *)

(** [SELECT id, status FROM borrow_records WHERE qr_code = ?]. *)
Definition rows_of_code (code : string) (st : State) : list BorrowRecord :=
  filter (fun b => String.eqb (br_qr_code b) code) (borrow_records st).

(** The body [{ qr_code?: string }]: [None] is a missing or non-string
    [qr_code].  On success the answer carries [borrow_id]. *)
Definition confirmHandover (body : Body (option string)) : Task (Reply Z) :=
  match body with
  | malformed => Return (fail "Invalid JSON body" 400)
  | json_null => Return (raised TypeError)
  | parsed qr_code =>
  match qr_code with
  | None | Some EmptyString => Return (fail "qr_code is required" 400)
  | Some code =>
      borrow <- query (fun st => first (rows_of_code code st)) ;;
      match borrow with
      | None => Return (fail "Invalid QR code" 404)
      | Some borrow =>
          if negb (Status_eqb (br_status borrow) active) then
            Return (fail "Borrow is not active" 400)
          else
            (* QR code is valid - handover confirmed *)
            Return (ok (br_id borrow) 200)
      end
  end
  end.

(** ** services/availability.ts: batch check and cache *)

(** A JavaScript [Map<number, boolean>]: [set] overwrites in place or
    appends. *)
Fixpoint map_set (k : Z) (v : bool) (m : list (Z * bool)) : list (Z * bool) :=
  match m with
  | [] => [(k, v)]
  | (k', v') :: m' =>
      if k' =? k then (k, v) :: m' else (k', v') :: map_set k v m'
  end.

Fixpoint map_get (k : Z) (m : list (Z * bool)) : option bool :=
  match m with
  | [] => None
  | (k', v') :: m' => if k' =? k then Some v' else map_get k m'
  end.

Definition map_has (k : Z) (m : list (Z * bool)) : bool :=
  match map_get k m with Some _ => true | None => false end.

Definition includes (x : Z) (l : list Z) : bool := existsb (Z.eqb x) l.

Definition getItemsAvailability (itemIds : list Z) : Task (list (Z * bool)) :=
  match itemIds with
  | [] => Return []
  | _ :: _ =>
      (* Get all items availability status *)
      rows <- query (fun st =>
                filter (fun it => includes (it_id it) itemIds) (items st)) ;;
      (* Get active borrows for these items *)
      borrows <- query (fun st =>
                   filter (fun b => includes (br_item_id b) itemIds &&
                                    Status_eqb (br_status b) active)
                     (borrow_records st)) ;;
      let borrowedItemIds := map br_item_id borrows in
      let availability :=
        fold_left
          (fun acc it =>
             map_set (it_id it)
               ((it_available it =? 1) &&
                negb (includes (it_id it) borrowedItemIds)) acc)
          rows [] in
      (* Mark missing items as unavailable *)
      Return
        (fold_left
           (fun acc i => if map_has i acc then acc else map_set i false acc)
           itemIds availability)
  end.

Definition updateItemAvailability (itemId : Z) (available : bool) : Task unit :=
  _ <- exec (mark_item itemId (if available then 1 else 0)) ;;
  exec (kv_delete itemId).

(** [env.KV.get] and [env.KV.put] on the key [item_availability:<itemId>];
    the stored text is [String(available)]. *)
Definition kv_get (itemId : Z) (st : State) : option bool :=
  option_map snd (first (filter (fun e => fst e =? itemId) (kv st))).

Definition kv_put (itemId : Z) (v : bool) (st : State) : State :=
  set_kv st ((itemId, v) :: filter (fun e => negb (fst e =? itemId)) (kv st)).

Definition getCachedAvailability (itemId : Z) : Task bool :=
  cached <- query (kv_get itemId) ;;
  match cached with
  | Some v => Return v
  | None =>
      (* Cache miss - compute and cache *)
      available <- isItemAvailable itemId ;;
      _ <- exec (kv_put itemId available) ;;
      Return available
  end.

(** Every cached entry is the answer [isItemAvailable] gives now. *)
Definition cache_coherent (st : State) : Prop :=
  forall iid v, kv_get iid st = Some v ->
    fst (run (isItemAvailable iid) st) = v.

(** ** routes/subscriptions.ts: plans and subscription rows

    The columns [monthly_fee], [payment_id], [started_at] and the row id
    of [subscriptions], and [users.membership_tier], are read by no
    modelled query and are not part of the store. *)

Record Plan : Type := mkPlan {
  pl_max_items : Z;
  pl_max_risk_level : string;
  pl_monthly_fee : Z
}.

Definition PLANS (plan : string) : option Plan :=
  if String.eqb plan "BASIC" then Some (mkPlan 1 "low" 0)
  else if String.eqb plan "MAKER" then Some (mkPlan 3 "medium" 1500)
  else if String.eqb plan "INNOVATOR" then Some (mkPlan 10 "high" 5000)
  else None.

(** The body [{ user_id?: number; plan?: string; payment_id?: string }]. *)
Record SubscriptionBody : Type := mkSubscriptionBody {
  body_user_id : option Z;
  body_plan : option string
}.

(** [UPDATE subscriptions SET plan = ?, max_items = ?, max_risk_level = ?,
    ..., expires_at = ? WHERE user_id = ?]. *)
Definition update_subscription (uid : Z) (plan : string) (p : Plan)
    (expiresAt : option Z) (st : State) : State :=
  mkState (users st) (items st)
    (update_where (fun s => sub_user_id s =? uid)
       (fun s => mkSubscription (sub_user_id s) plan (pl_max_items p)
                   (pl_max_risk_level p) expiresAt)
       (subscriptions st))
    (borrow_records st) (kv st).

(** [INSERT INTO subscriptions (user_id, plan, max_items, max_risk_level,
    ..., expires_at, ...)]. *)
Definition insert_subscription (uid : Z) (plan : string) (p : Plan)
    (expiresAt : option Z) (st : State) : State :=
  mkState (users st) (items st)
    (subscriptions st ++
     [mkSubscription uid plan (pl_max_items p) (pl_max_risk_level p)
        expiresAt])
    (borrow_records st) (kv st).

(** [UPDATE users SET membership_tier = ? WHERE id = ?]: a statement of
    its own, on a column outside the store. *)
Definition set_membership_tier (id : IdText) (plan : string) (st : State)
    : State :=
  st.

Definition thirty_days : Z := 30 * 24 * 60 * 60.

(** On success the answer carries the plan and the status 200 (updated)
    or 201 (created). *)
Definition createSubscription (body : Body SubscriptionBody) (now_ms : Z)
    : Task (Reply string) :=
  match body with
  | malformed => Return (fail "Invalid JSON body" 400)
  | json_null => Return (raised TypeError)
  | parsed body =>
  match truthy (body_user_id body) with
  | None => Return (fail "user_id is required" 400)
  | Some user_id =>
  match body_plan body with
  | None => Return (fail "plan must be BASIC, MAKER, or INNOVATOR" 400)
  | Some plan =>
  match PLANS plan with
  | None => Return (fail "plan must be BASIC, MAKER, or INNOVATOR" 400)
  | Some planDetails =>
      (* Verify user exists *)
      user <- query (fun st => first (user_rows user_id st)) ;;
      match user with
      | None => Return (fail "User not found" 404)
      | Some _ =>
          let now := now_ms / 1000 in
          let expiresAt :=
            if String.eqb plan "BASIC" then None
            else Some (now + thirty_days) in
          (* Check if subscription exists *)
          existing <- query (fun st => first (subscription_rows user_id st)) ;;
          match existing with
          | Some _ =>
              _ <- exec (update_subscription user_id plan planDetails expiresAt) ;;
              Return (ok plan 200)
          | None =>
              _ <- exec (insert_subscription user_id plan planDetails expiresAt) ;;
              _ <- exec (set_membership_tier (row_id user_id) plan) ;;
              Return (ok plan 201)
          end
      end
  end
  end
  end
  end.

(** [WHERE user_id = ?] with the text of [request.params.userId] bound
    (see [IdText]). *)
Definition subscription_rows_by (id : IdText) (st : State)
    : list Subscription :=
  match id with
  | row_id uid => subscription_rows uid st
  | no_row_id => []
  end.

Definition update_subscription_by (id : IdText) (plan : string) (p : Plan)
    (expiresAt : option Z) (st : State) : State :=
  match id with
  | row_id uid => update_subscription uid plan p expiresAt st
  | no_row_id => st
  end.

(** Cancel subscription (revert to BASIC).  [userId] is [None] when the
    text is missing, empty or not a number for [Number]. *)
Definition cancelSubscription (userId : option IdText) : Task (Reply unit) :=
  match userId with
  | None => Return (fail "Invalid user ID" 400)
  | Some id =>
      subscription <- query (fun st => first (subscription_rows_by id st)) ;;
      match subscription with
      | None => Return (fail "No subscription found" 404)
      | Some _ =>
          _ <- exec (update_subscription_by id "BASIC" (mkPlan 1 "low" 0) None) ;;
          _ <- exec (set_membership_tier id "BASIC") ;;
          Return (ok tt 200)
      end
  end.

(** What [getSubscription] reports of a user's plan. *)
Record SubscriptionInfo : Type := mkSubscriptionInfo {
  info_plan : string;
  info_max_items : Z;
  info_max_risk_level : string;
  info_active : bool
}.

Definition getSubscription (userId : option IdText) (now_ms : Z)
    : Task (Reply SubscriptionInfo) :=
  match userId with
  | None => Return (fail "Invalid user ID" 400)
  | Some id =>
      subscription <- query (fun st => first (subscription_rows_by id st)) ;;
      match subscription with
      | None =>
          (* Return default BASIC subscription info *)
          Return (ok (mkSubscriptionInfo "BASIC" 1 "low" true) 200)
      | Some s =>
          (* [!expires_at || expires_at > Date.now() / 1000] *)
          let isActive :=
            match sub_expires_at s with
            | None => true
            | Some e => (e =? 0) || (now_ms <? e * 1000)
            end in
          Return (ok (mkSubscriptionInfo (sub_plan s) (sub_max_items s)
                        (sub_max_risk_level s) isActive) 200)
      end
  end.

(** ** routes/borrows.ts: the answer of getOverdueBorrows *)

(** [ORDER BY br.due_at ASC]. *)
Definition due_le (x y : BorrowRecord * string) : Prop :=
  (br_due_at (fst x) <= br_due_at (fst y))%Q.

(** The LEGO kit is held and the cache holds an entry for the ESP32 kit. *)
Definition lego_held_cached : State := set_kv lego_held [(2, true)].

(** The [UNIQUE] constraint on [subscriptions.user_id]. *)
Definition one_subscription_per_user (st : State) : Prop :=
  forall uid, (List.length (subscription_rows uid st) <= 1)%nat.

(** [expires_at] of a subscription made at [now_ms]. *)
Definition expiry_of (plan : string) (now_ms : Z) : option Z :=
  if String.eqb plan "BASIC" then None else Some (now_ms / 1000 + thirty_days).

(** Alice subscribes to MAKER at second 1000. *)
Definition alice_maker : State :=
  Eval vm_compute in
    snd (run (createSubscription
                (parsed (mkSubscriptionBody (Some 1) (Some "MAKER"%string)))
                1000000) seeded).

(** ** services/progression.ts: levels, trust bands, reward points *)

(** [LEVEL_REQUIREMENTS[level]]; [None] is [undefined]. *)
Definition LEVEL_REQUIREMENTS (level : Z) : option Z :=
  if level =? 1 then Some 0
  else if level =? 2 then Some 100
  else if level =? 3 then Some 300
  else if level =? 4 then Some 700
  else if level =? 5 then Some 1500
  else None.

(** [xp >= LEVEL_REQUIREMENTS[level]]; a comparison with [undefined] is
    false. *)
Definition reaches (xp level : Z) : bool :=
  match LEVEL_REQUIREMENTS level with
  | Some r => xp >=? r
  | None => false
  end.

Definition calculateLevel (xp : Z) : Z :=
  if reaches xp 5 then 5
  else if reaches xp 4 then 4
  else if reaches xp 3 then 3
  else if reaches xp 2 then 2
  else 1.

Definition getXPForNextLevel (currentLevel : Z) : option Z :=
  if currentLevel >=? 5 then Some 0 (* Max level *)
  else LEVEL_REQUIREMENTS (currentLevel + 1).

Record Band : Type := mkBand {
  band_min : Z;
  band_max : Z;
  band_label : string
}.

Definition TRUST_LEVELS : list (string * Band) :=
  [("UNTRUSTED", mkBand 0 49 "Untrusted");
   ("LOW", mkBand 50 79 "Low Trust");
   ("NORMAL", mkBand 80 119 "Normal");
   ("HIGH", mkBand 120 159 "High Trust");
   ("EXCELLENT", mkBand 160 200 "Excellent")]%string.

(** [TRUST_LEVELS.<name>.min]. *)
Fixpoint min_of (name : string) (bands : list (string * Band)) : Z :=
  match bands with
  | [] => 0
  | (n, b) :: bands' =>
      if String.eqb n name then band_min b else min_of name bands'
  end.

(** [a >= b]: false as soon as one side is NaN. *)
Definition js_geb (a b : JsNumber) : bool :=
  match extended a, extended b with
  | Finite x, Finite y => negb (Qltb x y)
  | PlusInfinity, Finite _ => true
  | PlusInfinity, MinusInfinity => true
  | Finite _, MinusInfinity => true
  | PlusInfinity, PlusInfinity => true
  | MinusInfinity, MinusInfinity => true
  | _, _ => false
  end.

(** [score: number] is any number, whole or not. *)
Definition getTrustLevel (score : JsNumber) : string :=
  if js_geb score (whole (min_of "EXCELLENT" TRUST_LEVELS)) then "EXCELLENT"
  else if js_geb score (whole (min_of "HIGH" TRUST_LEVELS)) then "HIGH"
  else if js_geb score (whole (min_of "NORMAL" TRUST_LEVELS)) then "NORMAL"
  else if js_geb score (whole (min_of "LOW" TRUST_LEVELS)) then "LOW"
  else "UNTRUSTED".

(** [band.min <= score && score <= band.max]: the range a band of the
    table declares. *)
Definition in_band (score : JsNumber) (band : Band) : bool :=
  js_geb score (whole (band_min band)) && js_geb (whole (band_max band)) score.

(** [lo < q < hi]. *)
Definition between (lo hi : Z) (q : Q) : Prop :=
  (inject_Z lo < q)%Q /\ (q < inject_Z hi)%Q.

(** The numbers no band of [TRUST_LEVELS] contains: NaN, the infinities,
    the numbers below 0 or above 200, and those strictly between the
    [max] of one band and the [min] of the next. *)
Definition uncovered (score : JsNumber) : Prop :=
  match extended score with
  | Finite q =>
      (q < inject_Z 0)%Q \/ (inject_Z 200 < q)%Q \/
      between 49 50 q \/ between 79 80 q \/
      between 119 120 q \/ between 159 160 q
  | _ => True
  end.

(** The double [n / 2]. *)
Definition half_of (n : Z) : JsNumber :=
  double (SFdiv prec emax (to_double (whole n)) (to_double (whole 2))).

(** The keys of [XP_REWARDS]. *)
Inductive Action : Type :=
| BORROW_COMPLETE
| RETURN_ON_TIME
| RETURN_EARLY
| RETURN_LATE
| COMMUNITY_POST
| POST_APPROVED
| FIRST_BORROW.

Definition XP_REWARDS (action : Action) : Z :=
  match action with
  | BORROW_COMPLETE => 10
  | RETURN_ON_TIME => 15
  | RETURN_EARLY => 20
  | RETURN_LATE => -5
  | COMMUNITY_POST => 25
  | POST_APPROVED => 50
  | FIRST_BORROW => 50
  end.

(** The property names every object inherits from [Object.prototype]. *)
Definition Object_prototype : list string :=
  ["constructor"; "hasOwnProperty"; "isPrototypeOf"; "propertyIsEnumerable";
   "toLocaleString"; "toString"; "valueOf"; "__defineGetter__";
   "__defineSetter__"; "__lookupGetter__"; "__lookupSetter__";
   "__proto__"]%string.

(** What a lookup in [REWARD_MULTIPLIERS] gives: a multiplier, counted in
    halves (1.0, 1.5 and 2.0 are 2, 3 and 4), or a member the object
    inherits, which is a function or an object and no number. *)
Inductive Multiplier : Type :=
| multiplier (halves : Z)
| inherited_member (name : string).

(** [REWARD_MULTIPLIERS[plan]]; [None] is [undefined]. *)
Definition REWARD_MULTIPLIERS (plan : string) : option Multiplier :=
  if String.eqb plan "BASIC" then Some (multiplier 2)
  else if String.eqb plan "MAKER" then Some (multiplier 3)
  else if String.eqb plan "INNOVATOR" then Some (multiplier 4)
  else if existsb (String.eqb plan) Object_prototype
  then Some (inherited_member plan)
  else None.

(** The columns of [users] the progression engine reads and writes. *)
Record Member : Type := mkMember {
  m_id : Z;
  m_level : Z;
  m_reward_points : Z
}.

Definition member_rows (uid : Z) (members : list Member) : list Member :=
  filter (fun m => m_id m =? uid) members.

(** Returns [{ leveled, newLevel }] and the table after its [UPDATE]. *)
Definition checkLevelUp (uid : Z) (members : list Member)
    : (bool * Z) * list Member :=
  match first (member_rows uid members) with
  | None => ((false, 0), members)
  | Some user =>
      (* Reward points are used as XP for level calculation *)
      let newLevel := calculateLevel (m_reward_points user) in
      if newLevel >? m_level user then
        ((true, newLevel),
         update_where (fun m => m_id m =? uid)
           (fun m => mkMember (m_id m) newLevel (m_reward_points m)) members)
      else ((false, m_level user), members)
  end.

(** The answer [{ points, totalPoints, leveledUp, newLevel }]. *)
Record Award : Type := mkAward {
  points : Z;
  totalPoints : Z;
  leveledUp : bool;
  newLevel : Z
}.

(** [Math.floor(basePoints * multiplier)] for a multiplier of
    [halves / 2]. *)
Definition awardPoints (uid : Z) (action : Action) (halves : Z)
    (members : list Member) : Award * list Member :=
  let basePoints := XP_REWARDS action in
  let pts := (basePoints * halves) / 2 in
  (* Update user points *)
  let members1 :=
    update_where (fun m => m_id m =? uid)
      (fun m => mkMember (m_id m) (m_level m) (m_reward_points m + pts))
      members in
  (* Get new total *)
  let total :=
    match first (member_rows uid members1) with
    | Some user => m_reward_points user
    | None => 0
    end in
  (* Check for level up *)
  let '((leveled, level'), members2) := checkLevelUp uid members1 in
  (mkAward pts total leveled level', members2).

(** The plan text [getRewardMultiplier] looks up:
    [subscription?.plan ?? 'BASIC']. *)
Definition plan_of (uid : Z) (subs : list Subscription) : string :=
  match first (filter (fun s => sub_user_id s =? uid) subs) with
  | Some s => sub_plan s
  | None => "BASIC"
  end.

(** [REWARD_MULTIPLIERS[plan] ?? 1.0]: only [undefined] takes the
    default. *)
Definition getRewardMultiplier (uid : Z) (subs : list Subscription)
    : Multiplier :=
  match REWARD_MULTIPLIERS (plan_of uid subs) with
  | Some m => m
  | None => multiplier 2
  end.

(** Two members: a level-2 user close to the level-3 requirement and a
    level-4 user whose points fell below the level-4 requirement. *)
Definition sample_members : list Member :=
  [mkMember 1 2 290; mkMember 2 4 702].

(** ** middleware/security.ts: the sliding-window rate limit *)

Record Limit : Type := mkLimit {
  limit_requests : Z;
  limit_window : Z
}.

Definition RATE_LIMITS_DEFAULT : Limit := mkLimit 60 60.
Definition RATE_LIMITS_AUTH : Limit := mkLimit 5 60.
Definition RATE_LIMITS_UPLOAD : Limit := mkLimit 10 300.

(** The KV entries [ratelimit:<key>]: the JSON array of the seconds at
    which requests were let through.  An entry expires [window] seconds
    after it was last written, when every second it holds has left the
    window; expiry is therefore not observable and not modelled. *)
Definition RateStore : Type := list (string * list Z).

Definition rate_get (key : string) (store : RateStore) : option (list Z) :=
  option_map snd (first (filter (fun e => String.eqb (fst e) key) store)).

Definition rate_put (key : string) (v : list Z) (store : RateStore) : RateStore :=
  (key, v) :: filter (fun e => negb (String.eqb (fst e) key)) store.

(** [Math.min(...requests)]; [None] is [Infinity]. *)
Fixpoint minimum (l : list Z) : option Z :=
  match l with
  | [] => None
  | x :: l' =>
      match minimum l' with
      | None => Some x
      | Some m => Some (Z.min x m)
      end
  end.

Record RateResult : Type := mkRateResult {
  rl_allowed : bool;
  rl_remaining : Z;
  rl_resetAt : option Z
}.

Definition checkRateLimit (key : string) (limit : Limit) (now_ms : Z)
    (store : RateStore) : RateResult * RateStore :=
  let now := now_ms / 1000 in
  let windowStart := now - limit_window limit in
  let data := rate_get key store in
  let requests := match data with Some l => l | None => [] end in
  (* Filter to current window *)
  let requests := filter (fun t => t >? windowStart) requests in
  if Z.of_nat (List.length requests) >=? limit_requests limit then
    (mkRateResult false 0
       (option_map (fun oldestRequest => oldestRequest + limit_window limit)
          (minimum requests)),
     store)
  else
    (* Add current request *)
    let requests := requests ++ [now] in
    (mkRateResult true
       (limit_requests limit - Z.of_nat (List.length requests))
       (Some (windowStart + limit_window limit)),
     rate_put key requests store).

(** Requests of one key arriving at the clock readings [times]: the
    seconds of those let through, and the store at the end. *)
Fixpoint serve (key : string) (limit : Limit) (times : list Z)
    (store : RateStore) : list Z * RateStore :=
  match times with
  | [] => ([], store)
  | now_ms :: times' =>
      let (result, store1) := checkRateLimit key limit now_ms store in
      let (passed, store2) := serve key limit times' store1 in
      (if rl_allowed result then now_ms / 1000 :: passed else passed, store2)
  end.

(** The seconds of [l] in the window [(t - window, t]]. *)
Definition in_window (window t : Z) (l : list Z) : list Z :=
  filter (fun s => (t - window <? s) && (s <=? t)) l.

(** [data ? JSON.parse(data) : []]. *)
Definition stored (key : string) (store : RateStore) : list Z :=
  match rate_get key store with Some l => l | None => [] end.

(** ** middleware/auth.ts: sessions *)

(** The fields of a stored session the middleware reads. *)
Record Session : Type := mkSession {
  session_userId : Z;
  session_isAdmin : bool;
  session_createdAt : Z
}.

(** The KV entries [session:<token>]; [None] is a stored text that
    [JSON.parse] rejects. *)
Definition SessionStore : Type := list (string * option Session).

Definition session_get (token : string) (store : SessionStore)
    : option (option Session) :=
  option_map snd (first (filter (fun e => String.eqb (fst e) token) store)).

Definition session_delete (token : string) (store : SessionStore)
    : SessionStore :=
  filter (fun e => negb (String.eqb (fst e) token)) store.

(** The middleware either answers itself or lets the request continue
    with [request.session] and [request.userId] set. *)
Inductive AuthOutcome : Type :=
| Rejected (message : string) (status : Z)
| Continue (session : Session).

(** [authHeader.substring(7)]. *)
Definition token_of (authHeader : string) : string :=
  substring 7 (String.length authHeader - 7) authHeader.

Definition requireAuth (authHeader : option string) (now_ms : Z)
    (store : SessionStore) : AuthOutcome * SessionStore :=
  match authHeader with
  | None => (Rejected "Unauthorized - Token required" 401, store)
  | Some header =>
      if negb (prefix "Bearer " header) then
        (Rejected "Unauthorized - Token required" 401, store)
      else
        let token := token_of header in
        match session_get token store with
        | None => (Rejected "Session expired or invalid" 401, store)
        | Some None => (Rejected "Invalid session data" 401, store)
        | Some (Some session) =>
            let sessionAge := now_ms - session_createdAt session in
            let maxAge := 24 * 60 * 60 * 1000 in
            if sessionAge >? maxAge then
              (Rejected "Session expired" 401, session_delete token store)
            else (Continue session, store)
        end
  end.

(** A day-old session, one a millisecond older, and an entry whose text
    is not JSON. *)
Definition sample_sessions : SessionStore :=
  [("tok-fresh"%string, Some (mkSession 1 false 1000));
   ("tok-stale"%string, Some (mkSession 2 true 999));
   ("tok-garbled"%string, None)].

(** ** Invariants of the ledger beyond the claims *)

(** The primary key of [borrow_records]. *)
Definition borrow_ids_distinct (st : State) : Prop :=
  NoDup (map br_id (borrow_records st)).

(** The ledger is in order: one holder per item at most, flags that say
    exactly which items are held, distinct borrow ids. *)
Definition ledger_ok (st : State) : Prop :=
  at_most_one_holder st /\ flag_consistent st /\ borrow_ids_distinct st.

(** ** Numbers *)

Lemma Qltb_lt (x y : Q) : Qltb x y = true <-> (x < y)%Q.
Proof. unfold Qltb, Qlt. apply Z.ltb_lt. Qed.

Lemma Qltb_ge (x y : Q) : Qltb x y = false <-> (y <= x)%Q.
Proof. unfold Qltb, Qle. apply Z.ltb_ge. Qed.

Lemma Qltb_inject_Z (x y : Z) : Qltb (inject_Z x) (inject_Z y) = (x <? y).
Proof. unfold Qltb. simpl. rewrite !Z.mul_1_r. reflexivity. Qed.

Lemma js_ltb_whole (x y : Z) : js_ltb (whole x) (whole y) = (x <? y).
Proof. unfold js_ltb. simpl. apply Qltb_inject_Z. Qed.

(** The range check on a whole number of days. *)
Lemma out_of_range_whole (d : Z) :
  out_of_range (whole d) = false <-> 1 <= d <= 30.
Proof.
  unfold out_of_range, js_gtb. rewrite !js_ltb_whole, orb_false_iff.
  rewrite !Z.ltb_ge. lia.
Qed.

(** The due time of a whole number of days is computed exactly and can
    be stored. *)
Lemma due_of_whole (amb : Ambient) (d : Z) :
  due_of amb (whole d) = whole (now_ms amb / 1000 + d * 86400) /\
  bound (due_of amb (whole d)) = Some (inject_Z (now_ms amb / 1000 + d * 86400)).
Proof.
  unfold due_of, bound. simpl.
  replace (d * 24 * 60 * 60) with (d * 86400) by lia. split; reflexivity.
Qed.

(** ** Running a task alone *)

Lemma run_bind {A B : Type} (m : Task A) (f : A -> Task B) (st : State) :
  run (bind m f) st = let (a, st1) := run m st in run (f a) st1.
Proof.
  revert st.
  induction m as [a | X stmt k IH]; intros st; simpl.
  - reflexivity.
  - destruct (stmt st) as [x st']. apply IH.
Qed.

Lemma run_query {X : Type} (q : State -> X) (st : State) :
  run (query q) st = (q st, st).
Proof. reflexivity. Qed.

Lemma run_exec (u : State -> State) (st : State) :
  run (exec u) st = (tt, u st).
Proof. reflexivity. Qed.

(** [isItemAvailable] reads the flag, then looks for an 'active' row; it
    writes nothing. *)
Lemma run_isItemAvailable (iid : Z) (st : State) :
  run (isItemAvailable iid) st =
  (flag_set iid st &&
   match first (borrows_of_item iid active st) with
   | None => true
   | Some _ => false
   end, st).
Proof.
  unfold isItemAvailable, flag_set.
  rewrite run_bind, run_query.
  destruct (first (item_rows iid st)) as [it |]; [| reflexivity].
  destruct (it_available it =? 0); [reflexivity |].
  rewrite run_bind, run_query. reflexivity.
Qed.

Lemma run_canUserBorrowItem (now uid : Z) (risk : string) (st : State) :
  run (canUserBorrowItem now uid risk) st =
  (subscription_verdict st now uid risk, st).
Proof.
  unfold canUserBorrowItem, subscription_verdict.
  rewrite run_bind, run_query.
  fold (plan_max_items (first (subscription_rows uid st))).
  fold (plan_max_risk (first (subscription_rows uid st))).
  destruct (isExpired _ now); [reflexivity |].
  rewrite run_bind, run_query.
  destruct (_ >=? _); [reflexivity |].
  destruct (_ >? _); reflexivity.
Qed.

(** The messages are rendered as the handler's template strings. *)
Example render_messages :
  render (ItemRequiresLevel 4 1) = "Item requires level 4, you have level 1"%string /\
  render (MaximumItems 1) = "Maximum 1 items allowed for your plan"%string /\
  render (RiskNotAllowed "low" "high") =
    "Your plan (low) doesn't allow high-risk items"%string.
Proof. repeat split. Qed.

Lemma failure_status {A : Type} (r : Response A) :
  failure r -> 400 <= status_code r.
Proof. destruct r; simpl; [contradiction | auto | lia]. Qed.

(** Every run of [createBorrow] either fails and leaves the store as it
    was, or passed every check and wrote the three effects of a
    reservation. *)
Lemma run_createBorrow_cases (request : CreateBorrowRequest) (amb : Ambient)
    (st : State) :
  (exists r,
     run (createBorrow request amb) st = (r, st) /\ failure r) \/
  (exists uid iid body item u due,
     truthy (userId request) = Some uid /\
     create_body request = parsed body /\
     truthy (item_id body) = Some iid /\
     out_of_range (days_of body) = false /\
     bound (due_of amb (days_of body)) = Some due /\
     first (item_rows iid st) = Some item /\
     flag_set iid st = true /\
     first (borrows_of_item iid active st) = None /\
     first (user_rows uid st) = Some u /\
     it_min_level_required item <= u_level u /\
     fst (subscription_verdict st (sub_now_ms amb) uid (it_risk_level item)) = true /\
     run (createBorrow request amb) st =
     (json (mkCreated (next_id (map br_id (borrow_records st))) (qr_of amb)
              (due_of amb (days_of body)) (it_name item)) 201,
      reserved_state uid iid due (qr_of amb) (db_unixepoch amb) st)).
Proof.
  unfold createBorrow.
  destruct (truthy (userId request)) as [uid |] eqn:Huid;
    [| left; eexists; split; [reflexivity | simpl; lia]].
  destruct (create_body request) as [| | body] eqn:Hbody;
    [left; eexists; split; [reflexivity | simpl; lia]
    |left; eexists; split; [reflexivity | exact I] |].
  fold (days_of body).
  destruct (truthy (item_id body)) as [iid |] eqn:Hiid;
    [| left; eexists; split; [reflexivity | simpl; lia]].
  fold (out_of_range (days_of body)).
  destruct (out_of_range (days_of body)) eqn:Hdays;
    [left; eexists; split; [reflexivity | simpl; lia] |].
  rewrite run_bind, run_query.
  destruct (first (item_rows iid st)) as [item |] eqn:Hitem;
    [| left; eexists; split; [reflexivity | simpl; lia]].
  rewrite run_bind, run_isItemAvailable.
  destruct (flag_set iid st) eqn:Hflag;
    [| left; eexists; split; [reflexivity | simpl; lia]].
  destruct (first (borrows_of_item iid active st)) as [b |] eqn:Hactive;
    [left; eexists; split; [reflexivity | simpl; lia] |].
  cbn [andb negb].
  rewrite run_bind, run_query.
  destruct (first (user_rows uid st)) as [u |] eqn:Huser;
    [| left; eexists; split; [reflexivity | simpl; lia]].
  destruct (u_level u <? it_min_level_required item) eqn:Hlevel;
    [left; eexists; split; [reflexivity | simpl; lia] |].
  rewrite run_bind, run_canUserBorrowItem.
  destruct (subscription_verdict st (sub_now_ms amb) uid (it_risk_level item))
    as [allowed reason] eqn:Hverdict.
  destruct allowed;
    [| left; eexists; split; [reflexivity | simpl; lia]].
  cbn [negb].
  fold (due_of amb (days_of body)). fold (qr_of amb).
  destruct (bound (due_of amb (days_of body))) as [due |] eqn:Hdue;
    [| left; eexists; split; [reflexivity | exact I]].
  right. exists uid, iid, body, item, u, due.
  apply Z.ltb_ge in Hlevel.
  repeat (split; [first [reflexivity | assumption | lia] |]).
  split; [rewrite Hverdict; reflexivity | reflexivity].
Qed.

(** ** Tables under [UPDATE] and [filter] *)

Section Tables.
Context {A : Type}.
Variables (p q : A -> bool) (f : A -> A).

Lemma length_update_where (rows : list A) :
  List.length (update_where q f rows) = List.length rows.
Proof. unfold update_where. apply length_map. Qed.

(** An update that never changes [p] commutes with selecting by [p]. *)
Lemma filter_update_where_stable (rows : list A) :
  (forall r, q r = true -> p (f r) = p r) ->
  filter p (update_where q f rows) = update_where q f (filter p rows).
Proof.
  intros Hstable. unfold update_where.
  induction rows as [| r rows IH]; simpl; [reflexivity |].
  destruct (q r) eqn:Hq.
  - rewrite (Hstable r Hq). destruct (p r); simpl.
    + rewrite Hq, IH. reflexivity.
    + exact IH.
  - destruct (p r); simpl.
    + rewrite Hq, IH. reflexivity.
    + exact IH.
Qed.

(** An update that falsifies [p] removes the updated rows from the
    selection. *)
Lemma filter_update_where_drop (rows : list A) :
  (forall r, q r = true -> p (f r) = false) ->
  filter p (update_where q f rows) =
  filter (fun r => negb (q r)) (filter p rows).
Proof.
  intros Hdrop. unfold update_where.
  induction rows as [| r rows IH]; simpl; [reflexivity |].
  destruct (q r) eqn:Hq.
  - rewrite (Hdrop r Hq). destruct (p r); simpl; rewrite ?Hq; exact IH.
  - destruct (p r); simpl; rewrite ?Hq; simpl; rewrite IH; reflexivity.
Qed.

Lemma filter_length_le (rows : list A) :
  (List.length (filter p rows) <= List.length rows)%nat.
Proof.
  induction rows as [| r rows IH]; simpl; [lia |].
  destruct (p r); simpl; lia.
Qed.

Lemma first_filter_Some (rows : list A) (r : A) :
  first (filter p rows) = Some r -> In r rows /\ p r = true.
Proof.
  intros H. assert (Hin : In r (filter p rows)).
  { unfold first in H. destruct (filter p rows); inversion H. now left. }
  apply filter_In in Hin. exact Hin.
Qed.

Lemma first_filter_update_where (rows : list A) :
  (forall r, p (f r) = p r) ->
  first (filter p (update_where q f rows)) =
  option_map (fun r => if q r then f r else r) (first (filter p rows)).
Proof.
  intros Hstable. unfold update_where.
  induction rows as [| r rows IH]; simpl; [reflexivity |].
  assert (Hp : p (if q r then f r else r) = p r)
    by (destruct (q r); [apply Hstable | reflexivity]).
  rewrite Hp. destruct (p r); simpl; [reflexivity | exact IH].
Qed.
End Tables.

(** ** Holders and flags under the three writes of the engine *)

Lemma holders_insert_borrow (uid iid : Z) (dueAt : Q) (qr : string)
    (db_now : Z) (st : State) (j : Z) :
  holders j (snd (insert_borrow uid iid (Some dueAt) qr db_now st)) =
  holders j st ++
  (if iid =? j
   then [mkBorrow (next_id (map br_id (borrow_records st))) uid iid db_now
           dueAt None None qr active]
   else []).
Proof.
  unfold holders, insert_borrow. simpl.
  rewrite filter_app. simpl. destruct (iid =? j); reflexivity.
Qed.

Lemma holders_mark_item (iid a : Z) (st : State) (j : Z) :
  holders j (mark_item iid a st) = holders j st.
Proof. reflexivity. Qed.

Lemma holders_kv_delete (iid : Z) (st : State) (j : Z) :
  holders j (kv_delete iid st) = holders j st.
Proof. reflexivity. Qed.

Lemma flag_set_mark_item (iid a : Z) (st : State) (j : Z) :
  flag_set j (mark_item iid a st) =
  if j =? iid
  then match first (item_rows j st) with
       | Some _ => negb (a =? 0)
       | None => false
       end
  else flag_set j st.
Proof.
  unfold flag_set, item_rows, mark_item. simpl.
  rewrite first_filter_update_where by reflexivity.
  destruct (first (filter (fun it => it_id it =? j) (items st))) as [it |] eqn:Hit;
    simpl.
  - apply first_filter_Some in Hit. destruct Hit as [_ Hid].
    apply Z.eqb_eq in Hid. subst j.
    destruct (it_id it =? iid); reflexivity.
  - destruct (j =? iid); reflexivity.
Qed.

Lemma holders_mark_returned (bid now : Z) (notes : option string)
    (st : State) (j : Z) :
  holders j (mark_returned bid now notes st) =
  filter (fun b => negb (br_id b =? bid)) (holders j st).
Proof.
  unfold holders, mark_returned. simpl.
  apply filter_update_where_drop.
  intros b _. simpl. apply andb_false_r.
Qed.

Lemma holders_mark_overdue (now : Z) (st : State) (j : Z) :
  holders j (snd (mark_overdue now st)) =
  update_where (is_due now) (fun b => set_status b overdue) (holders j st).
Proof.
  unfold holders, mark_overdue. simpl.
  apply filter_update_where_stable.
  intros b Hdue. unfold is_due in Hdue. apply andb_true_iff in Hdue.
  destruct Hdue as [Hactive _].
  unfold is_holder. simpl. destruct (br_status b); try discriminate.
  reflexivity.
Qed.

(** Every run of [returnItem] either fails and leaves the store as it
    was, or concludes a reservation that was not yet 'returned'. *)
Lemma run_returnItem_cases (request : ReturnRequest) (now : Z) (st : State) :
  (exists r, run (returnItem request now) st = (r, st) /\ failure r) \/
  (exists bid body borrow,
     params_id request = Some (row_id bid) /\
     return_body request = parsed body /\
     first (borrow_rows bid st) = Some borrow /\
     br_status borrow <> returned /\
     run (returnItem request now) st =
     (json (condition_of body) 200, returned_state bid now body borrow st)).
Proof.
  unfold returnItem.
  destruct (params_id request) as [id |] eqn:Hid;
    [| left; eexists; split; [reflexivity | simpl; lia]].
  destruct (return_body request) as [| | body] eqn:Hbody;
    [left; eexists; split; [reflexivity | simpl; lia]
    |left; eexists; split; [reflexivity | exact I] |].
  fold (condition_of body).
  rewrite run_bind, run_query.
  destruct id as [bid |]; cbn [borrow_rows_by first hd_error];
    [| left; eexists; split; [reflexivity | simpl; lia]].
  destruct (first (borrow_rows bid st)) as [borrow |] eqn:Hborrow;
    [| left; eexists; split; [reflexivity | simpl; lia]].
  destruct (Status_eqb (br_status borrow) returned) eqn:Hstatus;
    [left; eexists; split; [reflexivity | simpl; lia] |].
  right. exists bid, body, borrow.
  repeat (split; [first [reflexivity | assumption] |]).
  split.
  - intros Heq. rewrite Heq in Hstatus. discriminate.
  - unfold returned_state.
    destruct (String.eqb (condition_of body) "damaged"); reflexivity.
Qed.

Lemma run_getOverdueBorrows (now : Z) (st : State) :
  run (getOverdueBorrows now) st =
  (json (overdue_rows (snd (mark_overdue (now / 1000) st))) 200,
   snd (mark_overdue (now / 1000) st)).
Proof. reflexivity. Qed.

Lemma holders_trust_damaged (uid : Z) (st : State) (j : Z) :
  holders j (trust_damaged uid st) = holders j st.
Proof. reflexivity. Qed.

Lemma holders_trust_good (uid : Z) (st : State) (j : Z) :
  holders j (trust_good uid st) = holders j st.
Proof. reflexivity. Qed.

Lemma holders_returned_state (bid now : Z) (body : ReturnBody)
    (borrow : BorrowRecord) (st : State) (j : Z) :
  holders j (returned_state bid now body borrow st) =
  filter (fun b => negb (br_id b =? bid)) (holders j st).
Proof.
  unfold returned_state.
  destruct (String.eqb (condition_of body) "damaged");
    [rewrite holders_trust_damaged | rewrite holders_trust_good];
    rewrite holders_kv_delete, holders_mark_item;
    apply holders_mark_returned.
Qed.

Lemma flag_set_returned_state (bid now : Z) (body : ReturnBody)
    (borrow : BorrowRecord) (st : State) (j : Z) :
  j <> br_item_id borrow ->
  flag_set j (returned_state bid now body borrow st) = flag_set j st.
Proof.
  intros Hj. unfold returned_state.
  assert (Hflag : forall s, flag_set j (mark_item (br_item_id borrow) 1 s)
                            = flag_set j s).
  { intros s. rewrite flag_set_mark_item.
    destruct (Z.eqb_spec j (br_item_id borrow)); [contradiction | reflexivity]. }
  destruct (String.eqb (condition_of body) "damaged");
    (etransitivity; [| apply
       (Hflag (mark_returned bid (now / 1000)
                 (notes_or_null (condition_notes body)) st))]);
    reflexivity.
Qed.

(** A list of at most one element that contains [b] is [[b]]. *)
Lemma at_most_one_In {A : Type} (l : list A) (b : A) :
  (List.length l <= 1)%nat -> In b l -> l = [b].
Proof.
  destruct l as [| x [| y l]]; simpl; intros Hlen Hin.
  - contradiction.
  - destruct Hin as [-> | []]. reflexivity.
  - lia.
Qed.

Section Preservation.
Variable st : State.
Hypothesis Hone : at_most_one_holder st.
Hypothesis Hflag : held_items_flagged st.

Lemma flagged_item_has_no_holder (iid : Z) :
  flag_set iid st = true -> holders iid st = [].
Proof.
  intros Hset. destruct (holders iid st) as [| b l] eqn:Hh; [reflexivity |].
  assert (Hne : holders iid st <> []) by (rewrite Hh; discriminate).
  apply Hflag in Hne. congruence.
Qed.

Lemma createBorrow_preserves (request : CreateBorrowRequest) (amb : Ambient) :
  at_most_one_holder (snd (run (createBorrow request amb) st)) /\
  held_items_flagged (snd (run (createBorrow request amb) st)).
Proof.
  destruct (run_createBorrow_cases request amb st)
    as [(r & Hrun & _) |
        (uid & iid & body & item & u & due & _ & _ & _ & _ & _ & Hitem & Hset
           & _ & _ & _ & _ & Hrun)];
    rewrite Hrun; simpl; [split; assumption |].
  pose proof (flagged_item_has_no_holder iid Hset) as Hnone.
  unfold reserved_state. split.
  - intros j. rewrite holders_kv_delete, holders_mark_item,
      holders_insert_borrow, length_app.
    destruct (Z.eqb_spec iid j) as [<- | Hne]; simpl.
    + rewrite Hnone. simpl. lia.
    + specialize (Hone j). lia.
  - intros j Hj.
    rewrite holders_kv_delete, holders_mark_item, holders_insert_borrow in Hj.
    change (flag_set j (kv_delete iid ?s)) with (flag_set j s).
    rewrite flag_set_mark_item.
    destruct (Z.eqb_spec j iid) as [-> | Hne].
    + change (first (item_rows iid (snd (insert_borrow ?a ?b ?c ?d ?e st))))
        with (first (item_rows iid st)).
      rewrite Hitem. reflexivity.
    + change (flag_set j (snd (insert_borrow ?a ?b ?c ?d ?e st)))
        with (flag_set j st).
      apply Hflag.
      destruct (Z.eqb_spec iid j) as [-> | _]; [contradiction |].
      rewrite app_nil_r in Hj. exact Hj.
Qed.

Lemma returnItem_preserves (request : ReturnRequest) (now : Z) :
  at_most_one_holder (snd (run (returnItem request now) st)) /\
  held_items_flagged (snd (run (returnItem request now) st)).
Proof.
  destruct (run_returnItem_cases request now st)
    as [(r & Hrun & _) |
        (bid & body & borrow & _ & _ & Hborrow & Hstatus & Hrun)];
    rewrite Hrun; simpl; [split; assumption |].
  split.
  - intros j. rewrite holders_returned_state.
    etransitivity; [apply filter_length_le | apply Hone].
  - intros j Hj. rewrite holders_returned_state in Hj.
    destruct (Z.eq_dec j (br_item_id borrow)) as [-> | Hne].
    + exfalso. apply Hj.
      apply first_filter_Some in Hborrow. destruct Hborrow as [Hin Hid].
      assert (Hheld : In borrow (holders (br_item_id borrow) st)).
      { unfold holders. apply filter_In. split; [exact Hin |].
        rewrite Z.eqb_refl. unfold is_holder.
        destruct (br_status borrow); [reflexivity | contradiction | reflexivity]. }
      rewrite (at_most_one_In _ borrow (Hone _) Hheld). simpl.
      rewrite Hid. reflexivity.
    + rewrite flag_set_returned_state by exact Hne.
      apply Hflag. intros Hnil. rewrite Hnil in Hj. apply Hj. reflexivity.
Qed.

Lemma getOverdueBorrows_preserves (now : Z) :
  at_most_one_holder (snd (run (getOverdueBorrows now) st)) /\
  held_items_flagged (snd (run (getOverdueBorrows now) st)).
Proof.
  rewrite run_getOverdueBorrows. simpl. split.
  - intros j.
    change (List.length (holders j (snd (mark_overdue (now / 1000) st))) <= 1)%nat.
    rewrite holders_mark_overdue, length_update_where. apply Hone.
  - intros j Hj.
    change (holders j (snd (mark_overdue (now / 1000) st)) <> []) in Hj.
    rewrite holders_mark_overdue in Hj.
    change (flag_set j st = false).
    apply Hflag. intros Hnil. rewrite Hnil in Hj. apply Hj. reflexivity.
Qed.

Lemma apply_op_preserves (op : Operation) :
  at_most_one_holder (apply_op op st) /\ held_items_flagged (apply_op op st).
Proof.
  destruct op as [request amb | request now | now]; simpl.
  - apply createBorrow_preserves.
  - apply returnItem_preserves.
  - apply getOverdueBorrows_preserves.
Qed.
End Preservation.

(** The full flag invariant of the data model gives the direction the
    engine relies on. *)
Lemma flag_consistent_held_items_flagged (st : State) :
  flag_consistent st -> held_items_flagged st.
Proof.
  intros Hiff iid Hheld. unfold flag_set.
  destruct (first (item_rows iid st)) as [it |] eqn:Hit; [| reflexivity].
  apply first_filter_Some in Hit. destruct Hit as [Hin Hid].
  apply Z.eqb_eq in Hid. subst iid.
  apply (Hiff it Hin) in Hheld. rewrite Hheld. reflexivity.
Qed.

(** A store without borrow rows, such as the freshly seeded one, satisfies
    both properties. *)
Lemma no_borrows_invariant (st : State) :
  borrow_records st = [] -> at_most_one_holder st /\ held_items_flagged st.
Proof.
  intros Hnone. unfold at_most_one_holder, held_items_flagged, holders.
  rewrite Hnone. simpl. split; [lia | congruence].
Qed.

(** ** C1: at most one holder per item *)

(** C1.  Started from a state in which every item has at most one
    reservation with status 'active' or 'overdue' and every held item is
    flagged unavailable, each core operation run alone (createBorrow,
    returnItem, the overdue sweep of getOverdueBorrows) ends in a state
    with the same two properties; hence every state reachable by these
    operations has at most one holder per item. *)
Theorem at_most_one_holder_invariant (st0 : State) :
  at_most_one_holder st0 ->
  held_items_flagged st0 ->
  (forall op,
     at_most_one_holder (apply_op op st0) /\
     held_items_flagged (apply_op op st0)) /\
  (forall st, reachable st0 st -> at_most_one_holder st).
Proof.
  intros Hone Hflag. split.
  - intros op. apply apply_op_preserves; assumption.
  - intros st Hreach.
    enough (at_most_one_holder st /\ held_items_flagged st) as [H _] by exact H.
    induction Hreach as [| st op _ [IHone IHflag]].
    + split; assumption.
    + apply apply_op_preserves; assumption.
Qed.

Lemma lego_held_at_most_one : at_most_one_holder lego_held.
Proof.
  intros iid. unfold holders, lego_held. cbn -[Z.eqb].
  destruct (1 =? iid); simpl; lia.
Qed.

Lemma lego_held_flagged : held_items_flagged lego_held.
Proof.
  intros iid. unfold holders, flag_set, item_rows, lego_held. cbn -[Z.eqb].
  destruct (Z.eqb_spec 1 iid) as [<- | Hne]; simpl.
  - reflexivity.
  - intros H. contradiction.
Qed.

Lemma at_most_one_holder_invariant_witness :
  at_most_one_holder lego_held /\
  held_items_flagged lego_held /\
  at_most_one_holder
    (apply_op (Reserve (reserve_request 2 1 7) (at_ms 2000000)) lego_held).
Proof.
  split; [exact lego_held_at_most_one |].
  split; [exact lego_held_flagged |].
  apply (proj1 (at_most_one_holder_invariant lego_held
                  lego_held_at_most_one lego_held_flagged)).
Defined.

(** ** C4: isItemAvailable *)

Lemma active_borrow_is_holder (iid : Z) (st : State) (b : BorrowRecord) :
  In b (borrows_of_item iid active st) -> In b (holders iid st).
Proof.
  unfold borrows_of_item, holders. rewrite !filter_In.
  intros [Hin Hb]. split; [exact Hin |].
  apply andb_true_iff in Hb. destruct Hb as [Hid Hactive].
  rewrite Hid. unfold is_holder.
  destruct (br_status b); try discriminate. reflexivity.
Qed.

Lemma no_holder_no_active_borrow (iid : Z) (st : State) :
  holders iid st = [] -> borrows_of_item iid active st = [].
Proof.
  intros Hnone.
  destruct (borrows_of_item iid active st) as [| b l] eqn:Hb; [reflexivity |].
  assert (Hin : In b (holders iid st))
    by (apply active_borrow_is_holder; rewrite Hb; now left).
  rewrite Hnone in Hin. contradiction.
Qed.

(** isItemAvailable writes nothing and returns true if and only if the
    item row exists, its availability flag is not 0 and no reservation of
    the item has status 'active'; 'overdue' reservations are not looked
    at.  Only in a state where every held item is flagged unavailable is
    this the same as: the flag is set and the item has no holder. *)
Lemma isItemAvailable_iff (iid : Z) (st : State) :
  snd (run (isItemAvailable iid) st) = st /\
  (fst (run (isItemAvailable iid) st) = true <->
   flag_set iid st = true /\ borrows_of_item iid active st = []) /\
  (held_items_flagged st ->
   (fst (run (isItemAvailable iid) st) = true <->
    flag_set iid st = true /\ holders iid st = [])).
Proof.
  rewrite run_isItemAvailable. simpl.
  assert (Hactive :
    flag_set iid st &&
    match first (borrows_of_item iid active st) with
    | None => true
    | Some _ => false
    end = true <->
    flag_set iid st = true /\ borrows_of_item iid active st = []).
  { rewrite andb_true_iff. unfold first.
    destruct (borrows_of_item iid active st); simpl; intuition discriminate. }
  split; [reflexivity |]. split; [exact Hactive |].
  intros Hflag. rewrite Hactive. split.
  - intros [Hset _]. split; [exact Hset |].
    destruct (holders iid st) as [| b l] eqn:Hh; [reflexivity |].
    assert (Hne : holders iid st <> []) by (rewrite Hh; discriminate).
    apply Hflag in Hne. congruence.
  - intros [Hset Hnone]. split; [exact Hset |].
    apply no_holder_no_active_borrow. exact Hnone.
Qed.

(** C4, at the failing input.  Alice's reservation of the LEGO kit is
    'overdue' and the kit's flag is set: the kit has exactly one holder,
    yet isItemAvailable answers true, because its query looks for status
    'active' only.  A reserve of the kit by Bob is then answered 201 and
    the kit has two holders, one 'overdue' and one 'active'. *)
Theorem isItemAvailable_overlooks_overdue :
  let reserve := createBorrow (reserve_request 2 1 7) (at_ms 700001000) in
  flag_set 1 overdue_but_flagged = true /\
  map (fun b => (br_user_id b, br_status b)) (holders 1 overdue_but_flagged) =
    [(1, overdue)] /\
  fst (run (isItemAvailable 1) overdue_but_flagged) = true /\
  status_code (fst (run reserve overdue_but_flagged)) = 201 /\
  map (fun b => (br_user_id b, br_status b))
    (holders 1 (snd (run reserve overdue_but_flagged))) =
    [(1, overdue); (2, active)] /\
  ~ at_most_one_holder (snd (run reserve overdue_but_flagged)).
Proof.
  cbv zeta. repeat (split; [reflexivity |]).
  intros Hone. specialize (Hone 1). vm_compute in Hone. lia.
Qed.

(** ** C7: the overdue sweep *)

Lemma is_due_spec (now : Z) (b : BorrowRecord) :
  is_due now b = true <->
  br_status b = active /\ (br_due_at b < inject_Z now)%Q.
Proof.
  unfold is_due. rewrite andb_true_iff, Qltb_lt.
  destruct (br_status b); simpl; intuition discriminate.
Qed.

Lemma swept_row_not_due (now : Z) (b : BorrowRecord) :
  is_due now (if is_due now b then set_status b overdue else b) = false.
Proof.
  destruct (is_due now b) eqn:Hdue; [reflexivity | exact Hdue].
Qed.

Lemma update_where_transition (now : Z) (rows : list BorrowRecord) :
  Forall2 (sweep_transition now) rows
    (update_where (is_due now) (fun b => set_status b overdue) rows).
Proof.
  unfold update_where.
  induction rows as [| b rows IH]; simpl; constructor; [| exact IH].
  unfold sweep_transition. destruct (is_due now b) eqn:Hdue.
  - apply is_due_spec in Hdue. split; [reflexivity |].
    intros [Hstatus | Hlate]; [tauto |].
    exfalso. apply (Qle_not_lt _ _ Hlate). tauto.
  - split; [| reflexivity].
    intros Hd. apply is_due_spec in Hd. congruence.
Qed.

Lemma update_where_idempotent (now : Z) (rows : list BorrowRecord) :
  let swept := update_where (is_due now) (fun b => set_status b overdue) rows in
  update_where (is_due now) (fun b => set_status b overdue) swept = swept /\
  changes (is_due now) swept = 0%nat.
Proof.
  unfold update_where, changes.
  induction rows as [| b rows [IHrows IHchanges]]; simpl; [split; reflexivity |].
  rewrite swept_row_not_due. split.
  - f_equal. exact IHrows.
  - exact IHchanges.
Qed.

(** What a sweep at second [now'] makes of a row that a sweep at second
    [now] has passed. *)
Lemma second_sweep_row (now now' : Z) (b : BorrowRecord) :
  is_due now' (if is_due now b then set_status b overdue else b) =
  fell_due_between now now' b.
Proof.
  unfold is_due, fell_due_between.
  destruct b as [bid uid iid created due back notes qr s].
  cbn [br_status br_due_at]. destruct s; cbn [Status_eqb andb];
    try reflexivity.
  destruct (Qltb due (inject_Z now)); reflexivity.
Qed.

(** A later sweep, at second [now'], finds exactly the rows that were
    'active' and fell due between the two clock readings. *)
Lemma later_sweep_changes (now now' : Z) (rows : list BorrowRecord) :
  changes (is_due now')
    (update_where (is_due now) (fun b => set_status b overdue) rows) =
  changes (fell_due_between now now') rows.
Proof.
  unfold changes, update_where.
  induction rows as [| b rows IH]; simpl; [reflexivity |].
  rewrite second_sweep_row.
  destruct (fell_due_between now now' b); simpl; rewrite IH; reflexivity.
Qed.

(** An UPDATE changes nothing exactly when it matches no row that it
    would change. *)
Lemma update_where_unchanged {A : Type} (p : A -> bool) (f : A -> A)
    (rows : list A) :
  (forall r, p r = true -> f r <> r) ->
  (update_where p f rows = rows <-> changes p rows = 0%nat).
Proof.
  intros Hmoves. unfold update_where, changes.
  induction rows as [| r rows IH]; simpl; [tauto |].
  destruct (p r) eqn:Hp; simpl.
  - split; [| discriminate].
    intros Heq. injection Heq as Hr _. exfalso. exact (Hmoves r Hp Hr).
  - rewrite <- IH. split; intros H; [injection H as H | f_equal]; exact H.
Qed.

Lemma set_borrow_records_eq (st : State) (rows : list BorrowRecord) :
  set_borrow_records st rows = st <-> rows = borrow_records st.
Proof.
  destruct st as [us its subs rows0 cache]. unfold set_borrow_records. simpl.
  split; intros H; [injection H as H | f_equal]; exact H.
Qed.

(** C7, counterexample.  Alice's reservation of the LEGO kit is due at
    second 605800.  A sweep at second 1000 finds nothing; a second sweep
    at second 700000, with no reservation changed in between, is not a
    repetition without effect: it transitions one row and changes the
    state. *)
Lemma second_sweep_not_idle :
  let st' := snd (run (getOverdueBorrows 1000000) lego_held) in
  st' = lego_held /\
  fst (mark_overdue (700000000 / 1000) st') = 1%nat /\
  snd (run (getOverdueBorrows 700000000) st') <> st' /\
  map br_status (borrow_records (snd (run (getOverdueBorrows 700000000) st')))
    = [overdue].
Proof.
  cbv zeta. split; [reflexivity |]. split; [reflexivity |].
  split; [| reflexivity]. vm_compute. discriminate.
Qed.

(** C7, amended.  The sweep of getOverdueBorrows at second [now] turns
    exactly the rows with status 'active' and [due_at < now] into
    'overdue' and leaves every other row, in particular every 'overdue'
    and 'returned' one, and every other table as it was.  Run a second
    time at the same clock reading it changes nothing, answers with the
    same rows and its UPDATE matches zero rows.  Run a second time at
    another clock reading, second [now'], its UPDATE matches exactly the
    rows that were 'active' with [now <= due_at < now']; the state stays
    as it was exactly when there is no such row, and in any case the two
    sweeps together leave what one sweep at the later of the two readings
    leaves. *)
Theorem sweep_exact_and_idempotent (now_ms now_ms' : Z) (st : State) :
  let now := now_ms / 1000 in
  let now' := now_ms' / 1000 in
  let st' := snd (run (getOverdueBorrows now_ms) st) in
  let st'' := snd (run (getOverdueBorrows now_ms') st') in
  Forall2 (sweep_transition now) (borrow_records st) (borrow_records st') /\
  Forall2 (fun b b' => br_status b <> active -> b' = b)
    (borrow_records st) (borrow_records st') /\
  (users st' = users st /\ items st' = items st /\
   subscriptions st' = subscriptions st /\ kv st' = kv st) /\
  fst (mark_overdue now st) = changes (is_due now) (borrow_records st) /\
  run (getOverdueBorrows now_ms) st' =
    (fst (run (getOverdueBorrows now_ms) st), st') /\
  fst (mark_overdue now st') = 0%nat /\
  fst (mark_overdue now' st') =
    changes (fell_due_between now now') (borrow_records st) /\
  (st'' = st' <-> changes (fell_due_between now now') (borrow_records st) = 0%nat) /\
  st'' = snd (run (getOverdueBorrows (Z.max now_ms now_ms')) st).
Proof.
  intros now now' st' st''. subst st' st''.
  rewrite !run_getOverdueBorrows. fold now now'. simpl.
  pose proof (update_where_transition now (borrow_records st)) as Htrans.
  pose proof (update_where_idempotent now (borrow_records st)) as [Hidem Hzero].
  split; [exact Htrans |]. split.
  { eapply Forall2_impl; [| exact Htrans].
    intros b b' [_ Hkeep] Hstatus. apply Hkeep. left. exact Hstatus. }
  split; [repeat split |]. split; [reflexivity |]. split.
  { unfold set_borrow_records. simpl. rewrite Hidem. reflexivity. }
  split; [exact Hzero |]. split; [apply later_sweep_changes |]. split.
  - rewrite <- later_sweep_changes.
    unfold set_borrow_records at 1. cbn [users items subscriptions kv
      borrow_records].
    rewrite <- (update_where_unchanged (is_due now')
                  (fun b => set_status b overdue)).
    + split; intros H.
      * injection H as H. exact H.
      * unfold set_borrow_records. cbn [users items subscriptions kv
          borrow_records]. rewrite H. reflexivity.
    + intros b Hdue Heq. apply is_due_spec in Hdue. destruct Hdue as [Hs _].
      rewrite <- Heq in Hs. discriminate.
  - unfold set_borrow_records. cbn [users items subscriptions kv
      borrow_records]. f_equal.
    assert (Hmax : Z.max now_ms now_ms' / 1000 = Z.max now now').
    { unfold now, now'.
      destruct (Z.max_spec now_ms now_ms') as [[Hlt ->] | [Hle ->]].
      - rewrite Z.max_r; [reflexivity |]. apply Z.div_le_mono; lia.
      - rewrite Z.max_l; [reflexivity |]. apply Z.div_le_mono; lia. }
    rewrite Hmax. unfold update_where. rewrite map_map.
    apply map_ext. intros b.
    assert (Hrow : is_due (Z.max now now') b = is_due now b || is_due now' b).
    { unfold is_due. destruct (Status_eqb (br_status b) active);
        [cbn [andb] | reflexivity].
      destruct (Qltb (br_due_at b) (inject_Z now)) eqn:H1;
        destruct (Qltb (br_due_at b) (inject_Z now')) eqn:H2;
        cbn [orb];
        rewrite ?Qltb_lt, ?Qltb_ge in *;
        unfold Qlt, Qle in *; cbn [Qnum Qden inject_Z] in *; nia. }
    rewrite Hrow.
    destruct (is_due now b) eqn:Hd1; cbn [orb].
    + destruct (is_due now' (set_status b overdue)) eqn:Hd2; [| reflexivity].
      apply is_due_spec in Hd2. destruct Hd2 as [Hs _]. discriminate.
    + reflexivity.
Qed.

(** ** C8: a denied reserve writes nothing *)

(** C8.  Whenever createBorrow answers with anything but the 201 of a
    created borrow (unauthorized, invalid input, item not found, item
    unavailable, insufficient level, a subscription rule), the store is
    left exactly as it was: no borrow row, no flag change, no cache or
    user change. *)
Theorem createBorrow_denied_writes_nothing (request : CreateBorrowRequest)
    (amb : Ambient) (st : State) :
  status_code (fst (run (createBorrow request amb) st)) <> 201 ->
  snd (run (createBorrow request amb) st) = st.
Proof.
  intros Hdenied.
  destruct (run_createBorrow_cases request amb st)
    as [(r & Hrun & _) |
        (uid & iid & body & item & u & due & _ & _ & _ & _ & _ & _ & _ & _ & _
           & _ & _ & Hrun)];
    rewrite Hrun in *; simpl in *.
  - reflexivity.
  - contradiction.
Qed.

Lemma createBorrow_denied_writes_nothing_witness :
  fst (run (createBorrow (reserve_request 1 5 7) (at_ms 1000000)) seeded) =
    error (ItemRequiresLevel 4 1) 403 /\
  snd (run (createBorrow (reserve_request 1 5 7) (at_ms 1000000)) seeded) = seeded.
Proof.
  split; [reflexivity |].
  apply (createBorrow_denied_writes_nothing (reserve_request 1 5 7)
           (at_ms 1000000) seeded).
  vm_compute. discriminate.
Defined.

(** ** C3: the trust score and its bounds *)

Lemma clamp_in_range (score delta : Z) :
  0 <= Z.max 0 (Z.min 200 (score + delta)) <= 200.
Proof. lia. Qed.

(** updateTrustScore clamps: whatever the delta, the updated user's score
    lands in [0, 200], the other users keep theirs, and the returned
    score is the stored one. *)
Lemma updateTrustScore_in_range (uid delta : Z) (st : State) :
  trust_in_range st ->
  trust_in_range (snd (run (updateTrustScore uid delta) st)) /\
  0 <= fst (run (updateTrustScore uid delta) st) <= 200.
Proof.
  intros Hrange. unfold updateTrustScore.
  rewrite run_bind, run_exec, run_bind, run_query. simpl.
  assert (Hclamped : trust_in_range (clamp_trust uid delta st)).
  { unfold trust_in_range, clamp_trust, update_where in *. simpl.
    apply Forall_map. eapply Forall_impl; [| exact Hrange].
    intros u Hu. simpl in Hu. destruct (u_id u =? uid); cbn; lia. }
  split; [exact Hclamped |].
  destruct (first (user_rows uid (clamp_trust uid delta st))) as [u |] eqn:Hu;
    [| lia].
  apply first_filter_Some in Hu. destruct Hu as [Hin _].
  unfold trust_in_range in Hclamped. rewrite Forall_forall in Hclamped.
  exact (Hclamped u Hin).
Qed.

(** The clamped update applied to the score itself, for any delta. *)
Lemma clamp_trust_updates (uid delta : Z) (st : State) :
  Forall (fun u => u_id u = uid -> 0 <= u_trust_score u <= 200)
    (users (clamp_trust uid delta st)).
Proof.
  unfold clamp_trust, update_where. simpl. apply Forall_map.
  apply Forall_forall. intros u _.
  destruct (Z.eqb_spec (u_id u) uid); simpl; intros; [lia | contradiction].
Qed.

(** C3, at the failing inputs.  returnItem does not go through the
    clamp: from a score of 199 a 'good' return stores 201, and from a
    score of 5 a 'damaged' return stores -5, although both states start
    with every score in [0, 200]. *)
Theorem returnItem_trust_leaves_range :
  trust_in_range almost_excellent /\
  map u_trust_score
    (users (snd (run (returnItem (return_request 1 "good") 3000000)
                   almost_excellent))) = [201; 100] /\
  trust_in_range almost_untrusted /\
  map u_trust_score
    (users (snd (run (returnItem (return_request 1 "damaged") 3000000)
                   almost_untrusted))) = [-5; 100].
Proof.
  repeat split; try reflexivity;
    repeat constructor; simpl; lia.
Qed.

(** ** C6: the count behind the plan limit *)

(** The rows counted for the plan limit are those of status 'active'. *)
Lemma activeBorrows_only_active (uid : Z) (st : State) (b : BorrowRecord) :
  In b (activeBorrows uid st) <->
  In b (borrow_records st) /\ br_user_id b = uid /\ br_status b = active.
Proof.
  unfold activeBorrows. rewrite filter_In, andb_true_iff, Z.eqb_eq.
  destruct (br_status b); simpl; intuition discriminate.
Qed.

(** C6, at the failing input.  Alice is on the implicit BASIC plan (one
    item at a time) and holds the LEGO kit.  While the reservation is
    'active' a second reserve is refused with the plan limit; once the
    sweep has turned it to 'overdue' it is no longer counted, the same
    request is accepted, and Alice holds two unreturned items. *)
Theorem overdue_not_counted_for_limit :
  fst (run (createBorrow (reserve_request 1 2 7) (at_ms 700001000)) lego_held) =
    error (MaximumItems 1) 403 /\
  map br_status (borrow_records lego_overdue) = [overdue] /\
  activeBorrows 1 lego_overdue = [] /\
  status_code
    (fst (run (createBorrow (reserve_request 1 2 7) (at_ms 700001000))
            lego_overdue)) = 201 /\
  map (fun b => (br_user_id b, br_item_id b, br_status b))
    (borrow_records
       (snd (run (createBorrow (reserve_request 1 2 7) (at_ms 700001000))
               lego_overdue))) =
    [(1, 1, overdue); (1, 2, active)].
Proof. repeat split. Qed.

(** ** C9: duration and due time *)

(** The range check in terms of the value of the number: a finite value
    is refused when it is below 1 or above 30, an infinity always, NaN
    never. *)
Lemma out_of_range_spec (days : JsNumber) :
  out_of_range days =
  match extended days with
  | Finite q => Qltb q (inject_Z 1) || Qltb (inject_Z 30) q
  | MinusInfinity | PlusInfinity => true
  | NotANumber => false
  end.
Proof.
  unfold out_of_range, js_gtb, js_ltb. cbn [extended].
  destruct (extended days); reflexivity.
Qed.

(** C9, counterexample.  A 7-day reserve whose handler reads the clock
    just before a second boundary and whose insert happens just after:
    the row is created at second 1001 and due at 1000 + 7 days. *)
Lemma due_time_not_creation_plus_days :
  status_code
    (fst (run (createBorrow (reserve_request 1 1 7) across_a_second) seeded))
    = 201 /\
  exists b,
    borrow_records
      (snd (run (createBorrow (reserve_request 1 1 7) across_a_second) seeded))
      = [b] /\
    br_borrowed_at b = 1001 /\
    br_due_at b = inject_Z 605800 /\
    ~ (br_due_at b == inject_Z (br_borrowed_at b + 7 * 86400))%Q.
Proof.
  split; [reflexivity |].
  eexists. split; [vm_compute; reflexivity |].
  simpl. repeat split. intros H. vm_compute in H. discriminate.
Qed.

(** The double nearest to 7.1, and a request for that many days. *)
Lemma seven_point_one :
  extended (double (S754_finite false 7993889338582630 (-50))) =
  Finite (3996944669291315 # 562949953421312) /\
  ((70999999999999996 # 10000000000000000) <
   (3996944669291315 # 562949953421312))%Q /\
  ((3996944669291315 # 562949953421312) < (71 # 10))%Q.
Proof. split; [reflexivity | split; reflexivity]. Qed.

(** duration_days is not type-checked.  With 7.1 the reserve is accepted
    and the stored due time is the double 1000 + 7.1 * 24 * 60 * 60 =
    614439.99999999988..., not a whole number of seconds; with a value
    that denotes no number (NaN) the range check passes and the INSERT
    fails, so the handler throws and nothing is stored. *)
Lemma duration_days_unchecked :
  let fractional :=
    mkCreateBorrowRequest (Some 1)
      (parsed (mkCreateBorrowBody (Some 1)
                 (Some (double (S754_finite false 7993889338582630 (-50)))))) in
  let not_a_number :=
    mkCreateBorrowRequest (Some 1)
      (parsed (mkCreateBorrowBody (Some 1) (Some (double S754_nan)))) in
  status_code (fst (run (createBorrow fractional (at_ms 1000000)) seeded)) = 201 /\
  map br_due_at
    (borrow_records (snd (run (createBorrow fractional (at_ms 1000000)) seeded)))
    = [5277999410708479 # 8589934592] /\
  ((6144399999999998 # 10000000000) < (5277999410708479 # 8589934592))%Q /\
  ((5277999410708479 # 8589934592) < (614440 # 1))%Q /\
  run (createBorrow not_a_number (at_ms 1000000)) seeded =
    (thrown D1Error, seeded).
Proof.
  cbv zeta. repeat (split; [reflexivity |]). reflexivity.
Qed.

(** C9, amended.  For an authenticated request with a parsed body,
    createBorrow answers every duration_days that the range check
    refuses with a 400 (the duration message when item_id is given) and
    writes nothing; the check refuses every number below 1 or above 30,
    in particular every whole number outside 1..30, and lets NaN pass.
    On a 201 the new row is appended with status 'active', its creation
    time is the database's unixepoch() at the insert and its due time is
    the number the handler computes from its own clock reading,
    now + duration_days * 24 * 60 * 60; for a whole number of days this
    is the clock reading in seconds plus duration_days * 86400, which is
    creation time plus duration_days days exactly when the two clock
    readings agree.  A duration that passes the check but gives no
    finite due time is not stored and not answered 201. *)
Theorem createBorrow_duration (request : CreateBorrowRequest) (amb : Ambient)
    (st : State) (uid : Z) (body : CreateBorrowBody) :
  truthy (userId request) = Some uid ->
  create_body request = parsed body ->
  (out_of_range (days_of body) = true ->
   exists m,
     run (createBorrow request amb) st = (error m 400, st) /\
     (truthy (item_id body) <> None -> m = DurationOutOfRange)) /\
  (forall q, extended (days_of body) = Finite q ->
     (out_of_range (days_of body) = true <-> (q < 1 \/ 30 < q)%Q)) /\
  (forall d, days_of body = whole d ->
     (out_of_range (days_of body) = true <-> ~ 1 <= d <= 30)) /\
  (extended (days_of body) = NotANumber ->
   out_of_range (days_of body) = false) /\
  (status_code (fst (run (createBorrow request amb) st)) = 201 ->
   exists iid b,
     truthy (item_id body) = Some iid /\
     out_of_range (days_of body) = false /\
     borrow_records (snd (run (createBorrow request amb) st)) =
       borrow_records st ++ [b] /\
     br_user_id b = uid /\ br_item_id b = iid /\ br_status b = active /\
     br_borrowed_at b = db_unixepoch amb /\
     bound (due_of amb (days_of body)) = Some (br_due_at b) /\
     (forall d, days_of body = whole d ->
        1 <= d <= 30 /\
        br_due_at b = inject_Z (now_ms amb / 1000 + d * 86400) /\
        (db_unixepoch amb = now_ms amb / 1000 ->
         br_due_at b = inject_Z (br_borrowed_at b + d * 86400)))) /\
  (bound (due_of amb (days_of body)) = None ->
   status_code (fst (run (createBorrow request amb) st)) <> 201 /\
   snd (run (createBorrow request amb) st) = st).
Proof.
  intros Huid Hbody.
  assert (Hcases := run_createBorrow_cases request amb st).
  split.
  { intros Hout. unfold createBorrow. rewrite Huid, Hbody.
    fold (days_of body). fold (out_of_range (days_of body)). rewrite Hout.
    destruct (truthy (item_id body)) as [iid |].
    - eexists. split; reflexivity.
    - eexists. split; [reflexivity | congruence]. }
  split.
  { intros q Hq. rewrite out_of_range_spec, Hq, orb_true_iff, !Qltb_lt.
    reflexivity. }
  split.
  { intros d Hd. rewrite Hd.
    destruct (out_of_range (whole d)) eqn:Hout.
    - split; [| reflexivity]. intros _ Hin.
      apply out_of_range_whole in Hin. congruence.
    - apply out_of_range_whole in Hout. split; [discriminate | tauto]. }
  split.
  { intros Hnan. rewrite out_of_range_spec, Hnan. reflexivity. }
  split.
  - intros Hcreated.
    destruct Hcases
      as [(r & Hrun & Hfail) |
          (uid' & iid & body' & item & u & due & Huid' & Hbody' & Hiid & Hdays
             & Hdue & _ & _ & _ & _ & _ & _ & Hrun)];
      rewrite Hrun in *; cbn [fst snd] in *.
    { apply failure_status in Hfail. lia. }
    assert (uid' = uid) by congruence. assert (body' = body) by congruence.
    subst uid' body'.
    eexists iid, _. split; [exact Hiid |]. split; [exact Hdays |].
    split; [reflexivity |]. cbn [br_user_id br_item_id br_status
      br_borrowed_at br_due_at].
    repeat (split; [first [reflexivity | exact Hdue] |]).
    intros d Hd. rewrite Hd in Hdays, Hdue.
    apply out_of_range_whole in Hdays.
    rewrite (proj2 (due_of_whole amb d)) in Hdue. injection Hdue as <-.
    split; [exact Hdays |]. split; [reflexivity |].
    intros ->. reflexivity.
  - intros Hnone.
    destruct Hcases
      as [(r & Hrun & Hfail) |
          (uid' & iid & body' & item & u & due & Huid' & Hbody' & Hiid & Hdays
             & Hdue & _ & _ & _ & _ & _ & _ & Hrun)];
      rewrite Hrun; cbn [fst snd].
    + split; [apply failure_status in Hfail; lia | reflexivity].
    + assert (body' = body) by congruence. subst body'. congruence.
Qed.

Lemma createBorrow_duration_witness :
  (exists m,
     run (createBorrow (reserve_request 1 1 31) (at_ms 1000000)) seeded =
       (error m 400, seeded) /\
     (truthy (item_id (mkCreateBorrowBody (Some 1) (Some (whole 31)))) <> None ->
      m = DurationOutOfRange)) /\
  (exists b,
     borrow_records
       (snd (run (createBorrow (reserve_request 1 1 7) (at_ms 1000000)) seeded))
       = [b] /\
     br_due_at b = inject_Z (br_borrowed_at b + 7 * 86400)).
Proof.
  split.
  - apply (proj1 (createBorrow_duration (reserve_request 1 1 31)
                    (at_ms 1000000) seeded 1
                    (mkCreateBorrowBody (Some 1) (Some (whole 31)))
                    eq_refl eq_refl)).
    reflexivity.
  - destruct (proj1 (proj2 (proj2 (proj2 (proj2
                (createBorrow_duration (reserve_request 1 1 7)
                   (at_ms 1000000) seeded 1
                   (mkCreateBorrowBody (Some 1) (Some (whole 7)))
                   eq_refl eq_refl)))))
                eq_refl)
      as (iid & b & _ & _ & Hrows & _ & _ & _ & _ & _ & Hwhole).
    exists b. split; [exact Hrows |].
    exact (proj2 (proj2 (Hwhole 7 eq_refl)) eq_refl).
Defined.

(** ** C5 and C10: the eligibility checks of a reserve *)

(** A request that reaches the eligibility checks is decided by the level
    check of createBorrow, then by canUserBorrowItem. *)
Lemma run_createBorrow_eligible (st : State) (request : CreateBorrowRequest)
    (amb : Ambient) (uid iid : Z) (u : User) (item : Item) :
  reaches_eligibility st request amb uid iid u item ->
  exists body due,
    create_body request = parsed body /\
    bound (due_of amb (days_of body)) = Some due /\
    run (createBorrow request amb) st =
    if u_level u <? it_min_level_required item then
      (error (ItemRequiresLevel (it_min_level_required item) (u_level u)) 403, st)
    else
      let verdict :=
        subscription_verdict st (sub_now_ms amb) uid (it_risk_level item) in
      if fst verdict then
        (json (mkCreated (next_id (map br_id (borrow_records st))) (qr_of amb)
                 (due_of amb (days_of body)) (it_name item)) 201,
         reserved_state uid iid due (qr_of amb) (db_unixepoch amb) st)
      else
        (error (match snd verdict with
                | Some r => r
                | None => SubscriptionDoesNotAllow
                end) 403, st).
Proof.
  intros (Huid & (body & Hbody & Hiid & Hdays & Hfinite) & Hitem & Havail
            & Huser).
  destruct (bound (due_of amb (days_of body))) as [due |] eqn:Hdue;
    [clear Hfinite | congruence].
  exists body, due. split; [exact Hbody |]. split; [exact Hdue |].
  unfold createBorrow. rewrite Huid, Hbody, Hiid.
  fold (days_of body). fold (out_of_range (days_of body)).
  rewrite Hdays, run_bind, run_query, Hitem, run_bind.
  destruct (run (isItemAvailable iid) st) as [available st1] eqn:Hrun.
  pose proof (run_isItemAvailable iid st) as Hspec.
  rewrite Hrun in Hspec. simpl in Havail. subst available.
  injection Hspec as _ Hst1. subst st1.
  cbn [negb].
  rewrite run_bind, run_query, Huser.
  destruct (u_level u <? it_min_level_required item); [reflexivity |].
  rewrite run_bind, run_canUserBorrowItem.
  destruct (subscription_verdict st (sub_now_ms amb) uid (it_risk_level item))
    as [[|] reason]; [| reflexivity].
  cbn [negb fst snd]. fold (due_of amb (days_of body)). rewrite Hdue.
  reflexivity.
Qed.

Lemma createBorrow_decision (st : State) (request : CreateBorrowRequest)
    (amb : Ambient) (uid iid : Z) (u : User) (item : Item) :
  reaches_eligibility st request amb uid iid u item ->
  decision_of (fst (run (createBorrow request amb) st)) =
  Some (canReserve_code_order (checks_of st amb uid u item)).
Proof.
  intros Hreach.
  destruct (run_createBorrow_eligible st request amb uid iid u item Hreach)
    as (body & due & _ & _ & Hrun).
  rewrite Hrun. unfold canReserve_code_order, checks_of, subscription_verdict.
  cbn [first_failing limit_exceeded risk_not_permitted insufficient_level
       subscription_expired].
  destruct (u_level u <? it_min_level_required item); [reflexivity |].
  destruct (isExpired _ _); [reflexivity |].
  destruct (_ >=? _); [reflexivity |].
  destruct (_ >? _); reflexivity.
Qed.

Lemma drone_request_reaches_eligibility :
  reaches_eligibility lego_held spec_order_request (at_ms 2000000) 1 5 alice
    drone.
Proof.
  repeat split. eexists. repeat split; discriminate.
Qed.

(** C5, counterexample.  Alice (level 1, BASIC, already holding one
    'active' item, none overdue) asks for the level-4 drone.  The order
    of section 4.2 names the plan limit first; the handler answers with
    the level. *)
Lemma spec_order_refuted : ~ spec_order_claim.
Proof.
  intros Hclaim.
  specialize (Hclaim lego_held spec_order_request (at_ms 2000000) 1 5 alice
                drone drone_request_reaches_eligibility).
  vm_compute in Hclaim. discriminate.
Qed.

(** C5, amended.  For a request that reaches the eligibility checks the
    first failing check in this order decides the answer: (1) the user's
    level is below the item's minimum level: insufficient level; (2) the
    subscription's expiry, if any, is before now: subscription expired;
    (3) the count of the plan-limit query is at least the plan's
    max_items: limit exceeded; (4) the item's risk tier is above the
    plan's: risk tier not permitted; otherwise the borrow is created. *)
Theorem createBorrow_check_order (st : State) (request : CreateBorrowRequest)
    (amb : Ambient) (uid iid : Z) (u : User) (item : Item) :
  reaches_eligibility st request amb uid iid u item ->
  decision_of (fst (run (createBorrow request amb) st)) =
    Some (canReserve_code_order (checks_of st amb uid u item)) /\
  (status_code (fst (run (createBorrow request amb) st)) = 201 <->
   canReserve_code_order (checks_of st amb uid u item) = Allowed).
Proof.
  intros Hreach.
  pose proof (createBorrow_decision st request amb uid iid u item Hreach) as Hd.
  split; [exact Hd |].
  destruct (run_createBorrow_cases request amb st)
    as [(r & Hrun & Hfail) |
        (uid' & iid' & body & item' & u' & due & _ & _ & _ & _ & _ & _ & _ & _
           & _ & _ & _ & Hrun)];
    rewrite Hrun in *; cbn [fst snd] in *.
  - split; [intros H201; apply failure_status in Hfail; lia |].
    intros Hallowed. rewrite Hallowed in Hd.
    destruct r as [d c | m c | e]; simpl in *;
      [contradiction | destruct (reason_of_message m); discriminate
      | discriminate].
  - simpl in Hd. split; [intros _; congruence | reflexivity].
Qed.

Lemma createBorrow_check_order_witness :
  decision_of
    (fst (run (createBorrow spec_order_request (at_ms 2000000)) lego_held)) =
  Some (Denied InsufficientLevel).
Proof.
  exact (proj1 (createBorrow_check_order lego_held spec_order_request
                  (at_ms 2000000) 1 5 alice drone
                  drone_request_reaches_eligibility)).
Defined.

Lemma verdict_without_subscription (st : State) (now uid : Z) (risk : string) :
  first (subscription_rows uid st) = None ->
  subscription_verdict st now uid risk =
  if Z.of_nat (List.length (activeBorrows uid st)) >=? 1
  then (false, Some (MaximumItems 1))
  else if indexOf riskLevels risk >? indexOf riskLevels "low"
  then (false, Some (RiskNotAllowed "low" risk))
  else (true, None).
Proof.
  intros Hnone. unfold subscription_verdict. rewrite Hnone. reflexivity.
Qed.

(** C10.  For a user without a subscription row canUserBorrowItem
    decides with the BASIC defaults: at most 1 'active' borrow, risk tier
    'low', no expiry; with no active borrow a 'low'-risk item is
    allowed, and a reserve that reaches the checks with a sufficient
    level is created.  The answer 'Subscription expired' is only given
    when the user's subscription row has an expires_at before now. *)
Theorem no_subscription_means_basic (st : State) (now uid : Z) (risk : string) :
  (first (subscription_rows uid st) = None ->
   run (canUserBorrowItem now uid risk) st =
     (if Z.of_nat (List.length (activeBorrows uid st)) >=? 1
      then (false, Some (MaximumItems 1))
      else if indexOf riskLevels risk >? indexOf riskLevels "low"
      then (false, Some (RiskNotAllowed "low" risk))
      else (true, None), st) /\
   snd (fst (run (canUserBorrowItem now uid risk) st)) <>
     Some SubscriptionExpired /\
   (activeBorrows uid st = [] ->
    run (canUserBorrowItem now uid "low") st = ((true, None), st)) /\
   (forall request amb iid u item,
      reaches_eligibility st request amb uid iid u item ->
      decision_of (fst (run (createBorrow request amb) st)) <>
        Some (Denied SubscriptionExpiredReason) /\
      (it_min_level_required item <= u_level u ->
       activeBorrows uid st = [] ->
       it_risk_level item = "low"%string ->
       status_code (fst (run (createBorrow request amb) st)) = 201))) /\
  (snd (fst (run (canUserBorrowItem now uid risk) st)) =
     Some SubscriptionExpired ->
   exists s e,
     first (subscription_rows uid st) = Some s /\
     sub_expires_at s = Some e /\ e * 1000 < now).
Proof.
  rewrite !run_canUserBorrowItem. simpl. split.
  - intros Hnone.
    pose proof (verdict_without_subscription st now uid risk Hnone) as Hv.
    split; [rewrite Hv; reflexivity |]. split.
    { rewrite Hv. destruct (_ >=? _); [discriminate |].
      destruct (_ >? _); discriminate. }
    split.
    { intros Hempty.
      rewrite (verdict_without_subscription st now uid "low" Hnone), Hempty.
      reflexivity. }
    intros request amb iid u item Hreach. split.
    + rewrite (createBorrow_decision st request amb uid iid u item Hreach).
      unfold canReserve_code_order, checks_of. rewrite Hnone.
      cbn [first_failing limit_exceeded risk_not_permitted insufficient_level
           subscription_expired isExpired].
      clear Hv.
      destruct (u_level u <? _); [discriminate |].
      destruct (_ >=? _); [discriminate |].
      destruct (_ >? _); discriminate.
    + intros Hlevel Hempty Hlow.
      destruct (run_createBorrow_eligible st request amb uid iid u item Hreach)
        as (body & due & _ & _ & Hrun).
      rewrite Hrun.
      assert (Hlt : (u_level u <? it_min_level_required item) = false)
        by (apply Z.ltb_ge; lia).
      rewrite Hlt, Hlow.
      rewrite (verdict_without_subscription st (sub_now_ms amb) uid "low" Hnone).
      rewrite Hempty. reflexivity.
  - unfold subscription_verdict, isExpired.
    destruct (first (subscription_rows uid st)) as [s |].
    + destruct (sub_expires_at s) as [e |] eqn:He.
      * destruct (negb (e =? 0) && (e * 1000 <? now)) eqn:Hexp.
        -- intros _. exists s, e. apply andb_true_iff in Hexp.
           destruct Hexp as [_ Hpast]. apply Z.ltb_lt in Hpast.
           split; [reflexivity |]. split; [exact He | exact Hpast].
        -- destruct (_ >=? _); [discriminate |].
           destruct (_ >? _); discriminate.
      * destruct (_ >=? _); [discriminate |].
        destruct (_ >? _); discriminate.
    + destruct (_ >=? _); [discriminate |].
      destruct (_ >? _); discriminate.
Qed.

Lemma no_subscription_means_basic_witness :
  run (canUserBorrowItem 1000000 1 "low") seeded = ((true, None), seeded).
Proof.
  apply (proj1 (no_subscription_means_basic seeded 1000000 1 "low") eq_refl).
  reflexivity.
Defined.

(** ** C2: concurrent reserves of one item *)

(** Running a task alone is the schedule that gives it every turn. *)
Lemma run_is_a_schedule {A : Type} (m : Task A) (st : State) :
  exists n,
    interleave (repeat 0%nat n) [m] st =
    ([Return (fst (run m st))], snd (run m st)).
Proof.
  revert st. induction m as [a | X stmt k IH]; intros st.
  - exists 0%nat. reflexivity.
  - simpl. destruct (stmt st) as [x st'] eqn:Hstmt.
    destruct (IH x st') as [n Hn].
    exists (S n). simpl. rewrite Hstmt. exact Hn.
Qed.

(** One after the other, the second reserve of the same item is refused
    with the 409 of an unavailable item. *)
Lemma serial_reserves_conflict :
  map created_status (responses (fst (interleave serial_schedule racing_pool seeded)))
    = [Some 201; Some 409] /\
  List.length (holders 1 (snd (interleave serial_schedule racing_pool seeded)))
    = 1%nat.
Proof. split; reflexivity. Qed.

(** C2, at the failing input.  Alice and Bob reserve the LEGO kit
    concurrently; when both availability checks reach the store before
    either insert, both requests are answered 201, nobody receives the
    409, and the item has two 'active' reservations. *)
Theorem concurrent_reserves_both_succeed :
  map created_status (responses (fst (interleave racing_schedule racing_pool seeded)))
    = [Some 201; Some 201] /\
  map (fun b => (br_user_id b, br_item_id b, br_status b))
    (borrow_records (snd (interleave racing_schedule racing_pool seeded)))
    = [(1, 1, active); (2, 1, active)] /\
  ~ at_most_one_holder (snd (interleave racing_schedule racing_pool seeded)).
Proof.
  split; [reflexivity |]. split; [reflexivity |].
  intros Hone. specialize (Hone 1). vm_compute in Hone. lia.
Qed.

(** * Properties of the handlers around the engine *)

(** ** Reserve, handover and return in sequence *)

Lemma run_confirmHandover (code : string) (st : State) :
  code <> EmptyString ->
  run (confirmHandover (parsed (Some code))) st =
  (match first (rows_of_code code st) with
   | None => fail "Invalid QR code" 404
   | Some b =>
       if Status_eqb (br_status b) active then ok (br_id b) 200
       else fail "Borrow is not active" 400
   end, st).
Proof.
  intros Hcode. unfold confirmHandover.
  destruct code as [| c code]; [contradiction |].
  rewrite run_bind, run_query.
  destruct (first (rows_of_code (String c code) st)) as [b |]; [| reflexivity].
  destruct (Status_eqb (br_status b) active); reflexivity.
Qed.

Lemma fold_max_ge (ids : list Z) (x : Z) :
  In x ids -> x <= fold_right Z.max 0 ids.
Proof.
  induction ids as [| y ids IH]; simpl; [contradiction |].
  intros [-> | Hin]; [lia |]. specialize (IH Hin). lia.
Qed.


Lemma first_None_filter_nil {A : Type} (p : A -> bool) (rows : list A) :
  first (filter p rows) = None -> filter p rows = [].
Proof. unfold first. destruct (filter p rows); [reflexivity | discriminate]. Qed.

Lemma qr_of_not_empty (amb : Ambient) : qr_of amb <> EmptyString.
Proof. unfold qr_of. simpl. discriminate. Qed.

(** The pieces of a created borrow, read off a 201. *)
Lemma createBorrow_created (request : CreateBorrowRequest) (amb : Ambient)
    (st : State) :
  status_code (fst (run (createBorrow request amb) st)) = 201 ->
  exists uid iid body item due,
    truthy (userId request) = Some uid /\
    create_body request = parsed body /\
    truthy (item_id body) = Some iid /\
    first (item_rows iid st) = Some item /\
    first (borrows_of_item iid active st) = None /\
    run (createBorrow request amb) st =
    (json (mkCreated (next_id (map br_id (borrow_records st))) (qr_of amb)
             (due_of amb (days_of body)) (it_name item)) 201,
     reserved_state uid iid due (qr_of amb) (db_unixepoch amb) st).
Proof.
  intros Hcreated.
  destruct (run_createBorrow_cases request amb st)
    as [(r & Hrun & Hfail) |
        (uid & iid & body & item & u & due & Huid & Hbody & Hiid & _ & _
           & Hitem & _ & Hactive & _ & _ & _ & Hrun)].
  - rewrite Hrun in Hcreated. cbn [fst] in Hcreated.
    apply failure_status in Hfail. lia.
  - exists uid, iid, body, item, due. repeat (split; [assumption |]).
    exact Hrun.
Qed.

(** X1.  After a reserve answered 201, a handover with the returned QR
    code is confirmed for the returned borrow id and writes nothing,
    provided no earlier borrow row carries the same code. *)
Theorem handover_after_reserve (request : CreateBorrowRequest) (amb : Ambient)
    (st : State) (c : Created) (st' : State) :
  run (createBorrow request amb) st = (json c 201, st') ->
  rows_of_code (created_qr_code c) st = [] ->
  run (confirmHandover (parsed (Some (created_qr_code c)))) st' =
  (ok (borrow_id c) 200, st').
Proof.
  intros Hrun Hfresh.
  assert (Hcreated : status_code (fst (run (createBorrow request amb) st)) = 201)
    by (rewrite Hrun; reflexivity).
  destruct (createBorrow_created request amb st Hcreated)
    as (uid & iid & body & item & due & _ & _ & _ & _ & _ & Hrun').
  rewrite Hrun' in Hrun. injection Hrun as <- <-.
  cbn [created_qr_code borrow_id] in *.
  rewrite run_confirmHandover by apply qr_of_not_empty.
  unfold rows_of_code in *. unfold reserved_state. cbn [borrow_records
    kv_delete mark_item insert_borrow snd set_kv set_items set_borrow_records].
  rewrite filter_app, Hfresh. cbn [filter app br_qr_code].
  rewrite String.eqb_refl. reflexivity.
Qed.

Lemma handover_after_reserve_witness :
  run (confirmHandover (parsed (Some "LOT-3F2A9C1E"%string))) lego_held =
  (ok 1 200, lego_held).
Proof.
  apply (handover_after_reserve (reserve_request 1 1 7) (at_ms 1000000) seeded
           (mkCreated 1 "LOT-3F2A9C1E" (whole 605800) "LEGO Mindstorms EV3") lego_held);
    reflexivity.
Defined.

Lemma borrow_records_returned_state (bid now : Z) (body : ReturnBody)
    (borrow : BorrowRecord) (st : State) :
  borrow_records (returned_state bid now body borrow st) =
  borrow_records
    (mark_returned bid (now / 1000) (notes_or_null (condition_notes body)) st).
Proof.
  unfold returned_state.
  destruct (String.eqb (condition_of body) "damaged"); reflexivity.
Qed.

(** The pieces of a concluded borrow, read off a 200. *)
Lemma returnItem_returned (request : ReturnRequest) (now : Z) (st : State) :
  status_code (fst (run (returnItem request now) st)) = 200 ->
  exists bid body borrow,
    params_id request = Some (row_id bid) /\
    return_body request = parsed body /\
    first (borrow_rows bid st) = Some borrow /\
    br_status borrow <> returned /\
    run (returnItem request now) st =
    (json (condition_of body) 200, returned_state bid now body borrow st).
Proof.
  intros Hok.
  destruct (run_returnItem_cases request now st)
    as [(r & Hrun & Hfail) | Hdone]; [| exact Hdone].
  rewrite Hrun in Hok. cbn [fst] in Hok.
  apply failure_status in Hfail. lia.
Qed.

(** The row a lookup finds after [mark_returned], for a lookup by a
    column the update leaves alone. *)
Lemma first_after_mark_returned (p : BorrowRecord -> bool) (bid now : Z)
    (notes : option string) (st : State) :
  (forall b s r n, p (mkBorrow (br_id b) (br_user_id b) (br_item_id b)
                        (br_borrowed_at b) (br_due_at b) r n (br_qr_code b) s)
                   = p b) ->
  first (filter p (borrow_records (mark_returned bid now notes st))) =
  option_map
    (fun b => if br_id b =? bid
              then mkBorrow (br_id b) (br_user_id b) (br_item_id b)
                     (br_borrowed_at b) (br_due_at b) (Some now) notes
                     (br_qr_code b) returned
              else b)
    (first (filter p (borrow_records st))).
Proof.
  intros Hstable. unfold mark_returned. simpl.
  apply first_filter_update_where. intros b. apply Hstable.
Qed.

(** X2.  Once a borrow is concluded or overdue its handover code is
    refused: if the code leads to borrow [b], then after a successful
    returnItem of [b], and likewise after a sweep that finds [b] active
    and past its due time, confirmHandover answers 400 'Borrow is not
    active'. *)
Theorem handover_refused_once_concluded (st : State) (code : string)
    (b : BorrowRecord) :
  code <> EmptyString ->
  first (rows_of_code code st) = Some b ->
  (forall request now,
     params_id request = Some (row_id (br_id b)) ->
     status_code (fst (run (returnItem request now) st)) = 200 ->
     fst (run (confirmHandover (parsed (Some code)))
            (snd (run (returnItem request now) st))) =
     fail "Borrow is not active" 400) /\
  (forall now_ms,
     br_status b = active ->
     (br_due_at b < inject_Z (now_ms / 1000))%Q ->
     fst (run (confirmHandover (parsed (Some code)))
            (snd (run (getOverdueBorrows now_ms) st))) =
     fail "Borrow is not active" 400).
Proof.
  intros Hcode Hfirst. split.
  - intros request now Hid Hok.
    destruct (returnItem_returned request now st Hok)
      as (bid & body & borrow & Hid' & _ & _ & _ & Hrun).
    assert (bid = br_id b) by congruence. subst bid.
    rewrite Hrun, run_confirmHandover by exact Hcode. cbn [fst snd].
    unfold rows_of_code in *.
    rewrite borrow_records_returned_state.
    rewrite first_after_mark_returned by reflexivity.
    rewrite Hfirst. cbn [option_map]. rewrite Z.eqb_refl. reflexivity.
  - intros now_ms Hactive Hdue.
    rewrite run_getOverdueBorrows, run_confirmHandover by exact Hcode.
    cbn [fst snd]. unfold rows_of_code in *. unfold mark_overdue.
    cbn [snd borrow_records set_borrow_records].
    rewrite first_filter_update_where by reflexivity.
    rewrite Hfirst. cbn [option_map].
    assert (Hd : is_due (now_ms / 1000) b = true)
      by (apply is_due_spec; split; assumption).
    rewrite Hd. reflexivity.
Qed.

Lemma handover_refused_once_concluded_witness :
  fst (run (confirmHandover (parsed (Some "LOT-3F2A9C1E"%string)))
         (snd (run (returnItem (return_request 1 "good") 3000000) lego_held))) =
  fail "Borrow is not active" 400.
Proof.
  apply (proj1 (handover_refused_once_concluded lego_held "LOT-3F2A9C1E"
                  (mkBorrow 1 1 1 1000 (inject_Z 605800) None None "LOT-3F2A9C1E" active)
                  ltac:(discriminate) eq_refl)
           (return_request 1 "good") 3000000 eq_refl eq_refl).
Defined.

(** X3.  A borrow is returned once: after a successful returnItem, a
    further returnItem whose path id selects the same row never succeeds
    and writes nothing, so no second trust change is applied.  With a
    body that parses to anything but null it is answered 400 'Item
    already returned'; a malformed body is answered 400 'Invalid JSON
    body' and the body null makes the handler throw.  A path id in which
    Number reads a number but which selects no row is answered 404 in
    place of the 400 'Item already returned'. *)
Theorem returnItem_twice (request request' : ReturnRequest) (now now' : Z)
    (st : State) :
  status_code (fst (run (returnItem request now) st)) = 200 ->
  let st' := snd (run (returnItem request now) st) in
  (params_id request' = params_id request ->
   run (returnItem request' now') st' =
   (match return_body request' with
    | malformed => error InvalidJSONBody 400
    | json_null => thrown TypeError
    | parsed _ => error AlreadyReturned 400
    end, st')) /\
  (params_id request' = Some no_row_id ->
   run (returnItem request' now') st' =
   (match return_body request' with
    | malformed => error InvalidJSONBody 400
    | json_null => thrown TypeError
    | parsed _ => error BorrowNotFound 404
    end, st')).
Proof.
  intros Hok st'. subst st'. split.
  - intros Hsame.
    destruct (returnItem_returned request now st Hok)
      as (bid & body & borrow & Hid & _ & Hborrow & _ & Hrun).
    rewrite Hrun. cbn [snd]. unfold returnItem at 1.
    rewrite Hsame, Hid.
    destruct (return_body request') as [| | body'];
      [reflexivity | reflexivity |].
    rewrite run_bind, run_query. cbn [borrow_rows_by].
    unfold borrow_rows in *.
    rewrite borrow_records_returned_state.
    rewrite first_after_mark_returned by reflexivity.
    rewrite Hborrow. cbn [option_map].
    apply first_filter_Some in Hborrow. destruct Hborrow as [_ Hbid].
    rewrite Hbid. reflexivity.
  - intros Hnone. unfold returnItem at 1. rewrite Hnone.
    destruct (return_body request'); reflexivity.
Qed.

Lemma returnItem_twice_witness :
  run (returnItem (return_request 1 "damaged") 4000000)
    (snd (run (returnItem (return_request 1 "good") 3000000) lego_held)) =
  (error AlreadyReturned 400,
   snd (run (returnItem (return_request 1 "good") 3000000) lego_held)).
Proof.
  apply (proj1 (returnItem_twice (return_request 1 "good")
                  (return_request 1 "damaged") 3000000 4000000 lego_held
                  eq_refl) eq_refl).
Defined.

Lemma first_item_rows_mark_item (iid a : Z) (st : State) (item : Item) :
  first (item_rows iid st) = Some item ->
  first (item_rows iid (mark_item iid a st)) = Some (set_available item a).
Proof.
  intros Hitem. unfold item_rows, mark_item in *. simpl.
  rewrite first_filter_update_where by reflexivity.
  rewrite Hitem. simpl.
  apply first_filter_Some in Hitem. destruct Hitem as [_ Hid].
  rewrite Hid. reflexivity.
Qed.

(** X4.  One after the other, an item is reserved once: after a reserve
    of an item answered 201, every further well-formed reserve of the
    same item, by any authenticated user, is answered 409 'Item is not
    available for borrowing' and writes nothing. *)
Theorem second_reserve_conflicts (request request' : CreateBorrowRequest)
    (amb amb' : Ambient) (st : State) (body body' : CreateBorrowBody)
    (uid' iid : Z) :
  status_code (fst (run (createBorrow request amb) st)) = 201 ->
  create_body request = parsed body ->
  truthy (item_id body) = Some iid ->
  truthy (userId request') = Some uid' ->
  create_body request' = parsed body' ->
  truthy (item_id body') = Some iid ->
  out_of_range (days_of body') = false ->
  run (createBorrow request' amb') (snd (run (createBorrow request amb) st)) =
  (error ItemNotAvailable 409, snd (run (createBorrow request amb) st)).
Proof.
  intros Hcreated Hbody Hiid Huid' Hbody' Hiid' Hdays.
  destruct (createBorrow_created request amb st Hcreated)
    as (uid & iid0 & body0 & item & due & _ & Hbody0 & Hiid0 & Hitem & _
          & Hrun).
  assert (body0 = body) by congruence. subst body0.
  assert (iid0 = iid) by congruence. subst iid0.
  rewrite Hrun. cbn [snd].
  set (st1 := reserved_state uid iid due (qr_of amb) (db_unixepoch amb) st).
  assert (Hitem1 : first (item_rows iid st1) = Some (set_available item 0)).
  { apply (first_item_rows_mark_item iid 0
             (snd (insert_borrow uid iid (Some due)
                     (qr_of amb) (db_unixepoch amb) st)) item).
    exact Hitem. }
  assert (Hflag1 : flag_set iid st1 = false)
    by (unfold flag_set; rewrite Hitem1; reflexivity).
  unfold createBorrow. rewrite Huid', Hbody', Hiid'. fold (days_of body').
  fold (out_of_range (days_of body')).
  rewrite Hdays, run_bind, run_query, Hitem1.
  rewrite run_bind, run_isItemAvailable, Hflag1. reflexivity.
Qed.

Lemma second_reserve_conflicts_witness :
  run (createBorrow (reserve_request 2 1 3) (at_ms 2000000)) lego_held =
  (error ItemNotAvailable 409, lego_held).
Proof.
  apply (second_reserve_conflicts (reserve_request 1 1 7)
           (reserve_request 2 1 3) (at_ms 1000000) (at_ms 2000000) seeded
           (mkCreateBorrowBody (Some 1) (Some (whole 7)))
           (mkCreateBorrowBody (Some 1) (Some (whole 3))) 2 1);
    reflexivity.
Defined.



(** ** The answer of the overdue sweep *)

Lemma insert_by_due_In (x b : BorrowRecord * string)
    (l : list (BorrowRecord * string)) :
  In x (insert_by_due b l) <-> x = b \/ In x l.
Proof.
  induction l as [| c l IH]; simpl.
  - intuition congruence.
  - destruct (Qltb (br_due_at (fst b)) (br_due_at (fst c))); simpl.
    + intuition congruence.
    + rewrite IH. intuition congruence.
Qed.

Lemma insert_by_due_sorted (b : BorrowRecord * string)
    (l : list (BorrowRecord * string)) :
  Sorted due_le l -> Sorted due_le (insert_by_due b l).
Proof.
  induction l as [| c l IH]; intros Hsorted; simpl.
  - repeat constructor.
  - destruct (Qltb (br_due_at (fst b)) (br_due_at (fst c))) eqn:Hlt.
    + apply Qltb_lt in Hlt. constructor; [exact Hsorted |].
      constructor. unfold due_le. apply Qlt_le_weak. exact Hlt.
    + apply Qltb_ge in Hlt. inversion Hsorted as [| ? ? Htail Hhd]; subst.
      constructor; [apply IH; exact Htail |].
      destruct l as [| d l]; simpl.
      * constructor. exact Hlt.
      * destruct (Qltb (br_due_at (fst b)) (br_due_at (fst d))).
        -- constructor. exact Hlt.
        -- inversion Hhd; subst. constructor. assumption.
Qed.

Lemma sorted_rows_In (x : BorrowRecord * string)
    (l : list (BorrowRecord * string)) :
  In x (fold_right insert_by_due [] l) <-> In x l.
Proof.
  induction l as [| b l IH]; simpl; [reflexivity |].
  rewrite insert_by_due_In, IH. intuition congruence.
Qed.

Lemma sorted_rows_sorted (l : list (BorrowRecord * string)) :
  Sorted due_le (fold_right insert_by_due [] l).
Proof.
  induction l as [| b l IH]; simpl; [constructor |].
  apply insert_by_due_sorted. exact IH.
Qed.

Lemma overdue_rows_In (st : State) (b : BorrowRecord) (name : string) :
  In (b, name) (overdue_rows st) <->
  In b (borrow_records st) /\ br_status b = overdue /\
  user_rows (br_user_id b) st <> [] /\
  exists it, In it (item_rows (br_item_id b) st) /\ it_name it = name.
Proof.
  unfold overdue_rows. rewrite sorted_rows_In, in_flat_map. split.
  - intros (b' & Hb' & Hin). apply filter_In in Hb'. destruct Hb' as [Hrow Hst].
    apply in_flat_map in Hin. destruct Hin as (it & Hit & Hin).
    apply in_map_iff in Hin. destruct Hin as (u & Heq & Hu).
    injection Heq as <- <-.
    repeat split; try assumption.
    + destruct (br_status b'); try discriminate. reflexivity.
    + intros Hnil. rewrite Hnil in Hu. contradiction.
    + exists it. split; [assumption | reflexivity].
  - intros (Hrow & Hst & Hu & it & Hit & <-).
    exists b. split.
    + apply filter_In. split; [exact Hrow |]. rewrite Hst. reflexivity.
    + apply in_flat_map. exists it. split; [exact Hit |].
      destruct (user_rows (br_user_id b) st) as [| u l]; [contradiction |].
      left. reflexivity.
Qed.

(** X6.  The answer of getOverdueBorrows lists only rows of status
    'overdue', in ascending order of due time, and it lists every borrow
    that has an item row and a user row and either was already 'overdue'
    or was 'active' and past its due time when the sweep ran (the row
    then carries the new status). *)
Theorem overdue_answer (now_ms : Z) (st : State) :
  exists rows,
    fst (run (getOverdueBorrows now_ms) st) = json rows 200 /\
    Forall (fun x => br_status (fst x) = overdue) rows /\
    Sorted due_le rows /\
    (forall b it,
       In b (borrow_records st) ->
       In it (item_rows (br_item_id b) st) ->
       user_rows (br_user_id b) st <> [] ->
       (br_status b = overdue -> In (b, it_name it) rows) /\
       (br_status b = active -> (br_due_at b < inject_Z (now_ms / 1000))%Q ->
        In (set_status b overdue, it_name it) rows)).
Proof.
  rewrite run_getOverdueBorrows. cbn [fst].
  set (st' := snd (mark_overdue (now_ms / 1000) st)).
  exists (overdue_rows st'). split; [reflexivity |]. split.
  - apply Forall_forall. intros [b name] Hin.
    apply overdue_rows_In in Hin. simpl. tauto.
  - split; [apply sorted_rows_sorted |].
    intros b it Hrow Hit Huser.
    pose proof (in_map (fun r => if is_due (now_ms / 1000) r
                                 then set_status r overdue else r)
                  _ _ Hrow) as Hrow'.
    change (In (if is_due (now_ms / 1000) b then set_status b overdue else b)
              (borrow_records st')) in Hrow'.
    split.
    + intros Hst. apply overdue_rows_In.
      assert (Hd : is_due (now_ms / 1000) b = false)
        by (unfold is_due; rewrite Hst; reflexivity).
      rewrite Hd in Hrow'.
      repeat split; try assumption. exists it. split; [exact Hit | reflexivity].
    + intros Hst Hdue. apply overdue_rows_In.
      assert (Hd : is_due (now_ms / 1000) b = true)
        by (apply is_due_spec; split; assumption).
      rewrite Hd in Hrow'.
      repeat split; try assumption. exists it. split; [exact Hit | reflexivity].
Qed.

Lemma overdue_answer_witness :
  exists rows,
    fst (run (getOverdueBorrows 700000000) lego_held) = json rows 200 /\
    In (mkBorrow 1 1 1 1000 (inject_Z 605800) None None "LOT-3F2A9C1E" overdue,
        "LEGO Mindstorms EV3"%string) rows.
Proof.
  destruct (overdue_answer 700000000 lego_held) as (rows & Hrows & _ & _ & Hall).
  exists rows. split; [exact Hrows |].
  apply (Hall (mkBorrow 1 1 1 1000 (inject_Z 605800) None None "LOT-3F2A9C1E" active)
           (set_available lego 0)).
  - left. reflexivity.
  - left. reflexivity.
  - discriminate.
  - reflexivity.
  - reflexivity.
Defined.

(** ** The batch availability check *)

Lemma map_get_set (i k : Z) (v : bool) (m : list (Z * bool)) :
  map_get i (map_set k v m) = if k =? i then Some v else map_get i m.
Proof.
  induction m as [| [k' v'] m IH]; simpl.
  - reflexivity.
  - destruct (Z.eqb_spec k' k) as [-> | Hne]; simpl.
    + destruct (k =? i); reflexivity.
    + destruct (Z.eqb_spec k' i) as [-> | Hne'].
      * destruct (Z.eqb_spec k i); [congruence | reflexivity].
      * exact IH.
Qed.

Lemma NoDup_map_filter {A B : Type} (f : A -> B) (q : A -> bool) (l : list A) :
  NoDup (map f l) -> NoDup (map f (filter q l)).
Proof.
  induction l as [| x l IH]; simpl; intros Hnd; [constructor |].
  inversion Hnd as [| ? ? Hnotin Hnd']; subst.
  destruct (q x); simpl; [| apply IH; exact Hnd'].
  constructor; [| apply IH; exact Hnd'].
  intros Hin. apply Hnotin. apply in_map_iff in Hin.
  destruct Hin as (y & Hy & Hin). apply filter_In in Hin.
  apply in_map_iff. exists y. tauto.
Qed.

Lemma filter_filter_implied {A : Type} (p q : A -> bool) (l : list A) :
  (forall x, p x = true -> q x = true) ->
  filter p (filter q l) = filter p l.
Proof.
  intros Himp. induction l as [| x l IH]; simpl; [reflexivity |].
  destruct (q x) eqn:Hq; simpl.
  - rewrite IH. reflexivity.
  - destruct (p x) eqn:Hp; [| exact IH].
    rewrite (Himp x Hp) in Hq. discriminate.
Qed.

Section BatchFold.
Variable g : Item -> bool.

(** The first loop of getItemsAvailability over rows of distinct ids. *)
Lemma map_get_fold_rows (rows : list Item) (acc : list (Z * bool)) (i : Z) :
  NoDup (map it_id rows) ->
  map_get i (fold_left (fun a it => map_set (it_id it) (g it) a) rows acc) =
  match first (filter (fun it => it_id it =? i) rows) with
  | Some it => Some (g it)
  | None => map_get i acc
  end.
Proof.
  revert acc. induction rows as [| r rows IH]; intros acc Hnd; simpl;
    [reflexivity |].
  inversion Hnd as [| ? ? Hnotin Hnd']; subst.
  rewrite (IH _ Hnd'), map_get_set.
  destruct (Z.eqb_spec (it_id r) i) as [Heq | Hne]; simpl; [| reflexivity].
  destruct (first (filter (fun it => it_id it =? i) rows)) as [it |] eqn:Hit;
    [| reflexivity].
  exfalso. apply first_filter_Some in Hit. destruct Hit as [Hin Hid].
  apply Z.eqb_eq in Hid. apply Hnotin. rewrite Heq, <- Hid.
  apply in_map. exact Hin.
Qed.
End BatchFold.

(** The second loop: requested ids without an entry get [false]. *)
Lemma map_get_fold_missing (ids : list Z) (acc : list (Z * bool)) (i : Z) :
  map_get i
    (fold_left (fun a j => if map_has j a then a else map_set j false a) ids acc)
  = match map_get i acc with
    | Some v => Some v
    | None => if includes i ids then Some false else None
    end.
Proof.
  revert acc. induction ids as [| j ids IH]; intros acc; simpl.
  - destruct (map_get i acc); reflexivity.
  - rewrite IH. unfold map_has.
    destruct (map_get j acc) as [vj |] eqn:Hj.
    + destruct (map_get i acc) as [v |] eqn:Hi; [reflexivity |].
      destruct (Z.eqb_spec i j) as [-> | _]; [congruence | reflexivity].
    + rewrite map_get_set.
      destruct (Z.eqb_spec j i) as [-> | Hne].
      * rewrite Hj, Z.eqb_refl. reflexivity.
      * destruct (map_get i acc); [reflexivity |].
        destruct (Z.eqb_spec i j); [congruence | reflexivity].
Qed.

Lemma includes_In (x : Z) (l : list Z) : includes x l = true <-> In x l.
Proof.
  unfold includes. rewrite existsb_exists. split.
  - intros (y & Hin & Heq). apply Z.eqb_eq in Heq. subst. exact Hin.
  - intros Hin. exists x. split; [exact Hin | apply Z.eqb_refl].
Qed.

Lemma borrowed_includes (ids : list Z) (st : State) (i : Z) :
  includes i ids = true ->
  includes i
    (map br_item_id
       (filter (fun b => includes (br_item_id b) ids &&
                         Status_eqb (br_status b) active)
          (borrow_records st))) =
  match first (borrows_of_item i active st) with
  | None => false
  | Some _ => true
  end.
Proof.
  intros Hreq.
  destruct (first (borrows_of_item i active st)) as [b |] eqn:Hb.
  - apply first_filter_Some in Hb. destruct Hb as [Hin Hp].
    apply andb_true_iff in Hp. destruct Hp as [Hid Hactive].
    apply Z.eqb_eq in Hid. apply includes_In. apply in_map_iff.
    exists b. split; [exact Hid |]. apply filter_In. split; [exact Hin |].
    rewrite Hid, Hreq, Hactive. reflexivity.
  - apply first_None_filter_nil in Hb.
    match goal with |- includes i ?l = false => destruct (includes i l) eqn:Hinc end;
      [| reflexivity].
    apply includes_In in Hinc. apply in_map_iff in Hinc.
    destruct Hinc as (b & Hid & Hin). apply filter_In in Hin.
    destruct Hin as [Hin Hp]. apply andb_true_iff in Hp.
    assert (Hmem : In b (borrows_of_item i active st)).
    { apply filter_In. split; [exact Hin |].
      rewrite Hid, Z.eqb_refl. tauto. }
    unfold borrows_of_item in Hmem. rewrite Hb in Hmem. contradiction.
Qed.

(** X7.  With distinct item ids (the primary key), getItemsAvailability
    writes nothing and its map has an entry exactly for the requested
    ids: [false] for an id without item row, and otherwise whether the
    row's flag is 1 and the item has no 'active' borrow.  When every
    flag is 0 or 1 each entry is the answer of isItemAvailable. *)
Theorem getItemsAvailability_entries (itemIds : list Z) (st : State) (i : Z) :
  NoDup (map it_id (items st)) ->
  let result := fst (run (getItemsAvailability itemIds) st) in
  snd (run (getItemsAvailability itemIds) st) = st /\
  (~ In i itemIds -> map_get i result = None) /\
  (In i itemIds ->
   map_get i result =
     Some (match first (item_rows i st) with
           | Some it =>
               (it_available it =? 1) &&
               match first (borrows_of_item i active st) with
               | None => true
               | Some _ => false
               end
           | None => false
           end) /\
   (Forall (fun it => it_available it = 0 \/ it_available it = 1) (items st) ->
    map_get i result = Some (fst (run (isItemAvailable i) st)))).
Proof.
  intros Hnd result. subst result.
  destruct itemIds as [| j ids].
  { simpl. split; [reflexivity |].
    split; [intros _; reflexivity | intros []]. }
  unfold getItemsAvailability.
  rewrite run_bind, run_query, run_bind, run_query. cbn [run fst snd].
  set (itemIds := j :: ids).
  set (rows := filter (fun it => includes (it_id it) itemIds) (items st)).
  set (borrowed := map br_item_id _).
  set (g := fun it : Item =>
              (it_available it =? 1) && negb (includes (it_id it) borrowed)).
  set (result := map_get i (fold_left _ itemIds _)).
  assert (Hentry :
    result =
    match first (filter (fun it => it_id it =? i) rows) with
    | Some it => Some (g it)
    | None => if includes i itemIds then Some false else None
    end).
  { unfold result. rewrite map_get_fold_missing.
    change (fold_left _ rows [])
      with (fold_left (fun a it => map_set (it_id it) (g it) a) rows []).
    rewrite (map_get_fold_rows g) by (apply NoDup_map_filter; exact Hnd).
    destruct (first (filter (fun it => it_id it =? i) rows)); reflexivity. }
  split; [reflexivity |]. split.
  - intros Hnot. rewrite Hentry.
    destruct (first (filter (fun it => it_id it =? i) rows)) as [it |] eqn:Hit.
    + exfalso. apply first_filter_Some in Hit. destruct Hit as [Hin Hid].
      apply filter_In in Hin. destruct Hin as [_ Hinc].
      apply Z.eqb_eq in Hid. rewrite Hid in Hinc.
      apply includes_In in Hinc. contradiction.
    + destruct (includes i itemIds) eqn:Hinc; [| reflexivity].
      apply includes_In in Hinc. contradiction.
  - intros Hreq. apply includes_In in Hreq.
    assert (Hrows : first (filter (fun it => it_id it =? i) rows) =
                    first (item_rows i st)).
    { unfold rows, item_rows. rewrite filter_filter_implied; [reflexivity |].
      intros it Hid. apply Z.eqb_eq in Hid. rewrite Hid. exact Hreq. }
    assert (Hvalue :
      result =
      Some (match first (item_rows i st) with
            | Some it =>
                (it_available it =? 1) &&
                match first (borrows_of_item i active st) with
                | None => true
                | Some _ => false
                end
            | None => false
            end)).
    { rewrite Hentry, Hrows, Hreq.
      destruct (first (item_rows i st)) as [it |] eqn:Hit; [| reflexivity].
      apply first_filter_Some in Hit. destruct Hit as [_ Hid].
      apply Z.eqb_eq in Hid. unfold g. rewrite Hid.
      unfold borrowed. rewrite (borrowed_includes itemIds st i Hreq).
      destruct (first (borrows_of_item i active st)); reflexivity. }
    split; [exact Hvalue |].
    intros Hflags. rewrite Hvalue, run_isItemAvailable. cbn [fst].
    unfold flag_set.
    destruct (first (item_rows i st)) as [it |] eqn:Hit; [| reflexivity].
    apply first_filter_Some in Hit. destruct Hit as [Hin _].
    rewrite Forall_forall in Hflags.
    destruct (Hflags it Hin) as [H0 | H1]; rewrite ?H0, ?H1; reflexivity.
Qed.

Lemma getItemsAvailability_entries_witness :
  map_get 1 (fst (run (getItemsAvailability [1; 9]) lego_held)) = Some false /\
  map_get 2 (fst (run (getItemsAvailability [1; 9]) lego_held)) = None.
Proof.
  assert (Hnd : NoDup (map it_id (items lego_held))).
  { repeat constructor; simpl; intuition discriminate. }
  destruct (getItemsAvailability_entries [1; 9] lego_held 1 Hnd)
    as (_ & _ & Hin).
  destruct (getItemsAvailability_entries [1; 9] lego_held 2 Hnd)
    as (_ & Hout & _).
  split.
  - apply (proj1 (Hin (or_introl eq_refl))).
  - apply Hout. simpl. intuition discriminate.
Defined.

(** ** The availability cache *)

Lemma kv_get_put (j i : Z) (v : bool) (st : State) :
  kv_get j (kv_put i v st) = if j =? i then Some v else kv_get j st.
Proof.
  unfold kv_get, kv_put. simpl. rewrite (Z.eqb_sym i j).
  destruct (Z.eqb_spec j i) as [-> | Hne]; [reflexivity |].
  rewrite filter_filter_implied; [reflexivity |].
  intros e He. apply Z.eqb_eq in He. rewrite He.
  apply negb_true_iff. apply Z.eqb_neq. exact Hne.
Qed.

Lemma kv_get_delete (j i : Z) (st : State) :
  kv_get j (kv_delete i st) = if j =? i then None else kv_get j st.
Proof.
  unfold kv_get, kv_delete. simpl.
  destruct (Z.eqb_spec j i) as [-> | Hne].
  - destruct (filter _ (filter _ (kv st))) as [| e l] eqn:Hf; [reflexivity |].
    exfalso. assert (Hin : In e (e :: l)) by now left.
    rewrite <- Hf in Hin. apply filter_In in Hin. destruct Hin as [Hin He].
    apply filter_In in Hin. destruct Hin as [_ Hne]. rewrite He in Hne.
    discriminate.
  - rewrite filter_filter_implied; [reflexivity |].
    intros e He. apply Z.eqb_eq in He. rewrite He.
    apply negb_true_iff. apply Z.eqb_neq. exact Hne.
Qed.

(** X8.  getCachedAvailability reads through: on a coherent cache it
    answers what isItemAvailable answers, leaves the four tables alone,
    and afterwards holds that answer for the item while the cache is
    still coherent. *)
Theorem getCachedAvailability_read_through (iid : Z) (st : State) :
  cache_coherent st ->
  let answer := fst (run (getCachedAvailability iid) st) in
  let st' := snd (run (getCachedAvailability iid) st) in
  answer = fst (run (isItemAvailable iid) st) /\
  kv_get iid st' = Some answer /\
  (users st' = users st /\ items st' = items st /\
   subscriptions st' = subscriptions st /\
   borrow_records st' = borrow_records st) /\
  cache_coherent st'.
Proof.
  intros Hcoh answer st'. subst answer st'. unfold getCachedAvailability.
  rewrite run_bind, run_query.
  destruct (kv_get iid st) as [v |] eqn:Hhit.
  - cbn [run fst snd]. split; [symmetry; apply Hcoh; exact Hhit |].
    split; [exact Hhit |]. split; [repeat split | exact Hcoh].
  - rewrite run_bind, run_isItemAvailable, run_bind, run_exec. cbn [run fst snd].
    split; [reflexivity |]. split; [rewrite kv_get_put, Z.eqb_refl; reflexivity |].
    split; [repeat split |].
    intros j v Hj. rewrite kv_get_put in Hj.
    rewrite run_isItemAvailable. cbn [fst].
    change (flag_set j (kv_put iid ?a st)) with (flag_set j st).
    change (borrows_of_item j active (kv_put iid ?a st))
      with (borrows_of_item j active st).
    destruct (Z.eqb_spec j iid) as [-> | Hne].
    + injection Hj as <-. reflexivity.
    + specialize (Hcoh j v Hj). rewrite run_isItemAvailable in Hcoh.
      exact Hcoh.
Qed.

Lemma no_cache_coherent (st : State) : kv st = [] -> cache_coherent st.
Proof.
  intros Hkv j v Hj. unfold kv_get in Hj. rewrite Hkv in Hj. discriminate.
Qed.

Lemma getCachedAvailability_read_through_witness :
  fst (run (getCachedAvailability 1) lego_held) = false /\
  kv_get 1 (snd (run (getCachedAvailability 1) lego_held)) = Some false.
Proof.
  destruct (getCachedAvailability_read_through 1 lego_held
              (no_cache_coherent lego_held eq_refl))
    as (Hanswer & Hstored & _).
  split; [exact Hanswer | exact Hstored].
Defined.

(** An item's availability is the same in two stores that agree on its
    flag, provided the later store has no 'active' borrow of it when the
    earlier has none. *)
Lemma availability_stable (j : Z) (st st' : State) :
  held_items_flagged st ->
  flag_set j st' = flag_set j st ->
  (borrows_of_item j active st = [] -> borrows_of_item j active st' = []) ->
  fst (run (isItemAvailable j) st') = fst (run (isItemAvailable j) st).
Proof.
  intros Hflagged Hflag Hactive. rewrite !run_isItemAvailable. cbn [fst].
  rewrite Hflag. destruct (flag_set j st) eqn:Hset; [| reflexivity].
  assert (Hnone : borrows_of_item j active st = []).
  { apply no_holder_no_active_borrow.
    destruct (holders j st) as [| b l] eqn:Hh; [reflexivity |].
    assert (Hne : holders j st <> []) by (rewrite Hh; discriminate).
    apply Hflagged in Hne. congruence. }
  rewrite (Hactive Hnone), Hnone. reflexivity.
Qed.

(** X9.  The core operations keep the availability cache coherent: in a
    state where held items are flagged unavailable and every cached
    entry is the current answer of isItemAvailable, this is still so
    after createBorrow, returnItem or the sweep of getOverdueBorrows,
    each run alone. *)
Theorem core_operations_keep_cache_coherent (st : State) (op : Operation) :
  held_items_flagged st ->
  cache_coherent st ->
  cache_coherent (apply_op op st).
Proof.
  intros Hflagged Hcoh. destruct op as [request amb | request now | now];
    cbn [apply_op].
  - destruct (run_createBorrow_cases request amb st)
      as [(r & Hrun & _) |
          (uid & iid & body & item & u & due & _ & _ & _ & _ & _ & _ & _ & _
             & _ & _ & _ & Hrun)];
      rewrite Hrun; cbn [snd]; [exact Hcoh |].
    intros j v Hj. unfold reserved_state in *. rewrite kv_get_delete in Hj.
    destruct (Z.eqb_spec j iid) as [-> | Hne]; [discriminate |].
    change (kv_get j st = Some v) in Hj. rewrite <- (Hcoh j v Hj).
    apply availability_stable; [exact Hflagged | |].
    + change (flag_set j (kv_delete iid ?s)) with (flag_set j s).
      rewrite flag_set_mark_item.
      destruct (Z.eqb_spec j iid); [contradiction | reflexivity].
    + intros Hnone. unfold borrows_of_item in *. cbn [borrow_records kv_delete
        mark_item insert_borrow snd set_kv set_items set_borrow_records].
      rewrite filter_app, Hnone. simpl.
      destruct (Z.eqb_spec iid j); [congruence | reflexivity].
  - destruct (run_returnItem_cases request now st)
      as [(r & Hrun & _) | (bid & body & borrow & _ & _ & _ & _ & Hrun)];
      rewrite Hrun; cbn [snd]; [exact Hcoh |].
    intros j v Hj.
    assert (Hkv : kv_get j (returned_state bid now body borrow st) =
                  kv_get j (kv_delete (br_item_id borrow) st)).
    { unfold returned_state.
      destruct (String.eqb (condition_of body) "damaged"); reflexivity. }
    rewrite Hkv, kv_get_delete in Hj.
    destruct (Z.eqb_spec j (br_item_id borrow)) as [-> | Hne]; [discriminate |].
    rewrite <- (Hcoh j v Hj).
    apply availability_stable; [exact Hflagged | |].
    + apply flag_set_returned_state. exact Hne.
    + intros Hnone. unfold borrows_of_item in *.
      rewrite borrow_records_returned_state. unfold mark_returned.
      cbn [borrow_records set_borrow_records].
      rewrite filter_update_where_drop
        by (intros; cbn [br_status Status_eqb]; apply andb_false_r).
      rewrite Hnone. reflexivity.
  - rewrite run_getOverdueBorrows. cbn [snd].
    intros j v Hj. change (kv_get j st = Some v) in Hj.
    rewrite <- (Hcoh j v Hj).
    apply availability_stable; [exact Hflagged | reflexivity |].
    intros Hnone. unfold borrows_of_item in *. unfold mark_overdue.
    cbn [snd borrow_records set_borrow_records].
    rewrite filter_update_where_drop.
    + rewrite Hnone. reflexivity.
    + intros b _. cbn [set_status br_status Status_eqb]. apply andb_false_r.
Qed.

Lemma lego_held_cached_coherent : cache_coherent lego_held_cached.
Proof.
  intros j v. unfold kv_get, lego_held_cached, lego_held. cbn -[Z.eqb].
  destruct (Z.eqb_spec 2 j) as [<- | Hne]; [| discriminate].
  intros Hv. injection Hv as <-. reflexivity.
Qed.

Lemma core_operations_keep_cache_coherent_witness :
  cache_coherent
    (apply_op (Reserve (reserve_request 2 2 7) (at_ms 2000000)) lego_held_cached).
Proof.
  apply (core_operations_keep_cache_coherent lego_held_cached
           (Reserve (reserve_request 2 2 7) (at_ms 2000000)) lego_held_flagged
           lego_held_cached_coherent).
Defined.

(** ** Subscriptions *)

(** Every run of createSubscription either fails and leaves the store as
    it was, or rewrites the user's rows, or inserts the user's first
    row. *)
Lemma run_createSubscription_cases (body : Body SubscriptionBody)
    (now_ms : Z) (st : State) :
  (exists r, run (createSubscription body now_ms) st = (r, st) /\
             forall d c, r <> ok d c) \/
  (exists b uid plan p,
     body = parsed b /\
     truthy (body_user_id b) = Some uid /\
     body_plan b = Some plan /\
     PLANS plan = Some p /\
     first (user_rows uid st) <> None /\
     ((first (subscription_rows uid st) <> None /\
       run (createSubscription body now_ms) st =
       (ok plan 200, update_subscription uid plan p (expiry_of plan now_ms) st))
      \/
      (first (subscription_rows uid st) = None /\
       run (createSubscription body now_ms) st =
       (ok plan 201, insert_subscription uid plan p (expiry_of plan now_ms) st)))).
Proof.
  unfold createSubscription.
  destruct body as [| | b];
    [left; eexists; split; [reflexivity | discriminate]
    |left; eexists; split; [reflexivity | discriminate] |].
  destruct (truthy (body_user_id b)) as [uid |] eqn:Huid;
    [| left; eexists; split; [reflexivity | discriminate]].
  destruct (body_plan b) as [plan |] eqn:Hplan;
    [| left; eexists; split; [reflexivity | discriminate]].
  destruct (PLANS plan) as [p |] eqn:Hp;
    [| left; eexists; split; [reflexivity | discriminate]].
  rewrite run_bind, run_query.
  destruct (first (user_rows uid st)) as [u |] eqn:Hu;
    [| left; eexists; split; [reflexivity | discriminate]].
  rewrite run_bind, run_query. fold (expiry_of plan now_ms).
  right. exists b, uid, plan, p.
  repeat (split; [first [reflexivity | assumption] |]).
  split; [rewrite Hu; discriminate |].
  destruct (first (subscription_rows uid st)) as [s |] eqn:Hs.
  - left. split; [discriminate | reflexivity].
  - right. split; reflexivity.
Qed.

Lemma first_subscription_after_update (uid : Z) (plan : string) (p : Plan)
    (exp : option Z) (st : State) (s : Subscription) :
  first (subscription_rows uid st) = Some s ->
  first (subscription_rows uid (update_subscription uid plan p exp st)) =
  Some (mkSubscription uid plan (pl_max_items p) (pl_max_risk_level p) exp).
Proof.
  intros Hs. unfold subscription_rows, update_subscription in *. simpl.
  rewrite first_filter_update_where by reflexivity.
  rewrite Hs. simpl.
  apply first_filter_Some in Hs. destruct Hs as [_ Hid].
  rewrite Hid. apply Z.eqb_eq in Hid. rewrite Hid. reflexivity.
Qed.

Lemma first_subscription_after_insert (uid : Z) (plan : string) (p : Plan)
    (exp : option Z) (st : State) :
  first (subscription_rows uid st) = None ->
  first (subscription_rows uid (insert_subscription uid plan p exp st)) =
  Some (mkSubscription uid plan (pl_max_items p) (pl_max_risk_level p) exp).
Proof.
  intros Hnone. apply first_None_filter_nil in Hnone.
  unfold subscription_rows, insert_subscription in *. simpl.
  rewrite filter_app, Hnone. simpl. rewrite Z.eqb_refl. reflexivity.
Qed.

(** X10.  A subscription takes effect at once.  After createSubscription
    answered 200 or 201 for a user and a plan at a clock reading of
    [now_ms >= 0], canUserBorrowItem decides for that user with the
    plan's max_items and max_risk_level, and answers 'Subscription
    expired' exactly from the moment the clock is past 30 days after the
    subscription; never for BASIC. *)
Theorem subscription_takes_effect (b : SubscriptionBody) (now_ms : Z)
    (st : State) (uid : Z) (plan : string) (p : Plan) (t : Z) (risk : string) :
  0 <= now_ms ->
  truthy (body_user_id b) = Some uid ->
  body_plan b = Some plan ->
  PLANS plan = Some p ->
  first (user_rows uid st) <> None ->
  let st' := snd (run (createSubscription (parsed b) now_ms) st) in
  run (canUserBorrowItem t uid risk) st' =
  (if match expiry_of plan now_ms with
      | None => false
      | Some e => e * 1000 <? t
      end
   then (false, Some SubscriptionExpired)
   else if Z.of_nat (List.length (activeBorrows uid st)) >=? pl_max_items p
   then (false, Some (MaximumItems (pl_max_items p)))
   else if indexOf riskLevels risk >? indexOf riskLevels (pl_max_risk_level p)
   then (false, Some (RiskNotAllowed (pl_max_risk_level p) risk))
   else (true, None), st').
Proof.
  intros Hnow Huid Hplan Hp Huser st'. subst st'.
  assert (Hfirst :
    first (subscription_rows uid
             (snd (run (createSubscription (parsed b) now_ms) st))) =
    Some (mkSubscription uid plan (pl_max_items p) (pl_max_risk_level p)
            (expiry_of plan now_ms)) /\
    activeBorrows uid (snd (run (createSubscription (parsed b) now_ms) st)) =
    activeBorrows uid st).
  { destruct (run_createSubscription_cases (parsed b) now_ms st)
      as [(r & Hrun & Hnot) |
          (b' & uid' & plan' & p' & Hb & Huid' & Hplan' & Hp' & _ & Hcase)].
    - exfalso. revert Hrun. unfold createSubscription.
      rewrite Huid, Hplan, Hp, run_bind, run_query.
      destruct (first (user_rows uid st)); [| contradiction].
      rewrite run_bind, run_query.
      destruct (first (subscription_rows uid st)); intros Hrun;
        injection Hrun as <- _; eapply Hnot; reflexivity.
    - injection Hb as <-.
      assert (uid' = uid) by congruence. assert (plan' = plan) by congruence.
      subst uid' plan'. assert (p' = p) by congruence. subst p'.
      destruct Hcase as [[Hsome Hrun] | [Hnone Hrun]]; rewrite Hrun; cbn [snd].
      + destruct (first (subscription_rows uid st)) as [s |] eqn:Hs;
          [| contradiction].
        split; [| reflexivity].
        apply (first_subscription_after_update uid plan p _ st s Hs).
      + split; [| reflexivity].
        apply first_subscription_after_insert. exact Hnone. }
  destruct Hfirst as [Hfirst Hactive].
  rewrite run_canUserBorrowItem. f_equal.
  unfold subscription_verdict. rewrite Hfirst, Hactive.
  cbn [isExpired plan_max_items plan_max_risk sub_expires_at sub_max_items
       sub_max_risk_level].
  assert (Hexp :
    match expiry_of plan now_ms with
    | Some e => negb (e =? 0) && (e * 1000 <? t)
    | None => false
    end =
    match expiry_of plan now_ms with
    | Some e => e * 1000 <? t
    | None => false
    end).
  { unfold expiry_of, thirty_days. destruct (String.eqb plan "BASIC");
      [reflexivity |].
    assert (Hpos : 0 <= now_ms / 1000) by (apply Z.div_pos; lia).
    assert (Hne : (now_ms / 1000 + 30 * 24 * 60 * 60 =? 0) = false)
      by (apply Z.eqb_neq; lia).
    rewrite Hne. reflexivity. }
  rewrite Hexp. reflexivity.
Qed.

Lemma subscription_takes_effect_witness :
  run (canUserBorrowItem 2000000 1 "medium") alice_maker =
  ((true, None), alice_maker).
Proof.
  apply (subscription_takes_effect
           (mkSubscriptionBody (Some 1) (Some "MAKER"%string)) 1000000 seeded
           1 "MAKER" (mkPlan 3 "medium" 1500) 2000000 "medium");
    try reflexivity.
  - lia.
  - discriminate.
Defined.

Lemma subscription_rows_update (uid j : Z) (plan : string) (p : Plan)
    (exp : option Z) (st : State) :
  List.length (subscription_rows j (update_subscription uid plan p exp st)) =
  List.length (subscription_rows j st).
Proof.
  unfold subscription_rows, update_subscription. simpl.
  rewrite filter_update_where_stable by reflexivity.
  apply length_update_where.
Qed.

Lemma run_cancelSubscription (uid : Z) (st : State) :
  run (cancelSubscription (Some (row_id uid))) st =
  match first (subscription_rows uid st) with
  | None => (fail "No subscription found" 404, st)
  | Some _ =>
      (ok tt 200, update_subscription uid "BASIC" (mkPlan 1 "low" 0) None st)
  end.
Proof.
  unfold cancelSubscription. rewrite run_bind, run_query.
  cbn [subscription_rows_by].
  destruct (first (subscription_rows uid st)); reflexivity.
Qed.

(** X11.  createSubscription and cancelSubscription keep at most one
    subscription row per user: a user's existing row is rewritten, and a
    row is inserted only for a user who has none. *)
Theorem subscriptions_stay_unique (st : State) :
  one_subscription_per_user st ->
  (forall body now_ms,
     one_subscription_per_user (snd (run (createSubscription body now_ms) st))) /\
  (forall userId,
     one_subscription_per_user (snd (run (cancelSubscription userId) st))).
Proof.
  intros Hone. split.
  - intros body now_ms.
    destruct (run_createSubscription_cases body now_ms st)
      as [(r & Hrun & _) |
          (b & uid & plan & p & _ & _ & _ & _ & _ &
             [[_ Hrun] | [Hnone Hrun]])];
      rewrite Hrun; cbn [snd]; [exact Hone | |]; intros j.
    + rewrite subscription_rows_update. apply Hone.
    + apply first_None_filter_nil in Hnone.
      unfold subscription_rows, insert_subscription in *. simpl.
      rewrite filter_app, length_app. simpl.
      destruct (Z.eqb_spec uid j) as [<- | Hne]; simpl.
      * rewrite Hnone. simpl. lia.
      * specialize (Hone j). unfold subscription_rows in Hone. lia.
  - intros [[uid |] |]; [| exact Hone | exact Hone].
    rewrite run_cancelSubscription.
    destruct (first (subscription_rows uid st)); cbn [snd]; [| exact Hone].
    intros j. rewrite subscription_rows_update. apply Hone.
Qed.

Lemma subscriptions_stay_unique_witness :
  one_subscription_per_user
    (snd (run (createSubscription
                 (parsed (mkSubscriptionBody (Some 1) (Some "INNOVATOR"%string)))
                 5000000) alice_maker)).
Proof.
  assert (Hone : one_subscription_per_user alice_maker).
  { intros j. unfold subscription_rows, alice_maker. cbn -[Z.eqb].
    destruct (1 =? j); simpl; lia. }
  apply (proj1 (subscriptions_stay_unique alice_maker Hone)).
Defined.

(** X12.  cancelSubscription answers 404 and writes nothing for a user
    without a subscription row; otherwise it answers 200, leaves every
    borrow row as it was, and from then on canUserBorrowItem decides for
    the user with the BASIC limits (one active borrow, 'low' risk) and
    never answers 'Subscription expired'. *)
Theorem cancel_reverts_to_basic (uid : Z) (st : State) (t : Z) (risk : string) :
  let st' := snd (run (cancelSubscription (Some (row_id uid))) st) in
  (first (subscription_rows uid st) = None ->
   run (cancelSubscription (Some (row_id uid))) st =
     (fail "No subscription found" 404, st)) /\
  (first (subscription_rows uid st) <> None ->
   fst (run (cancelSubscription (Some (row_id uid))) st) = ok tt 200 /\
   borrow_records st' = borrow_records st /\
   run (canUserBorrowItem t uid risk) st' =
   (if Z.of_nat (List.length (activeBorrows uid st)) >=? 1
    then (false, Some (MaximumItems 1))
    else if indexOf riskLevels risk >? indexOf riskLevels "low"
    then (false, Some (RiskNotAllowed "low" risk))
    else (true, None), st')).
Proof.
  intros st'. subst st'. rewrite run_cancelSubscription. split.
  - intros Hnone. rewrite Hnone. reflexivity.
  - intros Hsome.
    destruct (first (subscription_rows uid st)) as [s |] eqn:Hs;
      [| contradiction].
    cbn [fst snd]. split; [reflexivity |]. split; [reflexivity |].
    rewrite run_canUserBorrowItem. f_equal. unfold subscription_verdict.
    rewrite (first_subscription_after_update uid "BASIC" (mkPlan 1 "low" 0)
               None st s Hs).
    reflexivity.
Qed.

Lemma cancel_reverts_to_basic_witness :
  run (canUserBorrowItem 2000000 1 "medium")
    (snd (run (cancelSubscription (Some (row_id 1))) alice_maker)) =
  ((false, Some (RiskNotAllowed "low" "medium")),
   snd (run (cancelSubscription (Some (row_id 1))) alice_maker)).
Proof.
  apply (proj2 (cancel_reverts_to_basic 1 alice_maker 2000000 "medium")).
  discriminate.
Defined.

(** X13.  getSubscription reports what canUserBorrowItem enforces: the
    reported max_items and max_risk_level are the limits the check uses
    (the BASIC defaults without a row), a subscription the check treats
    as expired is reported inactive, and one reported inactive is
    expired for the check except at the very millisecond of expiry. *)
Theorem getSubscription_agrees (uid now_ms : Z) (st : State) :
  exists info,
    run (getSubscription (Some (row_id uid)) now_ms) st = (ok info 200, st) /\
    info_max_items info = plan_max_items (first (subscription_rows uid st)) /\
    info_max_risk_level info =
      plan_max_risk (first (subscription_rows uid st)) /\
    (isExpired (first (subscription_rows uid st)) now_ms = true ->
     info_active info = false) /\
    (info_active info = false ->
     isExpired (first (subscription_rows uid st)) now_ms = true \/
     exists s e,
       first (subscription_rows uid st) = Some s /\
       sub_expires_at s = Some e /\ e * 1000 = now_ms).
Proof.
  unfold getSubscription. rewrite run_bind, run_query.
  cbn [subscription_rows_by].
  destruct (first (subscription_rows uid st)) as [s |] eqn:Hs.
  - eexists. split; [reflexivity |]. cbn [info_max_items info_max_risk_level
      info_active plan_max_items plan_max_risk isExpired].
    split; [reflexivity |]. split; [reflexivity |].
    destruct (sub_expires_at s) as [e |] eqn:He.
    + destruct (Z.eqb_spec e 0) as [-> | Hne]; cbn [negb andb orb].
      * split; discriminate.
      * split.
        -- intros Hexp. apply Z.ltb_lt in Hexp. apply Z.ltb_ge. lia.
        -- intros Hinactive. apply Z.ltb_ge in Hinactive.
           destruct (Z.eq_dec (e * 1000) now_ms) as [Heq | Hneq].
           ++ right. exists s, e. repeat split; assumption.
           ++ left. apply Z.ltb_lt. lia.
    + split; discriminate.
  - eexists. split; [reflexivity |]. cbn.
    repeat split; discriminate.
Qed.

Lemma getSubscription_agrees_witness :
  exists info,
    run (getSubscription (Some (row_id 1)) 2593000001) alice_maker
      = (ok info 200, alice_maker) /\
    info_active info = false.
Proof.
  destruct (getSubscription_agrees 1 2593000001 alice_maker)
    as (info & Hrun & _ & _ & Hexpired & _).
  exists info. split; [exact Hrun |]. apply Hexpired. reflexivity.
Defined.

(** ** Levels and trust bands *)

Ltac level_cases :=
  unfold calculateLevel, getXPForNextLevel, reaches, LEVEL_REQUIREMENTS;
  cbn -[Z.geb Z.gtb Z.ltb Z.leb];
  repeat match goal with
         | |- context [?a >=? ?b] =>
             let H := fresh "H" in
             destruct (a >=? b) eqn:H;
             [apply Z.geb_le in H | rewrite Z.geb_leb in H; apply Z.leb_gt in H];
             cbn -[Z.geb Z.gtb Z.ltb Z.leb]
         end.

Lemma calculateLevel_range (xp : Z) : 1 <= calculateLevel xp <= 5.
Proof. level_cases; lia. Qed.

Lemma calculateLevel_thresholds (xp : Z) :
  (calculateLevel xp = 5 /\ 1500 <= xp) \/
  (calculateLevel xp = 4 /\ 700 <= xp < 1500) \/
  (calculateLevel xp = 3 /\ 300 <= xp < 700) \/
  (calculateLevel xp = 2 /\ 100 <= xp < 300) \/
  (calculateLevel xp = 1 /\ xp < 100).
Proof. level_cases; lia. Qed.

Lemma reaches_level (xp level : Z) :
  reaches xp level = true ->
  (level = 1 /\ 0 <= xp) \/ (level = 2 /\ 100 <= xp) \/
  (level = 3 /\ 300 <= xp) \/ (level = 4 /\ 700 <= xp) \/
  (level = 5 /\ 1500 <= xp).
Proof.
  unfold reaches, LEVEL_REQUIREMENTS.
  destruct (Z.eqb_spec level 1); [rewrite Z.geb_le; lia |].
  destruct (Z.eqb_spec level 2); [rewrite Z.geb_le; lia |].
  destruct (Z.eqb_spec level 3); [rewrite Z.geb_le; lia |].
  destruct (Z.eqb_spec level 4); [rewrite Z.geb_le; lia |].
  destruct (Z.eqb_spec level 5); [rewrite Z.geb_le; lia |].
  discriminate.
Qed.

(** X14.  calculateLevel answers a level from 1 to 5 and grows with the
    points; for non-negative points it is the largest level whose
    requirement the points reach, and below level 5 the points are
    short of what getXPForNextLevel names for that level. *)
Theorem calculateLevel_largest (xp : Z) :
  1 <= calculateLevel xp <= 5 /\
  (forall xp', xp <= xp' -> calculateLevel xp <= calculateLevel xp') /\
  (0 <= xp ->
   reaches xp (calculateLevel xp) = true /\
   forall level, reaches xp level = true -> level <= calculateLevel xp) /\
  (calculateLevel xp < 5 ->
   exists n, getXPForNextLevel (calculateLevel xp) = Some n /\ xp < n).
Proof.
  split; [apply calculateLevel_range |]. split.
  - intros xp' Hle.
    pose proof (calculateLevel_thresholds xp).
    pose proof (calculateLevel_thresholds xp'). lia.
  - split.
    + intros Hpos. split.
      * pose proof (calculateLevel_thresholds xp) as
          [[-> H] | [[-> H] | [[-> H] | [[-> H] | [-> H]]]]];
          unfold reaches; cbn -[Z.geb]; apply Z.geb_le; lia.
      * intros level Hreach. apply reaches_level in Hreach.
        pose proof (calculateLevel_thresholds xp). lia.
    + intros Hbelow.
      pose proof (calculateLevel_thresholds xp) as
        [[Hl H] | [[-> H] | [[-> H] | [[-> H] | [-> H]]]]];
        [lia | | | |]; eexists; (split; [reflexivity | lia]).
Qed.

Lemma calculateLevel_largest_witness :
  reaches 250 (calculateLevel 250) = true /\
  exists n, getXPForNextLevel (calculateLevel 250) = Some n /\ 250 < n.
Proof.
  destruct (calculateLevel_largest 250) as (_ & _ & Hlargest & Hnext).
  split.
  - apply (proj1 (Hlargest ltac:(lia))).
  - apply Hnext. vm_compute. reflexivity.
Defined.

Lemma js_geb_whole_r (s : JsNumber) (m : Z) :
  js_geb s (whole m) =
  match extended s with
  | Finite q => negb (Qltb q (inject_Z m))
  | PlusInfinity => true
  | _ => false
  end.
Proof. unfold js_geb. cbn [extended]. destruct (extended s); reflexivity. Qed.

Lemma js_geb_whole_l (s : JsNumber) (m : Z) :
  js_geb (whole m) s =
  match extended s with
  | Finite q => negb (Qltb (inject_Z m) q)
  | MinusInfinity => true
  | _ => false
  end.
Proof. unfold js_geb. cbn [extended]. destruct (extended s); reflexivity. Qed.

(** Decides every comparison of the goal and drops the combinations no
    rational satisfies. *)
Ltac compare_all :=
  repeat match goal with
         | |- context [Qltb ?a ?b] =>
             let H := fresh "H" in
             destruct (Qltb a b) eqn:H;
             [apply Qltb_lt in H | apply Qltb_ge in H];
             unfold Qlt, Qle in H; cbn [Qnum Qden inject_Z] in H;
             try (exfalso; lia)
         end.

Lemma getTrustLevel_in_band (score : JsNumber) (name : string) (band : Band) :
  In (name, band) TRUST_LEVELS ->
  in_band score band = true ->
  getTrustLevel score = name.
Proof.
  unfold getTrustLevel, in_band. cbn [TRUST_LEVELS min_of String.eqb
    Ascii.eqb Bool.eqb band_min]. intros Hin.
  rewrite !js_geb_whole_r, js_geb_whole_l.
  simpl in Hin.
  destruct Hin as [H | [H | [H | [H | [H | []]]]]];
    injection H as <- <-; cbn [band_min band_max];
    destruct (extended score) as [| | q |]; try discriminate;
    compare_all; cbn [negb andb]; intros Hband;
    first [reflexivity | discriminate].
Qed.

Lemma in_band_uncovered (score : JsNumber) :
  (forall name band, In (name, band) TRUST_LEVELS ->
     in_band score band = false) <->
  uncovered score.
Proof.
  unfold uncovered, between. split.
  - intros Hnone.
    pose proof (Hnone _ _ (or_introl eq_refl)) as H0.
    pose proof (Hnone _ _ (or_intror (or_introl eq_refl))) as H1.
    pose proof (Hnone _ _ (or_intror (or_intror (or_introl eq_refl)))) as H2.
    pose proof (Hnone _ _ (or_intror (or_intror (or_intror
                  (or_introl eq_refl))))) as H3.
    pose proof (Hnone _ _ (or_intror (or_intror (or_intror (or_intror
                  (or_introl eq_refl)))))) as H4.
    clear Hnone. unfold in_band in *. cbn [band_min band_max] in *.
    rewrite js_geb_whole_r, js_geb_whole_l in H0, H1, H2, H3, H4.
    destruct (extended score) as [| | q |]; [exact I | exact I | | exact I].
    revert H0 H1 H2 H3 H4. compare_all; cbn [negb andb]; intros;
      try discriminate;
      unfold Qlt, Qle; cbn [Qnum Qden inject_Z]; lia.
  - intros Hun name band Hin. unfold in_band.
    rewrite js_geb_whole_r, js_geb_whole_l.
    destruct (extended score) as [| | q |]; try reflexivity.
    simpl in Hin.
    unfold Qlt, Qle in Hun; cbn [Qnum Qden inject_Z] in Hun.
    destruct Hin as [H | [H | [H | [H | [H | []]]]]];
      injection H as <- <-; cbn [band_min band_max];
      compare_all; reflexivity.
Qed.

Lemma getTrustLevel_uncovered (score : JsNumber) :
  uncovered score ->
  getTrustLevel score =
  match extended score with
  | Finite q =>
      if Qltb q (inject_Z 50) then "UNTRUSTED"
      else if Qltb q (inject_Z 80) then "LOW"
      else if Qltb q (inject_Z 120) then "NORMAL"
      else if Qltb q (inject_Z 160) then "HIGH"
      else "EXCELLENT"
  | PlusInfinity => "EXCELLENT"
  | _ => "UNTRUSTED"
  end%string.
Proof.
  intros _. unfold getTrustLevel. cbn [TRUST_LEVELS min_of String.eqb
    Ascii.eqb Bool.eqb band_min].
  rewrite !js_geb_whole_r.
  destruct (extended score) as [| | q |]; try reflexivity.
  compare_all; reflexivity.
Qed.

(** X15.  getTrustLevel agrees with the TRUST_LEVELS table wherever the
    table covers the score: a score inside a band's [min, max] gets that
    band's key, and every whole score from 0 to 200 is inside the band
    getTrustLevel names.  The bands do not cover every number: a score
    is in no band exactly when it is NaN, infinite, below 0, above 200
    or strictly between two bands; getTrustLevel then still answers,
    with the key of the band below ('UNTRUSTED' below 0 and for NaN,
    'EXCELLENT' above 200). *)
Theorem getTrustLevel_bands (score : JsNumber) :
  (forall name band,
     In (name, band) TRUST_LEVELS ->
     in_band score band = true ->
     getTrustLevel score = name) /\
  (forall z, score = whole z -> 0 <= z <= 200 ->
     exists band,
       In (getTrustLevel score, band) TRUST_LEVELS /\
       in_band score band = true) /\
  ((forall name band, In (name, band) TRUST_LEVELS ->
      in_band score band = false) <->
   uncovered score) /\
  (uncovered score ->
   match extended score with
   | Finite q =>
       ((q < inject_Z 50)%Q -> getTrustLevel score = "UNTRUSTED"%string) /\
       (between 79 80 q -> getTrustLevel score = "LOW"%string) /\
       (between 119 120 q -> getTrustLevel score = "NORMAL"%string) /\
       (between 159 160 q -> getTrustLevel score = "HIGH"%string) /\
       ((inject_Z 200 < q)%Q -> getTrustLevel score = "EXCELLENT"%string)
   | PlusInfinity => getTrustLevel score = "EXCELLENT"%string
   | _ => getTrustLevel score = "UNTRUSTED"%string
   end).
Proof.
  split; [apply getTrustLevel_in_band |]. split.
  - intros z -> Hrange.
    assert (Hsome : ~ uncovered (whole z)).
    { unfold uncovered, between. cbn [extended].
      unfold Qlt; cbn [Qnum Qden inject_Z]. lia. }
    destruct (in_band (whole z) (mkBand 0 49 "Untrusted")) eqn:H0.
    { rewrite (getTrustLevel_in_band _ _ _ (or_introl eq_refl) H0).
      eexists. split; [left; reflexivity | exact H0]. }
    destruct (in_band (whole z) (mkBand 50 79 "Low Trust")) eqn:H1.
    { rewrite (getTrustLevel_in_band _ "LOW" _
                 (or_intror (or_introl eq_refl)) H1).
      eexists. split; [right; left; reflexivity | exact H1]. }
    destruct (in_band (whole z) (mkBand 80 119 "Normal")) eqn:H2.
    { rewrite (getTrustLevel_in_band _ "NORMAL" _
                 (or_intror (or_intror (or_introl eq_refl))) H2).
      eexists. split; [do 2 right; left; reflexivity | exact H2]. }
    destruct (in_band (whole z) (mkBand 120 159 "High Trust")) eqn:H3.
    { rewrite (getTrustLevel_in_band _ "HIGH" _
                 (or_intror (or_intror (or_intror (or_introl eq_refl)))) H3).
      eexists. split; [do 3 right; left; reflexivity | exact H3]. }
    destruct (in_band (whole z) (mkBand 160 200 "Excellent")) eqn:H4.
    { rewrite (getTrustLevel_in_band _ "EXCELLENT" _
                 (or_intror (or_intror (or_intror (or_intror
                    (or_introl eq_refl))))) H4).
      eexists. split; [do 4 right; left; reflexivity | exact H4]. }
    exfalso. apply Hsome. apply in_band_uncovered.
    intros name band Hin. simpl in Hin.
    destruct Hin as [H | [H | [H | [H | [H | []]]]]];
      injection H as <- <-; assumption.
  - split; [apply in_band_uncovered |].
    intros Hun. rewrite (getTrustLevel_uncovered score Hun).
    destruct (extended score) as [| | q |]; try reflexivity.
    unfold between, Qlt; cbn [Qnum Qden inject_Z].
    repeat split; intros; compare_all; reflexivity.
Qed.

Lemma getTrustLevel_bands_witness :
  getTrustLevel (whole 119) = "NORMAL"%string /\
  (exists band,
     In (getTrustLevel (whole 200), band) TRUST_LEVELS /\
     in_band (whole 200) band = true) /\
  extended (half_of 99) = Finite (99 # 2) /\
  (forall name band, In (name, band) TRUST_LEVELS ->
     in_band (half_of 99) band = false) /\
  getTrustLevel (half_of 99) = "UNTRUSTED"%string.
Proof.
  destruct (getTrustLevel_bands (whole 119)) as (Hname & _ & _ & _).
  destruct (getTrustLevel_bands (whole 200)) as (_ & Hcover & _ & _).
  destruct (getTrustLevel_bands (half_of 99)) as (_ & _ & Hnone & Hlabel).
  assert (Hun : uncovered (half_of 99)).
  { unfold uncovered, between. cbn. do 2 right. left.
    split; reflexivity. }
  split.
  - apply (Hname "NORMAL"%string (mkBand 80 119 "Normal")).
    + do 2 right. left. reflexivity.
    + reflexivity.
  - split; [apply (Hcover 200 eq_refl); lia |].
    split; [reflexivity |].
    split; [apply Hnone; exact Hun |].
    apply (proj1 (Hlabel Hun)). reflexivity.
Defined.

(** ** Reward points and level-ups *)

Lemma first_member_update (uid : Z) (f : Member -> Member)
    (members : list Member) :
  (forall m, m_id (f m) = m_id m) ->
  first (member_rows uid (update_where (fun m => m_id m =? uid) f members)) =
  option_map f (first (member_rows uid members)).
Proof.
  intros Hid. unfold member_rows.
  rewrite first_filter_update_where by (intros m; rewrite Hid; reflexivity).
  destruct (first (filter (fun m => m_id m =? uid) members)) as [m |] eqn:Hm;
    [| reflexivity].
  apply first_filter_Some in Hm. destruct Hm as [_ Hm]. simpl.
  rewrite Hm. reflexivity.
Qed.

Lemma other_member_update (uid j : Z) (f : Member -> Member)
    (members : list Member) :
  j <> uid ->
  (forall m, m_id (f m) = m_id m) ->
  member_rows j (update_where (fun m => m_id m =? uid) f members) =
  member_rows j members.
Proof.
  intros Hne Hid. unfold member_rows, update_where.
  induction members as [| m members IH]; simpl; [reflexivity |].
  destruct (Z.eqb_spec (m_id m) uid) as [Heq | Hneq].
  - rewrite Hid.
    destruct (Z.eqb_spec (m_id m) j); [congruence | exact IH].
  - destruct (m_id m =? j); [rewrite IH |]; auto.
Qed.

Lemma checkLevelUp_first (uid : Z) (members : list Member) (u : Member) :
  first (member_rows uid members) = Some u ->
  fst (checkLevelUp uid members) =
    (calculateLevel (m_reward_points u) >? m_level u,
     Z.max (m_level u) (calculateLevel (m_reward_points u))) /\
  first (member_rows uid (snd (checkLevelUp uid members))) =
    Some (mkMember (m_id u)
            (Z.max (m_level u) (calculateLevel (m_reward_points u)))
            (m_reward_points u)) /\
  (forall j, j <> uid ->
     member_rows j (snd (checkLevelUp uid members)) = member_rows j members).
Proof.
  intros Hu. unfold checkLevelUp. rewrite Hu.
  destruct (calculateLevel (m_reward_points u) >? m_level u) eqn:Hup.
  - rewrite Z.gtb_ltb in Hup. apply Z.ltb_lt in Hup. cbn [fst snd].
    rewrite Z.max_r by lia. split; [reflexivity |]. split.
    + rewrite first_member_update by reflexivity. rewrite Hu. reflexivity.
    + intros j Hj. apply other_member_update; [exact Hj | reflexivity].
  - rewrite Z.gtb_ltb in Hup. apply Z.ltb_ge in Hup. cbn [fst snd].
    rewrite Z.max_l by lia. split; [reflexivity |]. split.
    + rewrite Hu. destruct u. reflexivity.
    + reflexivity.
Qed.

(** X16.  An award changes the points by floor(base x multiplier), which
    is negative for RETURN_LATE, and never lowers the level: for an
    existing user the stored points grow by exactly that amount, the
    stored level becomes the larger of the old level and the level of
    the new points, leveledUp says whether it rose, and the rows of
    other users are untouched.  For an unknown user nothing is stored
    and the answer is a total of 0 at level 0. *)
Theorem award_never_lowers_level (uid : Z) (action : Action) (halves : Z)
    (members : list Member) :
  let pts := (XP_REWARDS action * halves) / 2 in
  let answer := fst (awardPoints uid action halves members) in
  let members' := snd (awardPoints uid action halves members) in
  points answer = pts /\
  (forall j, j <> uid -> member_rows j members' = member_rows j members) /\
  (first (member_rows uid members) = None ->
   members' = members /\ answer = mkAward pts 0 false 0) /\
  (forall u,
     first (member_rows uid members) = Some u ->
     first (member_rows uid members') =
       Some (mkMember (m_id u)
               (Z.max (m_level u) (calculateLevel (m_reward_points u + pts)))
               (m_reward_points u + pts)) /\
     totalPoints answer = m_reward_points u + pts /\
     newLevel answer =
       Z.max (m_level u) (calculateLevel (m_reward_points u + pts)) /\
     m_level u <= newLevel answer /\
     (leveledUp answer = true <->
      m_level u < calculateLevel (m_reward_points u + pts))).
Proof.
  intros pts answer members'. subst answer members'. unfold awardPoints.
  fold pts.
  set (f := fun m => mkMember (m_id m) (m_level m) (m_reward_points m + pts)).
  set (members1 := update_where (fun m => m_id m =? uid) f members).
  assert (Hfirst1 : first (member_rows uid members1) =
                    option_map f (first (member_rows uid members)))
    by (apply first_member_update; reflexivity).
  destruct (checkLevelUp uid members1) as [[leveled level'] members2] eqn:Hcheck.
  cbn [fst snd points totalPoints newLevel leveledUp].
  split; [reflexivity |]. split.
  - intros j Hj.
    assert (Hother1 : member_rows j members1 = member_rows j members)
      by (apply other_member_update; [exact Hj | reflexivity]).
    rewrite <- Hother1.
    destruct (first (member_rows uid members1)) as [u1 |] eqn:Hu1.
    + destruct (checkLevelUp_first uid members1 u1 Hu1) as (_ & _ & Hothers).
      rewrite Hcheck in Hothers. apply Hothers. exact Hj.
    + unfold checkLevelUp in Hcheck. rewrite Hu1 in Hcheck.
      injection Hcheck as _ _ <-. reflexivity.
  - split.
    + intros Hnone. rewrite Hnone in Hfirst1. cbn [option_map] in Hfirst1.
      unfold checkLevelUp in Hcheck. rewrite Hfirst1 in *.
      injection Hcheck as <- <- <-. split; [| reflexivity].
      unfold members1, update_where, member_rows in *.
      apply first_None_filter_nil in Hnone. clear Hfirst1.
      induction members as [| m members IH]; simpl; [reflexivity |].
      simpl in Hnone. destruct (m_id m =? uid); [discriminate |].
      rewrite IH by exact Hnone. reflexivity.
    + intros u Hu. rewrite Hu in Hfirst1. cbn [option_map] in Hfirst1.
      rewrite Hfirst1.
      destruct (checkLevelUp_first uid members1 (f u) Hfirst1)
        as (Hanswer & Hrow & _).
      rewrite Hcheck in Hanswer, Hrow. cbn [fst snd] in Hanswer, Hrow.
      injection Hanswer as -> ->.
      unfold f in *. cbn [m_id m_level m_reward_points] in *.
      split; [exact Hrow |]. split; [reflexivity |]. split; [reflexivity |].
      split; [lia |]. rewrite Z.gtb_ltb, Z.ltb_lt. reflexivity.
Qed.

Lemma award_never_lowers_level_witness :
  first (member_rows 2
           (snd (awardPoints 2 RETURN_LATE 3 sample_members))) =
  Some (mkMember 2 4 694).
Proof.
  apply (proj1 (proj2 (proj2 (proj2
           (award_never_lowers_level 2 RETURN_LATE 3 sample_members)))
           (mkMember 2 4 702) eq_refl)).
Defined.

(** X17.  checkLevelUp settles: called again right after itself it
    reports no level-up, the same level, and leaves the table as it is;
    the level it leaves is at least the level of the user's points. *)
Theorem checkLevelUp_settles (uid : Z) (members : list Member) (u : Member) :
  first (member_rows uid members) = Some u ->
  let members' := snd (checkLevelUp uid members) in
  checkLevelUp uid members' =
    ((false, snd (fst (checkLevelUp uid members))), members') /\
  calculateLevel (m_reward_points u) <= snd (fst (checkLevelUp uid members)) /\
  m_level u <= snd (fst (checkLevelUp uid members)).
Proof.
  intros Hu members'. subst members'.
  destruct (checkLevelUp_first uid members u Hu) as (Hanswer & Hrow & _).
  rewrite Hanswer. cbn [fst snd]. split; [| lia].
  unfold checkLevelUp at 1. rewrite Hrow.
  cbn [m_level m_reward_points].
  assert (Hno : (calculateLevel (m_reward_points u) >?
                 Z.max (m_level u) (calculateLevel (m_reward_points u))) = false)
    by (rewrite Z.gtb_ltb; apply Z.ltb_ge; lia).
  rewrite Hno. reflexivity.
Qed.

Lemma checkLevelUp_settles_witness :
  checkLevelUp 1 (snd (checkLevelUp 1 [mkMember 1 2 320])) =
  ((false, 3), snd (checkLevelUp 1 [mkMember 1 2 320])).
Proof.
  apply (proj1 (checkLevelUp_settles 1 [mkMember 1 2 320] (mkMember 1 2 320)
                  eq_refl)).
Defined.

Lemma award_points_amount (uid : Z) (action : Action) (halves : Z)
    (members : list Member) :
  points (fst (awardPoints uid action halves members)) =
  (XP_REWARDS action * halves) / 2.
Proof.
  unfold awardPoints.
  destruct (checkLevelUp uid _) as [[leveled level'] members2].
  reflexivity.
Qed.

Lemma multiplier_amount_bounds (base h : Z) :
  2 <= h <= 4 ->
  (0 <= base -> base <= (base * h) / 2 <= 2 * base) /\
  (base < 0 -> 2 * base <= (base * h) / 2 <= base).
Proof.
  intros Hh. split; intros Hsign.
  - split.
    + apply Z.div_le_lower_bound; nia.
    + apply Z.div_le_upper_bound; nia.
  - split.
    + apply Z.div_le_lower_bound; nia.
    + apply Z.div_le_upper_bound; nia.
Qed.

(** X18.  For every plan text that is not the name of a member the
    table inherits from Object.prototype, getRewardMultiplier answers a
    multiplier between 1.0 and 2.0 (1.0 without a subscription row), so
    that awardPoints, called with it, credits a positive reward with at
    least its base value and at most twice that, and the RETURN_LATE
    penalty with at most its base value and at least twice that.  For
    an inherited name such as 'toString' the lookup finds that member,
    which is not nullish: the default 1.0 is not taken and the answer is
    no number. *)
Theorem award_within_multiplier_bounds (uid : Z) (subs : list Subscription) :
  (~ In (plan_of uid subs) Object_prototype ->
   exists h,
     getRewardMultiplier uid subs = multiplier h /\ 2 <= h <= 4 /\
     forall action members,
       let pts := points (fst (awardPoints uid action h members)) in
       (0 <= XP_REWARDS action ->
        XP_REWARDS action <= pts <= 2 * XP_REWARDS action) /\
       (XP_REWARDS action < 0 ->
        2 * XP_REWARDS action <= pts <= XP_REWARDS action)) /\
  (In (plan_of uid subs) Object_prototype ->
   getRewardMultiplier uid subs = inherited_member (plan_of uid subs)) /\
  (first (filter (fun s => sub_user_id s =? uid) subs) = None ->
   getRewardMultiplier uid subs = multiplier 2).
Proof.
  assert (Hbounds : forall h, 2 <= h <= 4 ->
    forall action members,
      let pts := points (fst (awardPoints uid action h members)) in
      (0 <= XP_REWARDS action ->
       XP_REWARDS action <= pts <= 2 * XP_REWARDS action) /\
      (XP_REWARDS action < 0 ->
       2 * XP_REWARDS action <= pts <= XP_REWARDS action)).
  { intros h Hh action members pts. subst pts.
    rewrite award_points_amount. apply multiplier_amount_bounds. exact Hh. }
  unfold getRewardMultiplier, REWARD_MULTIPLIERS. split; [| split].
  - intros Hown.
    destruct (String.eqb (plan_of uid subs) "BASIC");
      [exists 2; split; [reflexivity | split; [lia | apply Hbounds; lia]] |].
    destruct (String.eqb (plan_of uid subs) "MAKER");
      [exists 3; split; [reflexivity | split; [lia | apply Hbounds; lia]] |].
    destruct (String.eqb (plan_of uid subs) "INNOVATOR");
      [exists 4; split; [reflexivity | split; [lia | apply Hbounds; lia]] |].
    destruct (existsb (String.eqb (plan_of uid subs)) Object_prototype) eqn:Hin.
    + exfalso. apply Hown. apply existsb_exists in Hin.
      destruct Hin as (name & Hname & Heq). apply String.eqb_eq in Heq.
      rewrite Heq. exact Hname.
    + exists 2. split; [reflexivity | split; [lia | apply Hbounds; lia]].
  - intros Hin.
    assert (Hex : existsb (String.eqb (plan_of uid subs)) Object_prototype = true).
    { apply existsb_exists. exists (plan_of uid subs).
      split; [exact Hin | apply String.eqb_refl]. }
    rewrite Hex.
    simpl in Hin.
    repeat (destruct Hin as [<- | Hin]; [reflexivity |]). contradiction.
  - intros Hnone. unfold plan_of. rewrite Hnone. reflexivity.
Qed.

Lemma award_within_multiplier_bounds_witness :
  (exists h,
     getRewardMultiplier 1 [mkSubscription 1 "MAKER" 3 "medium" (Some 2593000)]
       = multiplier h /\
     2 * XP_REWARDS RETURN_LATE <=
       points (fst (awardPoints 1 RETURN_LATE h sample_members))
       <= XP_REWARDS RETURN_LATE) /\
  getRewardMultiplier 1 [mkSubscription 1 "toString" 3 "medium" None]
    = inherited_member "toString".
Proof.
  split.
  - destruct (proj1 (award_within_multiplier_bounds 1
                       [mkSubscription 1 "MAKER" 3 "medium" (Some 2593000)]))
      as (h & Hm & _ & Hpts).
    + simpl. intuition discriminate.
    + exists h. split; [exact Hm |].
      apply (proj2 (Hpts RETURN_LATE sample_members)). simpl. lia.
  - apply (proj1 (proj2 (award_within_multiplier_bounds 1
                           [mkSubscription 1 "toString" 3 "medium" None]))).
    simpl. tauto.
Defined.

(** ** The rate limit *)

Lemma rate_get_put (key key' : string) (v : list Z) (store : RateStore) :
  rate_get key' (rate_put key v store) =
  if String.eqb key key' then Some v else rate_get key' store.
Proof.
  unfold rate_get, rate_put. simpl.
  destruct (String.eqb_spec key key') as [-> | Hne]; [reflexivity |].
  rewrite filter_filter_implied; [reflexivity |].
  intros e He. apply String.eqb_eq in He. rewrite He.
  apply negb_true_iff. apply String.eqb_neq. congruence.
Qed.

Lemma minimum_bound (l : list Z) (w : Z) :
  l <> [] -> Forall (fun t => w < t) l ->
  exists m, minimum l = Some m /\ w < m /\ In m l.
Proof.
  induction l as [| x l IH]; [contradiction |].
  intros _ Hall. inversion Hall as [| ? ? Hx Hl]; subst. simpl.
  destruct l as [| y l'].
  - exists x. simpl. auto.
  - destruct (IH ltac:(discriminate) Hl) as (m & Hm & Hwm & Hin).
    rewrite Hm. exists (Z.min x m). split; [reflexivity |]. split; [lia |].
    destruct (Z.min_spec x m) as [[_ ->] | [_ ->]]; [left | right]; auto.
Qed.

(** X19.  One call of checkRateLimit.  A refused call writes nothing,
    reports 0 remaining and, for a limit of at least one request, a
    reset time after now.  A call let through stores the seconds still
    in the window followed by now, reports how many more fit, which is
    never negative, and a reset time of now.  Either way the entries of
    other keys are untouched. *)
Theorem checkRateLimit_call (key : string) (limit : Limit) (now_ms : Z)
    (store : RateStore) :
  let now := now_ms / 1000 in
  let result := fst (checkRateLimit key limit now_ms store) in
  let store' := snd (checkRateLimit key limit now_ms store) in
  let kept := filter (fun t => t >? now - limit_window limit) (stored key store) in
  (forall key', key' <> key -> rate_get key' store' = rate_get key' store) /\
  (rl_allowed result = false ->
   store' = store /\ rl_remaining result = 0 /\
   limit_requests limit <= Z.of_nat (List.length kept) /\
   (1 <= limit_requests limit ->
    exists r, rl_resetAt result = Some r /\ now < r)) /\
  (rl_allowed result = true ->
   rate_get key store' = Some (kept ++ [now]) /\
   rl_remaining result =
     limit_requests limit - Z.of_nat (List.length kept) - 1 /\
   0 <= rl_remaining result /\
   rl_resetAt result = Some now).
Proof.
  intros now result store' kept. subst result store'.
  unfold checkRateLimit. fold now. fold (stored key store). fold kept.
  destruct (Z.of_nat (List.length kept) >=? limit_requests limit) eqn:Hfull;
    cbn [fst snd rl_allowed rl_remaining rl_resetAt].
  - apply Z.geb_le in Hfull. split; [reflexivity |]. split; [| discriminate].
    intros _. repeat split; [exact Hfull |]. intros Hpos.
    assert (Hne : kept <> []).
    { intros Hnil. rewrite Hnil in Hfull. simpl in Hfull. lia. }
    assert (Hall : Forall (fun t => now - limit_window limit < t) kept).
    { apply Forall_forall. intros t Hin. apply filter_In in Hin.
      destruct Hin as [_ Hgt]. rewrite Z.gtb_ltb in Hgt.
      apply Z.ltb_lt in Hgt. exact Hgt. }
    destruct (minimum_bound kept _ Hne Hall) as (m & Hm & Hwm & _).
    rewrite Hm. exists (m + limit_window limit). split; [reflexivity | lia].
  - rewrite Z.geb_leb in Hfull. apply Z.leb_gt in Hfull. split.
    + intros key' Hne. rewrite rate_get_put.
      destruct (String.eqb_spec key key'); [congruence | reflexivity].
    + split; [discriminate |]. intros _.
      rewrite rate_get_put, String.eqb_refl, length_app. simpl.
      repeat split; try lia. f_equal. lia.
Qed.

Lemma checkRateLimit_call_witness :
  exists r,
    rl_resetAt (fst (checkRateLimit "203.0.113.7" (mkLimit 2 60) 70000
                       [("203.0.113.7"%string, [20; 30])])) = Some r /\
    70 < r.
Proof.
  apply (proj2 (proj2 (proj2 (proj1 (proj2
           (checkRateLimit_call "203.0.113.7" (mkLimit 2 60) 70000
              [("203.0.113.7"%string, [20; 30])])) eq_refl)))).
  simpl. lia.
Defined.

Lemma in_window_app (window t : Z) (l l' : list Z) :
  in_window window t (l ++ l') = in_window window t l ++ in_window window t l'.
Proof. unfold in_window. apply filter_app. Qed.

Section SlidingWindow.
Variables (key : string) (limit : Limit).

(** What the stored array knows of the seconds let through so far is
    enough: it agrees with the full log on every window that can still
    be asked for. *)
Lemma serve_keeps_bound (times : list Z) :
  forall (T : Z) (store : RateStore) (log : list Z),
    Sorted Z.le (T :: times) ->
    (forall x, In x log -> x <= T / 1000) ->
    (forall w, T / 1000 - limit_window limit <= w ->
       filter (fun s => s >? w) (stored key store) =
       filter (fun s => s >? w) log) ->
    (forall t,
       Z.of_nat (List.length (in_window (limit_window limit) t log)) <= Z.max 0 (limit_requests limit)) ->
    forall t,
      Z.of_nat
        (List.length
           (in_window (limit_window limit) t
              (log ++ fst (serve key limit times store)))) <= Z.max 0 (limit_requests limit).
Proof.
  induction times as [| now_ms times IH];
    intros T store log Hsorted Hpast Hagree Hbound t.
  - simpl. rewrite app_nil_r. apply Hbound.
  - inversion Hsorted as [| ? ? Hsorted' Hhd]; subst.
    inversion Hhd as [| ? ? Hle]; subst.
    assert (Hsec : T / 1000 <= now_ms / 1000)
      by (apply Z.div_le_mono; lia).
    set (now := now_ms / 1000) in *.
    cbn [serve].
    destruct (checkRateLimit key limit now_ms store) as [result store1] eqn:Hcall.
    destruct (serve key limit times store1) as [passed store2] eqn:Hrest.
    cbn [fst].
    assert (Hkept :
      filter (fun s => s >? now - limit_window limit) (stored key store) =
      filter (fun s => s >? now - limit_window limit) log)
      by (apply Hagree; lia).
    unfold checkRateLimit in Hcall. fold now in Hcall.
    fold (stored key store) in Hcall. rewrite Hkept in Hcall.
    set (kept := filter (fun s => s >? now - limit_window limit) log) in *.
    destruct (Z.of_nat (List.length kept) >=? limit_requests limit) eqn:Hfull;
      injection Hcall as <- <-; cbn [rl_allowed].
    + (* refused *)
      specialize (IH now_ms store log Hsorted').
      rewrite Hrest in IH. cbn [fst] in IH. apply IH.
      * intros x Hx. specialize (Hpast x Hx). fold now. lia.
      * intros w Hw. apply Hagree. fold now in Hw. lia.
      * exact Hbound.
    + (* let through *)
      rewrite Z.geb_leb in Hfull. apply Z.leb_gt in Hfull.
      specialize (IH now_ms (rate_put key (kept ++ [now]) store) (log ++ [now])
                    Hsorted').
      rewrite Hrest in IH. cbn [fst] in IH.
      change (log ++ (now_ms / 1000 :: passed)) with (log ++ ([now] ++ passed)).
      rewrite app_assoc. apply IH.
      * intros x Hx. apply in_app_or in Hx. fold now.
        destruct Hx as [Hx | [<- | []]]; [specialize (Hpast x Hx) |]; lia.
      * intros w Hw. fold now in Hw. unfold stored.
        rewrite rate_get_put, String.eqb_refl, !filter_app. f_equal.
        unfold kept. apply filter_filter_implied.
        intros s Hs. rewrite Z.gtb_ltb in *. apply Z.ltb_lt in Hs.
        apply Z.ltb_lt. lia.
      * intros t'. rewrite in_window_app, length_app.
        destruct ((t' - limit_window limit <? now) && (now <=? t')) eqn:Hin;
          unfold in_window at 2; cbn [filter]; rewrite Hin; cbn [List.length].
        -- apply andb_true_iff in Hin. destruct Hin as [_ Hnow].
           apply Z.leb_le in Hnow.
           assert (Hsub : in_window (limit_window limit) t' log =
                          in_window (limit_window limit) t' kept).
           { unfold in_window, kept. symmetry. apply filter_filter_implied.
             intros s Hs. apply andb_true_iff in Hs. destruct Hs as [Hs _].
             apply Z.ltb_lt in Hs. rewrite Z.gtb_ltb. apply Z.ltb_lt. lia. }
           rewrite Hsub.
           pose proof (filter_length_le
                         (fun s => (t' - limit_window limit <? s) && (s <=? t'))
                         kept) as Hlen.
           unfold in_window. lia.
        -- specialize (Hbound t'). lia.
Qed.
End SlidingWindow.

(** X20.  The sliding window holds: for requests of one key that arrive
    in the order of their clock readings, starting without a stored
    entry, the requests let through in any span of [window] seconds
    number at most the limit. *)
Theorem rate_limit_holds (key : string) (limit : Limit) (times : list Z)
    (store : RateStore) (t : Z) :
  Sorted Z.le times ->
  rate_get key store = None ->
  Z.of_nat
    (List.length
       (in_window (limit_window limit) t (fst (serve key limit times store))))
  <= Z.max 0 (limit_requests limit).
Proof.
  intros Hsorted Hempty.
  destruct times as [| now_ms times]; [simpl; lia |].
  apply (serve_keeps_bound key limit (now_ms :: times) now_ms store []).
  - constructor; [exact Hsorted | constructor; lia].
  - intros x [].
  - intros w _. unfold stored. rewrite Hempty. reflexivity.
  - intros t'. simpl. lia.
Qed.

Lemma rate_limit_holds_witness :
  fst (serve "203.0.113.7" RATE_LIMITS_AUTH
         [1000; 2000; 3000; 4000; 5000; 6000; 61500] []) =
    [1; 2; 3; 4; 5; 61] /\
  Z.of_nat
    (List.length
       (in_window 60 61
          (fst (serve "203.0.113.7" RATE_LIMITS_AUTH
                  [1000; 2000; 3000; 4000; 5000; 6000; 61500] [])))) <= Z.max 0 5.
Proof.
  split; [reflexivity |].
  apply (rate_limit_holds "203.0.113.7" RATE_LIMITS_AUTH
           [1000; 2000; 3000; 4000; 5000; 6000; 61500] [] 61).
  - repeat constructor; lia.
  - reflexivity.
Defined.

(** ** Writers and the availability cache *)

Lemma uncached_reads_ledger (iid : Z) (st : State) :
  kv_get iid st = None ->
  fst (run (getCachedAvailability iid) st) = fst (run (isItemAvailable iid) st).
Proof.
  intros Hmiss. unfold getCachedAvailability.
  rewrite run_bind, run_query, Hmiss.
  rewrite run_bind, run_isItemAvailable, run_bind, run_exec. reflexivity.
Qed.

Lemma run_updateItemAvailability (itemId : Z) (available : bool) (st : State) :
  run (updateItemAvailability itemId available) st =
  (tt, kv_delete itemId (mark_item itemId (if available then 1 else 0) st)).
Proof. reflexivity. Qed.

(** X21.  Writers invalidate before they answer.  Whatever the cache
    held: right after a createBorrow answered 201 the cached answer for
    its item is false; right after a returnItem answered 200, and right
    after updateItemAvailability, the cached answer for the item is the
    answer isItemAvailable gives on the new store. *)
Theorem writers_invalidate_cache (st : State) :
  (forall request amb body iid,
     status_code (fst (run (createBorrow request amb) st)) = 201 ->
     create_body request = parsed body ->
     truthy (item_id body) = Some iid ->
     fst (run (getCachedAvailability iid)
            (snd (run (createBorrow request amb) st))) = false) /\
  (forall request now bid borrow,
     status_code (fst (run (returnItem request now) st)) = 200 ->
     params_id request = Some (row_id bid) ->
     first (borrow_rows bid st) = Some borrow ->
     let st' := snd (run (returnItem request now) st) in
     fst (run (getCachedAvailability (br_item_id borrow)) st') =
     fst (run (isItemAvailable (br_item_id borrow)) st')) /\
  (forall itemId available,
     let st' := snd (run (updateItemAvailability itemId available) st) in
     fst (run (getCachedAvailability itemId) st') =
     fst (run (isItemAvailable itemId) st')).
Proof.
  split; [| split].
  - intros request amb body iid Hcreated Hbody Hiid.
    destruct (createBorrow_created request amb st Hcreated)
      as (uid & iid0 & body0 & item & due & _ & Hbody0 & Hiid0 & Hitem & _
            & Hrun).
    assert (body0 = body) by congruence. subst body0.
    assert (iid0 = iid) by congruence. subst iid0.
    rewrite Hrun. cbn [snd].
    rewrite uncached_reads_ledger
      by (unfold reserved_state; rewrite kv_get_delete, Z.eqb_refl; reflexivity).
    rewrite run_isItemAvailable. cbn [fst].
    assert (Hitem1 : first (item_rows iid
                       (reserved_state uid iid due
                          (qr_of amb) (db_unixepoch amb) st)) =
                     Some (set_available item 0)).
    { apply (first_item_rows_mark_item iid 0
               (snd (insert_borrow uid iid (Some due)
                       (qr_of amb) (db_unixepoch amb) st)) item).
      exact Hitem. }
    unfold flag_set. rewrite Hitem1. reflexivity.
  - intros request now bid borrow Hok Hid Hborrow st'. subst st'.
    destruct (returnItem_returned request now st Hok)
      as (bid' & body & borrow' & Hid' & _ & Hborrow' & _ & Hrun).
    assert (bid' = bid) by congruence. subst bid'.
    assert (borrow' = borrow) by congruence. subst borrow'.
    rewrite Hrun. cbn [snd]. apply uncached_reads_ledger.
    assert (Hkv : kv_get (br_item_id borrow)
                    (returned_state bid now body borrow st) =
                  kv_get (br_item_id borrow)
                    (kv_delete (br_item_id borrow) st)).
    { unfold returned_state.
      destruct (String.eqb (condition_of body) "damaged"); reflexivity. }
    rewrite Hkv, kv_get_delete, Z.eqb_refl. reflexivity.
  - intros itemId available st'. subst st'.
    rewrite run_updateItemAvailability. cbn [snd].
    apply uncached_reads_ledger. rewrite kv_get_delete, Z.eqb_refl. reflexivity.
Qed.

Lemma writers_invalidate_cache_witness :
  fst (run (getCachedAvailability 2)
         (snd (run (createBorrow (reserve_request 2 2 7) (at_ms 2000000))
                 lego_held_cached))) = false.
Proof.
  apply (proj1 (writers_invalidate_cache lego_held_cached)
           (reserve_request 2 2 7) (at_ms 2000000)
           (mkCreateBorrowBody (Some 2) (Some (whole 7))) 2);
    reflexivity.
Defined.

(** ** The answer of updateTrustScore *)




(** ** Sessions *)

Lemma session_get_delete (token : string) (store : SessionStore) :
  session_get token (session_delete token store) = None.
Proof.
  unfold session_get, session_delete.
  destruct (filter _ (filter _ store)) as [| e l] eqn:Hf; [reflexivity |].
  exfalso. assert (Hin : In e (e :: l)) by now left.
  rewrite <- Hf in Hin. apply filter_In in Hin. destruct Hin as [Hin He].
  apply filter_In in Hin. destruct Hin as [_ Hne]. rewrite He in Hne.
  discriminate.
Qed.

Lemma session_get_delete_other (token token' : string) (store : SessionStore) :
  token' <> token ->
  session_get token' (session_delete token store) = session_get token' store.
Proof.
  intros Hne. unfold session_get, session_delete.
  rewrite filter_filter_implied; [reflexivity |].
  intros e He. apply String.eqb_eq in He. rewrite He.
  apply negb_true_iff. apply String.eqb_neq. exact Hne.
Qed.

(** X23.  requireAuth and session age.  A request continues only with a
    stored, parsed session that is at most 24 hours old, and then the
    session store is untouched.  A session found older than that is
    answered 'Session expired' and removed: the same header is answered
    'Session expired or invalid' from then on, at any clock reading,
    while the sessions of other tokens stay. *)
Theorem requireAuth_sessions (header : string) (now_ms : Z)
    (store : SessionStore) :
  let outcome := fst (requireAuth (Some header) now_ms store) in
  let store' := snd (requireAuth (Some header) now_ms store) in
  (forall session,
     outcome = Continue session ->
     store' = store /\
     session_get (token_of header) store = Some (Some session) /\
     now_ms - session_createdAt session <= 86400000) /\
  (outcome = Rejected "Session expired" 401 ->
   (forall now_ms',
      fst (requireAuth (Some header) now_ms' store') =
      Rejected "Session expired or invalid" 401) /\
   (forall token,
      token <> token_of header ->
      session_get token store' = session_get token store)).
Proof.
  intros outcome store'. subst outcome store'. unfold requireAuth.
  destruct (prefix "Bearer " header) eqn:Hprefix; cbn [negb];
    [| split; [intros s H; discriminate H | intros H; discriminate H]].
  destruct (session_get (token_of header) store) as [[session |] |] eqn:Hget;
    [| split; [intros s H; discriminate H | intros H; discriminate H] ..].
  cbn zeta.
  destruct (now_ms - session_createdAt session >? 24 * 60 * 60 * 1000) eqn:Hage;
    cbn [fst snd].
  - split; [intros s H; discriminate H |]. intros _. split.
    + intros now_ms'. rewrite session_get_delete. reflexivity.
    + intros token Hne. apply session_get_delete_other. exact Hne.
  - split; [| intros H; discriminate H].
    intros s Hs. injection Hs as <-.
    rewrite Z.gtb_ltb in Hage. apply Z.ltb_ge in Hage.
    split; [reflexivity |]. split; [reflexivity | lia].
Qed.

Lemma requireAuth_sessions_witness :
  fst (requireAuth (Some "Bearer tok-fresh"%string) 86401000 sample_sessions) =
    Continue (mkSession 1 false 1000) /\
  fst (requireAuth (Some "Bearer tok-stale"%string) 86401000 sample_sessions) =
    Rejected "Session expired" 401 /\
  fst (requireAuth (Some "Bearer tok-stale"%string) 86401000
         (snd (requireAuth (Some "Bearer tok-stale"%string) 86401000
                 sample_sessions))) =
    Rejected "Session expired or invalid" 401.
Proof.
  split; [reflexivity |]. split; [reflexivity |].
  apply (proj1 (proj2 (requireAuth_sessions "Bearer tok-stale" 86401000
                         sample_sessions) eq_refl)).
Defined.

(** ** The flag says exactly which items are held *)

Lemma NoDup_snoc {A : Type} (l : list A) (x : A) :
  NoDup l -> ~ In x l -> NoDup (l ++ [x]).
Proof.
  induction l as [| y l IH]; simpl; intros Hnd Hnotin.
  - constructor; [intros [] | constructor].
  - inversion Hnd as [| ? ? Hy Hnd']; subst. constructor.
    + intros Hin. apply in_app_or in Hin.
      destruct Hin as [Hin | [-> | []]]; [contradiction | tauto].
    + apply IH; [exact Hnd' | tauto].
Qed.

Lemma NoDup_map_eq {A B : Type} (f : A -> B) (l : list A) (a b : A) :
  NoDup (map f l) -> In a l -> In b l -> f a = f b -> a = b.
Proof.
  induction l as [| x l IH]; simpl; [contradiction |].
  intros Hnd Ha Hb Heq. inversion Hnd as [| ? ? Hnotin Hnd']; subst.
  destruct Ha as [-> | Ha], Hb as [-> | Hb].
  - reflexivity.
  - exfalso. apply Hnotin. rewrite Heq. apply in_map. exact Hb.
  - exfalso. apply Hnotin. rewrite <- Heq. apply in_map. exact Ha.
  - apply IH; assumption.
Qed.

Lemma map_id_update_where (q : BorrowRecord -> bool)
    (f : BorrowRecord -> BorrowRecord) (rows : list BorrowRecord) :
  (forall b, br_id (f b) = br_id b) ->
  map br_id (update_where q f rows) = map br_id rows.
Proof.
  intros Hid. unfold update_where. rewrite map_map. apply map_ext.
  intros b. destruct (q b); [apply Hid | reflexivity].
Qed.

Lemma filter_all {A : Type} (p : A -> bool) (l : list A) :
  (forall x, In x l -> p x = true) -> filter p l = l.
Proof.
  induction l as [| x l IH]; simpl; intros Hall; [reflexivity |].
  rewrite (Hall x (or_introl eq_refl)). f_equal. apply IH.
  intros y Hy. apply Hall. now right.
Qed.

Section LedgerPreservation.
Variable st : State.
Hypothesis Hone : at_most_one_holder st.
Hypothesis Hflags : flag_consistent st.
Hypothesis Hids : borrow_ids_distinct st.

Lemma createBorrow_keeps_flags (request : CreateBorrowRequest) (amb : Ambient) :
  flag_consistent (snd (run (createBorrow request amb) st)) /\
  borrow_ids_distinct (snd (run (createBorrow request amb) st)).
Proof.
  destruct (run_createBorrow_cases request amb st)
    as [(r & Hrun & _) |
        (uid & iid & body & item & u & due & _ & _ & _ & _ & _ & _ & _ & _ & _
           & _ & _ & Hrun)];
    rewrite Hrun; cbn [snd]; [split; assumption |].
  unfold reserved_state. split.
  - intros it' Hin. rewrite holders_kv_delete, holders_mark_item,
      holders_insert_borrow.
    cbn [items kv_delete mark_item set_kv set_items] in Hin.
    apply in_map_iff in Hin. destruct Hin as (it & Heq & Hin).
    cbn [items insert_borrow snd set_borrow_records] in Hin.
    destruct (Z.eqb_spec (it_id it) iid) as [Hid | Hne]; subst it'.
    + cbn [it_available it_id set_available]. rewrite Hid, Z.eqb_refl.
      split; [intros _ | reflexivity].
      intros Hnil. apply app_eq_nil in Hnil. destruct Hnil as [_ H].
      discriminate H.
    + destruct (Z.eqb_spec iid (it_id it)) as [Heq | _]; [congruence |].
      rewrite app_nil_r. apply Hflags. exact Hin.
  - unfold borrow_ids_distinct in *.
    cbn [borrow_records kv_delete mark_item insert_borrow snd set_kv set_items
         set_borrow_records].
    rewrite map_app. apply NoDup_snoc; [exact Hids |].
    cbn [map br_id]. intros Hin.
    pose proof (fold_max_ge _ _ Hin) as Hle. unfold next_id in Hle. lia.
Qed.

Lemma returnItem_keeps_flags (request : ReturnRequest) (now : Z) :
  flag_consistent (snd (run (returnItem request now) st)) /\
  borrow_ids_distinct (snd (run (returnItem request now) st)).
Proof.
  destruct (run_returnItem_cases request now st)
    as [(r & Hrun & _) |
        (bid & body & borrow & _ & _ & Hborrow & Hstatus & Hrun)];
    rewrite Hrun; cbn [snd]; [split; assumption |].
  apply first_filter_Some in Hborrow. destruct Hborrow as [Hrow Hbid].
  apply Z.eqb_eq in Hbid.
  assert (Hheld : In borrow (holders (br_item_id borrow) st)).
  { unfold holders. apply filter_In. split; [exact Hrow |].
    rewrite Z.eqb_refl. unfold is_holder.
    destruct (br_status borrow); [reflexivity | contradiction | reflexivity]. }
  split.
  - intros it' Hin. rewrite holders_returned_state.
    assert (Hitems : items (returned_state bid now body borrow st) =
                     update_where (fun it => it_id it =? br_item_id borrow)
                       (fun it => set_available it 1) (items st)).
    { unfold returned_state.
      destruct (String.eqb (condition_of body) "damaged"); reflexivity. }
    rewrite Hitems in Hin. apply in_map_iff in Hin.
    destruct Hin as (it & Heq & Hin).
    destruct (Z.eqb_spec (it_id it) (br_item_id borrow)) as [Hid | Hne];
      subst it'.
    + cbn [it_available it_id set_available]. rewrite Hid.
      rewrite (at_most_one_In _ borrow (Hone _) Hheld). simpl.
      rewrite Hbid, Z.eqb_refl. simpl. split; [discriminate | congruence].
    + rewrite filter_all; [apply Hflags; exact Hin |].
      intros b Hb. apply negb_true_iff. apply Z.eqb_neq. intros Hsame.
      assert (Hrow' : In b (borrow_records st)).
      { unfold holders in Hb. apply filter_In in Hb. tauto. }
      assert (b = borrow)
        by (apply (NoDup_map_eq br_id (borrow_records st)); try assumption;
            congruence).
      subst b. unfold holders in Hb. apply filter_In in Hb.
      destruct Hb as [_ Hb]. apply andb_true_iff in Hb. destruct Hb as [Hb _].
      apply Z.eqb_eq in Hb. congruence.
  - unfold borrow_ids_distinct in *. rewrite borrow_records_returned_state.
    unfold mark_returned. cbn [borrow_records set_borrow_records].
    rewrite map_id_update_where by reflexivity. exact Hids.
Qed.

Lemma sweep_keeps_flags (now : Z) :
  flag_consistent (snd (run (getOverdueBorrows now) st)) /\
  borrow_ids_distinct (snd (run (getOverdueBorrows now) st)).
Proof.
  rewrite run_getOverdueBorrows. cbn [snd]. split.
  - intros it Hin. rewrite holders_mark_overdue.
    change (In it (items st)) in Hin. rewrite (Hflags it Hin).
    unfold update_where.
    destruct (holders (it_id it) st); simpl; split; intros H; congruence.
  - unfold borrow_ids_distinct in *. unfold mark_overdue.
    cbn [snd borrow_records set_borrow_records].
    rewrite map_id_update_where by reflexivity. exact Hids.
Qed.
End LedgerPreservation.

(** X24.  The invariant of the data model: if every item has at most one
    holder, an item row is flagged unavailable exactly when the item has
    a holder, and borrow ids are distinct, then all three still hold
    after createBorrow, returnItem or the sweep of getOverdueBorrows,
    each run alone, and so in every state these operations reach. *)
Theorem ledger_stays_ok (st0 : State) :
  ledger_ok st0 ->
  (forall op, ledger_ok (apply_op op st0)) /\
  (forall st, reachable st0 st -> ledger_ok st).
Proof.
  assert (Hstep : forall st op, ledger_ok st -> ledger_ok (apply_op op st)).
  { intros st op (Hone & Hflags & Hids).
    pose proof (flag_consistent_held_items_flagged st Hflags) as Hweak.
    split; [apply (apply_op_preserves st Hone Hweak op) |].
    destruct op as [request amb | request now | now]; cbn [apply_op].
    - apply createBorrow_keeps_flags; assumption.
    - apply returnItem_keeps_flags; assumption.
    - apply sweep_keeps_flags; assumption. }
  intros Hok. split.
  - intros op. apply Hstep. exact Hok.
  - intros st Hreach. induction Hreach as [| st op _ IH]; [exact Hok |].
    apply Hstep. exact IH.
Qed.

Lemma seeded_ledger_ok : ledger_ok seeded.
Proof.
  split; [| split].
  - intros iid. simpl. lia.
  - intros it Hin. simpl in Hin.
    destruct Hin as [<- | [<- | [<- | []]]]; simpl; split; intros H;
      first [discriminate H | exfalso; apply H; reflexivity].
  - constructor.
Qed.

Lemma ledger_stays_ok_witness : ledger_ok lego_held.
Proof.
  apply (proj1 (ledger_stays_ok seeded seeded_ledger_ok)
           (Reserve (reserve_request 1 1 7) (at_ms 1000000))).
Defined.

(** ** When a return keeps the trust score in range *)



